(** * The ReAct RAG agent

    A shallow embedding of the class [ReactRagAgent] (the module
    [./rag-agent] that [server/routers.ts] imports): its two tools
    ([retrieveDocuments], [analyzeText]), the step log ([addStep]) and the
    agent loop ([processQuery]), followed by the properties the
    specification states about them.

    Strings.  A JavaScript string is a sequence of UTF-16 code units.  The
    embedding works on code units in the range 0..255 (one [ascii] per
    unit), where [toLowerCase] acts unit by unit and never changes the
    length of a string.  Beyond that range [toLowerCase] depends on the
    context of a letter: the module [Wide] gives the two tools on a larger
    alphabet that holds the Greek letters, where this shows, and agrees
    with the embedding on the code units 0..255.

    Effects.  The hosted language model and the clock are the two things
    outside the program: the model is an oracle held by the agent (field
    [model]), the clock is an oracle passed to the run.  Everything else is
    explicit state passing.

    Requests.  The server keeps one agent for all requests, and a run
    gives way to the other requests while it awaits the model.
    [processQuery] is the run that no other request overlaps; the module
    [Shared] is the run on the shared agent, with what the other requests
    write on the agent at each await, and agrees with [processQuery] when
    they write nothing.

    The callers.  The procedures of the [rag] router that use the agent
    ([uploadDocument], [processQuery], [streamQuery]) and the helpers of
    [server/db.ts] they call come after the agent, with [upsertUser]; the
    database is an oracle too. *)

From Stdlib Require Import Bool Arith Lia List Sorted Ascii String NArith ZArith.
Import ListNotations.
Open Scope string_scope.
Open Scope nat_scope.

(** ** JavaScript string and array primitives used by the agent *)

Module Js.

Definition unit_between (lo hi : nat) (c : ascii) : bool :=
  (lo <=? nat_of_ascii c) && (nat_of_ascii c <=? hi).

(** Lower case of one code unit: A..Z, and the Latin-1 capitals
    U+00C0..U+00DE without the multiplication sign U+00D7. *)
Definition lower_unit (c : ascii) : ascii :=
  if unit_between 65 90 c
     || (unit_between 192 222 c && negb (nat_of_ascii c =? 215))
  then ascii_of_nat (nat_of_ascii c + 32)
  else c.

(** [String.prototype.toLowerCase] on strings of code units 0..255, which
    it lowers unit by unit.  ([Wide.toLowerCase] below goes beyond.) *)
Fixpoint toLowerCase (s : string) : string :=
  match s with
  | EmptyString => EmptyString
  | String c s' => String (lower_unit c) (toLowerCase s')
  end.

(** [String.prototype.includes], searching from position 0: the search
    string is tried at every position, the one past the last unit
    included. *)
Fixpoint includes (s search : string) : bool :=
  prefix search s
  || match s with
     | EmptyString => false
     | String _ s' => includes s' search
     end.

(** [s.substring(0, n)]. *)
Definition substring0 (n : nat) (s : string) : string := substring 0 n s.

(** White space and line terminators, the units [trim] strips and [\s]
    matches: TAB, LF, VT, FF, CR, SPACE and NO-BREAK SPACE. *)
Definition isWhiteSpace (c : ascii) : bool :=
  unit_between 9 13 c || (nat_of_ascii c =? 32) || (nat_of_ascii c =? 160).

Fixpoint trimStart (s : string) : string :=
  match s with
  | EmptyString => EmptyString
  | String c s' => if isWhiteSpace c then trimStart s' else s
  end.

Fixpoint trimEnd (s : string) : string :=
  match s with
  | EmptyString => EmptyString
  | String c s' =>
      match trimEnd s' with
      | EmptyString => if isWhiteSpace c then EmptyString else String c EmptyString
      | t => String c t
      end
  end.

(** [String.prototype.trim]. *)
Definition trim (s : string) : string := trimEnd (trimStart s).

(** [ToBoolean] on a string: only the empty string is falsy. *)
Definition truthy (s : string) : bool :=
  match s with
  | EmptyString => false
  | String _ _ => true
  end.

(** [s.split(/[...]+/)] for a character class [sep]: the pieces between
    the maximal runs of separator units.  [inRun] says that the unit
    before [s] belonged to a separator run, which the next separator units
    only extend.  A leading or trailing run leaves an empty piece, and the
    empty string splits into one empty piece. *)
Fixpoint splitRuns (sep : ascii -> bool) (inRun : bool) (s : string) : list string :=
  match s with
  | EmptyString => [EmptyString]
  | String c s' =>
      if sep c then
        if inRun then splitRuns sep true s'
        else EmptyString :: splitRuns sep true s'
      else
        match splitRuns sep false s' with
        | piece :: rest => String c piece :: rest
        | [] => [String c EmptyString]
        end
  end.

(** [s.split(sep)] for a separator string of one unit: every occurrence
    of the unit separates two pieces (so two separators in a row, or one
    at either end, leave an empty piece). *)
Fixpoint splitUnit (sep : ascii) (s : string) : list string :=
  match s with
  | EmptyString => [EmptyString]
  | String c s' =>
      if Ascii.eqb c sep then EmptyString :: splitUnit sep s'
      else
        match splitUnit sep s' with
        | piece :: rest => String c piece :: rest
        | [] => [String c EmptyString]
        end
  end.

(** [Array.prototype.join] on an array of strings. *)
Fixpoint join (sep : string) (l : list string) : string :=
  match l with
  | [] => EmptyString
  | [x] => x
  | x :: rest => x ++ sep ++ join sep rest
  end.

(** [Array.prototype.slice(0, n)]. *)
Definition slice0 {A} (n : nat) (l : list A) : list A := firstn n l.

(** [Array.prototype.push] of one element. *)
Definition push {A} (l : list A) (x : A) : list A := (l ++ [x])%list.

(** [a || b] on strings. *)
Definition or_else (a b : string) : string := if truthy a then a else b.

Definition LF : string := String "010"%char EmptyString.
Definition DQUOTE : string := String "034"%char EmptyString.

End Js.

Import Js.

(** ** Data model *)

Module AgentStep.
Inductive kind := thought | action | observation | result.
Record t := mk { type : kind; content : string; timestamp : Z }.
End AgentStep.

Module AgentState.
Record t := mk {
  steps : list AgentStep.t;
  currentQuery : string;
  documents : list string;
  isProcessing : bool
}.
End AgentState.

(** Messages sent to the model ([SystemMessage], [HumanMessage]). *)
Inductive BaseMessage :=
| SystemMessage (text : string)
| HumanMessage (text : string).

(** What a [throw] carries: an [Error] object with its message, or any
    other value. *)
Inductive Thrown :=
| ErrorObject (message : string)
| OtherValue.

(** What [await this.model.invoke(messages)] does: it yields a response
    with its [content], or it throws. *)
Inductive Outcome :=
| Returns (content : string)
| Throws (e : Thrown).

(** The hosted model.  [invoke k messages] is the outcome of the call
    number [k] (from 0) of a run when it is sent [messages]: the model is
    not assumed to answer the same messages twice in the same way. *)
Record ChatModel := { invoke : nat -> list BaseMessage -> Outcome }.

(** A [Map<string, string>] by its entries in iteration (insertion)
    order. *)
Definition JsMap := list (string * string).

Record ReactRagAgent := mkAgent {
  model : ChatModel;
  documents : JsMap;
  state : AgentState.t;
  maxIterations : nat
}.

(** [new ReactRagAgent(apiKey, documents)]; the field initialiser sets
    [maxIterations] to 5. *)
Definition new_ReactRagAgent (m : ChatModel) (docs : JsMap) : ReactRagAgent :=
  {| model := m;
     documents := docs;
     state := AgentState.mk [] EmptyString [] false;
     maxIterations := 5 |}.

Definition updateDocuments (self : ReactRagAgent) (docs : JsMap) : ReactRagAgent :=
  {| model := model self;
     documents := docs;
     state := state self;
     maxIterations := maxIterations self |}.

Definition getState (self : ReactRagAgent) : AgentState.t := state self.

(** ** The tools *)

Definition NO_DOCUMENTS : string := "No relevant documents found.".
Definition NO_FINDINGS : string := "No specific findings related to the query.".
Definition DELIMITER : string := LF ++ LF ++ "---" ++ LF ++ LF.

(** The template literal pushed for a matching document. *)
Definition excerpt (title content : string) : string :=
  "[" ++ title ++ "]" ++ LF ++ substring0 500 content ++ "...".

Definition retrieveDocuments (self : ReactRagAgent) (query : string) : string :=
  let queryLower := toLowerCase query in
  let results :=
    fold_left
      (fun (results : list string) (entry : string * string) =>
         let (title, content) := entry in
         if includes (toLowerCase title) queryLower
            || includes (toLowerCase content) queryLower
         then push results (excerpt title content)
         else results)
      (documents self) [] in
  if 0 <? List.length results
  then join DELIMITER results
  else NO_DOCUMENTS.

(** The class [[.!?]]. *)
Definition sentence_end (c : ascii) : bool :=
  Ascii.eqb c "."%char || Ascii.eqb c "!"%char || Ascii.eqb c "?"%char.

Definition analyzeText (self : ReactRagAgent) (text query : string) : string :=
  let sentences := filter (fun s => truthy (trim s)) (splitRuns sentence_end false text) in
  let queryWords := splitUnit " "%char query in
  let relevant :=
    filter
      (fun s => existsb (fun word => includes (toLowerCase s) (toLowerCase word)) queryWords)
      sentences in
  if 0 <? List.length relevant
  then "Key findings:" ++ LF ++ join LF (slice0 3 relevant)
  else NO_FINDINGS.

(** ** The regular expression of the search phrase

    [String.prototype.match] with a pattern without the [g] flag is
    [RegExp.prototype.exec]: the pattern is tried at every start position
    from the left, and at each position by backtracking in the priority
    order of the pattern.  The matcher below is written, as in the
    language definition, with continuations: a matcher takes the state
    reached so far and what remains to be matched after it. *)

Module RegExp.

(** [Canonicalize] under the [i] flag: the upper case of a unit when it
    is one unit again (a..z, and U+00E0..U+00FE without the division sign
    U+00F7).  The upper cases of U+00B5 and U+00FF lie beyond unit 255 and
    equal no canonical pattern character; both units are left as they
    are. *)
Definition canonicalize (c : ascii) : ascii :=
  if unit_between 97 122 c
     || (unit_between 224 254 c && negb (nat_of_ascii c =? 247))
  then ascii_of_nat (nat_of_ascii c - 32)
  else c.

Definition same_unit (ignoreCase : bool) (a ch : ascii) : bool :=
  if ignoreCase then Ascii.eqb (canonicalize a) (canonicalize ch)
  else Ascii.eqb a ch.

(** Atoms that match exactly one unit. *)
Inductive atom :=
| Chr (c : ascii)                              (* a pattern character *)
| Dot                                          (* [.], no [s] flag *)
| WhiteSpace                                   (* [\s] *)
| Class (invert : bool) (members : list ascii) (* [[...]] and [[^...]] *).

Inductive regex :=
| Empty
| One (a : atom)
| Seq (r1 r2 : regex)
| Alt (r1 r2 : regex)
| Opt (r : regex)                   (* [r?], greedy *)
| Star (greedy : bool) (a : atom)   (* [a*] and [a*?] *)
| Plus (a : atom)                   (* [a+], greedy *)
| Group (r : regex)                 (* the capturing group 1 *).

Definition isLineTerminator (c : ascii) : bool :=
  (nat_of_ascii c =? 10) || (nat_of_ascii c =? 13).

Definition atom_matches (ignoreCase : bool) (a : atom) (ch : ascii) : bool :=
  match a with
  | Chr c => same_unit ignoreCase c ch
  | Dot => negb (isLineTerminator ch)
  | WhiteSpace => isWhiteSpace ch
  | Class invert members =>
      xorb invert (existsb (fun m => same_unit ignoreCase m ch) members)
  end.

(** A state: the input still to be read and the capture of group 1. *)
Definition State := (string * option string)%type.
Definition MatchResult := option State.
Definition Continuation := State -> MatchResult.

(** The part of [from] read when [to] is what remains of it. *)
Definition consumed (from to : string) : string :=
  substring0 (String.length from - String.length to) from.

Definition first_success (a b : MatchResult) : MatchResult :=
  match a with
  | Some y => Some y
  | None => b
  end.

(** [a*]: the longest run first and then shorter ones. *)
Fixpoint greedy_star (ok : ascii -> bool) (k : Continuation)
         (cap : option string) (s : string) : MatchResult :=
  match s with
  | String ch rest =>
      if ok ch
      then first_success (greedy_star ok k cap rest) (k (s, cap))
      else k (s, cap)
  | EmptyString => k (s, cap)
  end.

(** [a*?]: the shortest run first and then longer ones. *)
Fixpoint lazy_star (ok : ascii -> bool) (k : Continuation)
         (cap : option string) (s : string) : MatchResult :=
  first_success (k (s, cap))
    match s with
    | String ch rest => if ok ch then lazy_star ok k cap rest else None
    | EmptyString => None
    end.

Fixpoint matcher (ignoreCase : bool) (r : regex) (x : State) (k : Continuation)
  : MatchResult :=
  match r with
  | Empty => k x
  | One a =>
      match fst x with
      | String ch rest =>
          if atom_matches ignoreCase a ch then k (rest, snd x) else None
      | EmptyString => None
      end
  | Seq r1 r2 => matcher ignoreCase r1 x (fun y => matcher ignoreCase r2 y k)
  | Alt r1 r2 =>
      first_success (matcher ignoreCase r1 x k) (matcher ignoreCase r2 x k)
  | Opt r1 => first_success (matcher ignoreCase r1 x k) (k x)
  | Star true a => greedy_star (atom_matches ignoreCase a) k (snd x) (fst x)
  | Star false a => lazy_star (atom_matches ignoreCase a) k (snd x) (fst x)
  | Plus a =>
      match fst x with
      | String ch rest =>
          if atom_matches ignoreCase a ch
          then greedy_star (atom_matches ignoreCase a) k (snd x) rest
          else None
      | EmptyString => None
      end
  | Group r1 =>
      matcher ignoreCase r1 x
        (fun y => k (fst y, Some (consumed (fst x) (fst y))))
  end.

(** [exec] from [lastIndex] 0: the leftmost start position that
    matches. *)
Fixpoint exec (ignoreCase : bool) (r : regex) (s : string) : MatchResult :=
  first_success (matcher ignoreCase r (s, None) Some)
    match s with
    | String _ rest => exec ignoreCase r rest
    | EmptyString => None
    end.

(** A sequence of pattern characters. *)
Fixpoint literal (s : string) : regex :=
  match s with
  | EmptyString => Empty
  | String c rest => Seq (One (Chr c)) (literal rest)
  end.

End RegExp.

Import RegExp.

(** [/(?:retrieve|search|find).*?(?:for|about|on)?\s*["\']?([^"\'.\n]+)/i],
    without its flag. *)
Definition SEARCH_PATTERN : regex :=
  Seq (Alt (literal "retrieve") (Alt (literal "search") (literal "find")))
 (Seq (Star false Dot)
 (Seq (Opt (Alt (literal "for") (Alt (literal "about") (literal "on"))))
 (Seq (Star true WhiteSpace)
 (Seq (Opt (One (Class false ["034"; "'"]%char)))
      (Group (Plus (Class true ["034"; "'"; "."; "010"]%char))))))).

(** [match ? match[1] : query] for [match = content.match(SEARCH_PATTERN)].
    Group 1 is not optional, so it has a capture in every match (lemma
    [SEARCH_PATTERN_captures] below) and the second branch stands for
    [null] only. *)
Definition searchQueryOf (content query : string) : string :=
  match exec true SEARCH_PATTERN content with
  | Some (_, Some group1) => group1
  | _ => query
  end.

(** ** The step log and the agent loop *)

(** The clock: [now k] is what the read number [k] (from 0) of [Date.now()]
    in a run gives.  [addStep] is the only reader and reads once for each
    step, so the step at index [k] of a run's log carries [now k]. *)
Definition Clock := nat -> Z.

Definition set_state (self : ReactRagAgent) (st : AgentState.t) : ReactRagAgent :=
  {| model := model self;
     documents := documents self;
     state := st;
     maxIterations := maxIterations self |}.

Definition addStep (now : Clock) (self : ReactRagAgent)
           (type : AgentStep.kind) (content : string) : ReactRagAgent :=
  let st := state self in
  set_state self
    (AgentState.mk
       (push (AgentState.steps st)
             (AgentStep.mk type content (now (List.length (AgentState.steps st)))))
       (AgentState.currentQuery st)
       (AgentState.documents st)
       (AgentState.isProcessing st)).

Definition SYSTEM_PROMPT : string :=
"You are a helpful ReAct agent that reasons step-by-step and uses tools to retrieve and analyze documents.

Available tools:
- retrieve_documents: Search for relevant documents based on keywords
- analyze_text: Extract key information from retrieved documents

Follow this pattern:
1. Thought: Analyze what you need to do
2. Action: Decide to retrieve documents or analyze text
3. Observation: Process the results
4. Repeat until you have enough information
5. Final Answer: Provide a comprehensive response

Be concise and clear in your reasoning. After gathering information, provide a final answer.".

Definition FALLBACK : string :=
  "Unable to generate a complete answer. Please try again.".

(** The variables of [processQuery] that the loop reads and writes, with
    the agent itself.  [invoked] is not a variable of the program: it
    records the argument of every [this.model.invoke] call made so far, so
    that the calls of a run can be counted. *)
Record Frame := mkFrame {
  self : ReactRagAgent;
  messages : list BaseMessage;
  iterations : nat;
  finalAnswer : string;
  invoked : list (list BaseMessage)
}.

(** How one pass through the loop body ends: at the end of the body, on
    the way to the next test of the loop condition, or at a [break]. *)
Inductive Flow :=
| Next (f : Frame)
| Break (f : Frame).

Definition errorMessage (e : Thrown) : string :=
  match e with
  | ErrorObject message => message
  | OtherValue => "Unknown error"
  end.

(** The body of the [while] loop, in a run that no other request
    overlaps: nothing writes on the agent while the call of the model is
    awaited.  ([Shared.body] below is the body with the writes of the
    others.) *)
Definition body (now : Clock) (query : string) (f : Frame) : Flow :=
  let iterations := S (iterations f) in
  let this := self f in
  let messages := messages f in
  let response := invoke (model this) (List.length (invoked f)) messages in
  let invoked := push (invoked f) messages in
  match response with
  | Returns content =>
      let this := addStep now this AgentStep.thought content in
      if includes (toLowerCase content) "final answer"
         || includes (toLowerCase content) "answer:"
         || (maxIterations this <=? iterations)
      then
        let finalAnswer := content in
        let this := addStep now this AgentStep.result finalAnswer in
        Break (mkFrame this messages iterations finalAnswer invoked)
      else if includes (toLowerCase content) "retrieve"
              || includes (toLowerCase content) "search"
      then
        let searchQuery := searchQueryOf content query in
        let this :=
          addStep now this AgentStep.action
            ("Retrieving documents for: " ++ DQUOTE ++ searchQuery ++ DQUOTE) in
        let result := retrieveDocuments this searchQuery in
        let this := addStep now this AgentStep.observation result in
        let messages := push messages (HumanMessage content) in
        let messages :=
          push messages
            (HumanMessage
               ("Tool result from document retrieval:" ++ LF ++ result
                  ++ LF ++ LF ++ "Continue your analysis.")) in
        Next (mkFrame this messages iterations (finalAnswer f) invoked)
      else if includes (toLowerCase content) "analyze"
              || includes (toLowerCase content) "extract"
      then
        let this := addStep now this AgentStep.action "Analyzing retrieved documents" in
        let result := analyzeText this content query in
        let this := addStep now this AgentStep.observation result in
        let messages := push messages (HumanMessage content) in
        let messages :=
          push messages
            (HumanMessage
               ("Tool result from analysis:" ++ LF ++ result ++ LF ++ LF
                  ++ "Provide your final answer based on this analysis.")) in
        Next (mkFrame this messages iterations (finalAnswer f) invoked)
      else
        (* toolExecuted is false *)
        let finalAnswer := content in
        let this := addStep now this AgentStep.result finalAnswer in
        Break (mkFrame this messages iterations finalAnswer invoked)
  | Throws error =>
      let errorMsg := errorMessage error in
      let this :=
        addStep now this AgentStep.thought ("Error during processing: " ++ errorMsg) in
      Break (mkFrame this messages iterations (finalAnswer f) invoked)
  end.

(** [while (iterations < this.maxIterations) { body }].  Each unit of
    [fuel] pays for one test of the loop condition; [None] means that the
    fuel ran out before the loop was left. *)
Fixpoint while (fuel : nat) (now : Clock) (query : string) (f : Frame) : option Frame :=
  match fuel with
  | 0 => None
  | S fuel' =>
      if iterations f <? maxIterations (self f)
      then match body now query f with
           | Next f' => while fuel' now query f'
           | Break f' => Some f'
           end
      else Some f
  end.

(** What [processQuery] resolves to, [{ result, steps }], together with the
    agent as the run leaves it and the model calls the run made.
    [processQuery] below is the run that no other request overlaps, for
    which [this.state.steps] at the end holds the steps of the run and no
    others. *)
Record Run := mkRun {
  result : string;
  steps : list AgentStep.t;
  agent : ReactRagAgent;
  calls : list (list BaseMessage)
}.

Definition processQuery (fuel : nat) (now : Clock) (this : ReactRagAgent)
           (query : string) : option Run :=
  let this := set_state this (AgentState.mk [] query [] true) in
  let this :=
    addStep now this AgentStep.thought
      ("Analyzing query: " ++ DQUOTE ++ query ++ DQUOTE) in
  let messages := [SystemMessage SYSTEM_PROMPT; HumanMessage query] in
  match while fuel now query (mkFrame this messages 0 EmptyString []) with
  | None => None
  | Some f =>
      let st := state (self f) in
      let this :=
        set_state (self f)
          (AgentState.mk (AgentState.steps st) (AgentState.currentQuery st)
                         (AgentState.documents st) false) in
      Some (mkRun (or_else (finalAnswer f) FALLBACK)
                  (AgentState.steps (state this))
                  this
                  (invoked f))
  end.

(** ** What the specification says, in its own words

    The definitions of this module follow the sentences of the
    specification and not the program; the theorems below compare the two. *)

Module Spec.

(** The capital letters among the code units 0..255: A..Z, and
    U+00C0..U+00DE but the multiplication sign U+00D7.  The small letter of
    a capital stands 32 places after it. *)
Definition capital (c : ascii) : bool :=
  let n := nat_of_ascii c in
  ((65 <=? n) && (n <=? 90)) || ((192 <=? n) && (n <=? 222) && negb (n =? 215)).

Definition small_of (c d : ascii) : bool :=
  capital c && (nat_of_ascii d =? nat_of_ascii c + 32).

(** Two units are the same up to the case of letters: they are equal, or
    one is a capital and the other its small letter. *)
Definition same_ignoring_case (a b : ascii) : bool :=
  Ascii.eqb a b || small_of a b || small_of b a.

(** Two strings are equal up to case: the same length, and the same unit
    up to case at each place. *)
Fixpoint equal_ignoring_case (s t : string) : bool :=
  match s, t with
  | EmptyString, EmptyString => true
  | String a s', String b t' => same_ignoring_case a b && equal_ignoring_case s' t'
  | _, _ => false
  end.

(** [w] is read at the start of [s], up to the case of letters. *)
Fixpoint starts_with_ignoring_case (w s : string) : bool :=
  match w, s with
  | EmptyString, _ => true
  | String _ _, EmptyString => false
  | String a w', String b s' =>
      same_ignoring_case a b && starts_with_ignoring_case w' s'
  end.

(** [s] contains [w] case-insensitively: [w] is read somewhere in [s]. *)
Fixpoint contains_ignoring_case (s w : string) : bool :=
  starts_with_ignoring_case w s
  || match s with
     | EmptyString => false
     | String _ s' => contains_ignoring_case s' w
     end.

(** A document matches when its title or its content contains the
    phrase. *)
Definition matching (phrase : string) (doc : string * string) : bool :=
  contains_ignoring_case (fst doc) phrase
  || contains_ignoring_case (snd doc) phrase.

(** The title and the first 500 characters of the content, in the
    layout of the program's excerpt. *)
Definition excerpt_of (doc : string * string) : string :=
  excerpt (fst doc) (snd doc).

(** The Retrieval Tool: the excerpts of the matching documents in
    iteration order, separated by the delimiter, or the sentinel. *)
Definition retrieval (docs : JsMap) (phrase : string) : string :=
  match filter (matching phrase) docs with
  | [] => NO_DOCUMENTS
  | hits => join DELIMITER (map excerpt_of hits)
  end.

(** Splitting at every unit of a class: each occurrence separates two
    pieces. *)
Fixpoint split_at_each (sep : ascii -> bool) (s : string) : list string :=
  match s with
  | EmptyString => [EmptyString]
  | String c s' =>
      if sep c then EmptyString :: split_at_each sep s'
      else
        match split_at_each sep s' with
        | piece :: rest => String c piece :: rest
        | [] => [String c EmptyString]
        end
  end.

(** The pseudo-sentences of a text: what lies between its full stops,
    exclamation marks and question marks. *)
Definition pseudo_sentences (text : string) : list string :=
  split_at_each sentence_end text.

(** The whitespace-delimited tokens of a query: its maximal runs of
    units that are not white space. *)
Definition tokens (query : string) : list string :=
  filter truthy (split_at_each isWhiteSpace query).

Definition kept (query : string) (sentence : string) : bool :=
  existsb (contains_ignoring_case sentence) (tokens query).

(** The Analysis Tool: the first three kept sentences under the header,
    or the sentinel. *)
Definition analysis (text query : string) : string :=
  match filter (kept query) (pseudo_sentences text) with
  | [] => NO_FINDINGS
  | found => "Key findings:" ++ LF ++ join LF (firstn 3 found)
  end.

(** A query written as words separated by single spaces: it is not
    empty, SPACE is its only white space, and no SPACE stands at either
    end or next to another one.  [expectWord] says that a word has to
    start here. *)
Fixpoint single_spaced (expectWord : bool) (query : string) : bool :=
  match query with
  | EmptyString => negb expectWord
  | String c rest =>
      if Ascii.eqb c " "%char
      then negb expectWord && single_spaced true rest
      else negb (isWhiteSpace c) && single_spaced false rest
  end.

End Spec.

(** ** Strings beyond code unit 255

    [String.prototype.toLowerCase] follows the default case conversion of
    the Unicode standard, which does not work unit by unit everywhere: the
    capital sigma U+03A3 becomes the final small sigma U+03C2 at the end of
    a word (the condition Final_Sigma of the standard) and the small sigma
    U+03C3 elsewhere.  This module gives the primitives and the two tools
    on strings of UTF-16 code units over a larger alphabet, the code units
    0..255 together with the Greek letters.  On the code units 0..255 its
    functions are those of the module [Js] (section "The two alphabets"
    below).  On a string with a unit outside the alphabet [toLowerCase] is
    not meant to be the builtin, and the statements below say of each string
    they use that it lies within the alphabet. *)

Module Wide.

(** A string by its UTF-16 code units. *)
Definition Str := list N.

(** A string of the embedding above as a string of code units. *)
Definition of_string (s : string) : Str := map N_of_ascii (list_ascii_of_string s).

Definition between (lo hi c : N) : bool := ((lo <=? c) && (c <=? hi))%N.

Definition CAPITAL_ALPHA : N := 913.  (* U+0391 *)
Definition CAPITAL_SIGMA : N := 931.  (* U+03A3 *)
Definition SMALL_ALPHA : N := 945.    (* U+03B1 *)
Definition FINAL_SIGMA : N := 962.    (* U+03C2 *)
Definition SMALL_SIGMA : N := 963.    (* U+03C3 *)

(** Two Greek strings: U+0391 U+03A3 U+0391 and its first two units. *)
Definition ALPHA_SIGMA_ALPHA : Str := [CAPITAL_ALPHA; CAPITAL_SIGMA; CAPITAL_ALPHA].
Definition ALPHA_SIGMA : Str := [CAPITAL_ALPHA; CAPITAL_SIGMA].

(** The alphabet: the code units 0..255, the Greek capitals
    U+0391..U+03A1 and U+03A3..U+03A9, and the Greek small letters
    U+03B1..U+03C9. *)
Definition known (c : N) : bool :=
  (c <? 256)%N || between 913 929 c || between 931 937 c || between 945 969 c.

Definition in_alphabet (s : Str) : bool := forallb known s.

(** The property Cased on the alphabet: the letters that are capital or
    small (with the two ordinal indicators and the micro sign). *)
Definition cased (c : N) : bool :=
  between 65 90 c || between 97 122 c
  || (c =? 170)%N || (c =? 181)%N || (c =? 186)%N
  || (between 192 222 c && negb (c =? 215)%N)
  || (between 223 255 c && negb (c =? 247)%N)
  || between 913 929 c || between 931 937 c || between 945 969 c.

(** The property Case_Ignorable on the alphabet: the apostrophe, the full
    stop, the colon, the circumflex and grave accents, the diaeresis, the
    soft hyphen, the macron, the acute accent, the middle dot and the
    cedilla. *)
Definition caseIgnorable (c : N) : bool :=
  existsb (N.eqb c) [39; 46; 58; 94; 96; 168; 173; 175; 180; 183; 184]%N.

(** Going away from a sigma, the first unit that is not case-ignorable is
    a cased letter. *)
Fixpoint cased_next (l : Str) : bool :=
  match l with
  | [] => false
  | c :: rest => if caseIgnorable c then cased_next rest else cased c
  end.

(** The condition Final_Sigma: a cased letter comes before (case-ignorable
    units skipped) and none comes after.  [before] holds the units that
    precede, the nearest first. *)
Definition finalSigma (before after : Str) : bool :=
  cased_next before && negb (cased_next after).

(** Lower case of one unit, the context apart: A..Z, the capitals of
    Latin-1 and the Greek capitals stand 32 places before their small
    letters. *)
Definition lower_unit (c : N) : N :=
  if between 65 90 c
     || (between 192 222 c && negb (c =? 215)%N)
     || between 913 929 c || between 931 937 c
  then (c + 32)%N
  else c.

Fixpoint lower_from (before s : Str) : Str :=
  match s with
  | [] => []
  | c :: rest =>
      (if (c =? CAPITAL_SIGMA)%N && finalSigma before rest
       then FINAL_SIGMA
       else lower_unit c)
        :: lower_from (c :: before) rest
  end.

(** [String.prototype.toLowerCase] on the alphabet. *)
Definition toLowerCase (s : Str) : Str := lower_from [] s.

Fixpoint startsWith (search s : Str) : bool :=
  match search, s with
  | [], _ => true
  | _ :: _, [] => false
  | a :: search', b :: s' => (a =? b)%N && startsWith search' s'
  end.

(** [String.prototype.includes]. *)
Fixpoint includes (s search : Str) : bool :=
  startsWith search s
  || match s with
     | [] => false
     | _ :: s' => includes s' search
     end.

(** [s.substring(0, n)]. *)
Definition substring0 (n : nat) (s : Str) : Str := firstn n s.

(** The white space of the alphabet. *)
Definition isWhiteSpace (c : N) : bool :=
  between 9 13 c || (c =? 32)%N || (c =? 160)%N.

Fixpoint trimStart (s : Str) : Str :=
  match s with
  | [] => []
  | c :: s' => if isWhiteSpace c then trimStart s' else s
  end.

Fixpoint trimEnd (s : Str) : Str :=
  match s with
  | [] => []
  | c :: s' =>
      match trimEnd s' with
      | [] => if isWhiteSpace c then [] else [c]
      | t => c :: t
      end
  end.

Definition trim (s : Str) : Str := trimEnd (trimStart s).

Definition truthy (s : Str) : bool :=
  match s with
  | [] => false
  | _ :: _ => true
  end.

(** [s.split(/[...]+/)] and [s.split(sep)], as in the module [Js]. *)
Fixpoint splitRuns (sep : N -> bool) (inRun : bool) (s : Str) : list Str :=
  match s with
  | [] => [[]]
  | c :: s' =>
      if sep c then
        if inRun then splitRuns sep true s'
        else [] :: splitRuns sep true s'
      else
        match splitRuns sep false s' with
        | piece :: rest => (c :: piece) :: rest
        | [] => [[c]]
        end
  end.

Fixpoint splitUnit (sep : N) (s : Str) : list Str :=
  match s with
  | [] => [[]]
  | c :: s' =>
      if (c =? sep)%N then [] :: splitUnit sep s'
      else
        match splitUnit sep s' with
        | piece :: rest => (c :: piece) :: rest
        | [] => [[c]]
        end
  end.

Fixpoint join (sep : Str) (l : list Str) : Str :=
  match l with
  | [] => []
  | [x] => x
  | x :: rest => (x ++ sep ++ join sep rest)%list
  end.

Definition excerpt (title content : Str) : Str :=
  (of_string "[" ++ title ++ of_string ("]" ++ LF) ++ substring0 500 content
     ++ of_string "...")%list.

Definition retrieveDocuments (documents : list (Str * Str)) (query : Str) : Str :=
  let queryLower := toLowerCase query in
  let results :=
    fold_left
      (fun (results : list Str) (entry : Str * Str) =>
         let (title, content) := entry in
         if includes (toLowerCase title) queryLower
            || includes (toLowerCase content) queryLower
         then push results (excerpt title content)
         else results)
      documents [] in
  if 0 <? List.length results
  then join (of_string DELIMITER) results
  else of_string NO_DOCUMENTS.

Definition sentence_end (c : N) : bool :=
  (c =? 46)%N || (c =? 33)%N || (c =? 63)%N.

Definition analyzeText (text query : Str) : Str :=
  let sentences := filter (fun s => truthy (trim s)) (splitRuns sentence_end false text) in
  let queryWords := splitUnit 32%N query in
  let relevant :=
    filter
      (fun s => existsb (fun word => includes (toLowerCase s) (toLowerCase word)) queryWords)
      sentences in
  if 0 <? List.length relevant
  then (of_string ("Key findings:" ++ LF) ++ join (of_string LF) (slice0 3 relevant))%list
  else of_string NO_FINDINGS.

End Wide.

(** ** Auxiliary notions of the proofs *)

(** Strings made of white space only, and strings without any. *)
Fixpoint blank (s : string) : bool :=
  match s with
  | EmptyString => true
  | String c s' => isWhiteSpace c && blank s'
  end.

Fixpoint inked (s : string) : bool :=
  match s with
  | EmptyString => true
  | String c s' => negb (isWhiteSpace c) && inked s'
  end.

(** A word: not empty and free of white space. *)
Definition word (w : string) : Prop := truthy w = true /\ inked w = true.

(** The step log of a frame. *)
Definition log (f : Frame) : list AgentStep.t := AgentState.steps (state (self f)).

(** The three ways through the loop body, as a relation between the frame
    at the start of a turn and how the turn ends.  [body_turn] below shows
    that the body always takes one of them. *)
Inductive turn (now : Clock) (f : Frame) : Flow -> Prop :=
| turn_answer (content : string) :
    invoke (model (self f)) (List.length (invoked f)) (messages f) = Returns content ->
    turn now f
      (Break (mkFrame
                (addStep now (addStep now (self f) AgentStep.thought content)
                         AgentStep.result content)
                (messages f) (S (iterations f)) content
                (push (invoked f) (messages f))))
| turn_tool (content act obs : string) (messages' : list BaseMessage) :
    invoke (model (self f)) (List.length (invoked f)) (messages f) = Returns content ->
    S (iterations f) < maxIterations (self f) ->
    turn now f
      (Next (mkFrame
               (addStep now
                  (addStep now (addStep now (self f) AgentStep.thought content)
                           AgentStep.action act)
                  AgentStep.observation obs)
               messages' (S (iterations f)) (finalAnswer f)
               (push (invoked f) (messages f))))
| turn_error (e : Thrown) :
    invoke (model (self f)) (List.length (invoked f)) (messages f) = Throws e ->
    turn now f
      (Break (mkFrame
                (addStep now (self f) AgentStep.thought
                         ("Error during processing: " ++ errorMessage e))
                (messages f) (S (iterations f)) (finalAnswer f)
                (push (invoked f) (messages f)))).

(** The frame [processQuery] enters the loop with. *)
Definition entry (now : Clock) (query : string) (this : ReactRagAgent) : Frame :=
  mkFrame
    (addStep now (set_state this (AgentState.mk [] query [] true)) AgentStep.thought
             ("Analyzing query: " ++ DQUOTE ++ query ++ DQUOTE))
    [SystemMessage SYSTEM_PROMPT; HumanMessage query] 0 EmptyString [].

(** The calls of a list all returned. *)
Definition all_returned (m : ChatModel) (l : list (list BaseMessage)) : Prop :=
  forall j msgs, nth_error l j = Some msgs -> exists c, invoke m j msgs = Returns c.

Definition no_result_step (l : list AgentStep.t) : Prop :=
  Forall (fun s => AgentStep.type s <> AgentStep.result) l.

(** The loop was left on a call that threw: that call is the last one,
    the calls before it returned, no answer was set, no result step was
    logged and the last step reports the error. *)
Definition aborted (now : Clock) (m : ChatModel) (f : Frame) : Prop :=
  exists before msgs e,
    invoked f = (before ++ [msgs])%list
    /\ all_returned m before
    /\ invoke m (List.length before) msgs = Throws e
    /\ finalAnswer f = EmptyString
    /\ no_result_step (log f)
    /\ exists earlier,
        log f = (earlier
                   ++ [AgentStep.mk AgentStep.thought
                         ("Error during processing: " ++ errorMessage e)
                         (now (List.length earlier))])%list.

(** A continuation all of whose results satisfy [P]. *)
Definition yields (P : State -> Prop) (k : Continuation) : Prop :=
  forall y z, k y = Some z -> P z.

(** ** Examples used below *)

(** A model that cannot be reached: every call throws. *)
Definition offline_model : ChatModel :=
  {| invoke := fun _ _ => Throws (ErrorObject "fetch failed") |}.

(** A model that always asks for one more search. *)
Definition searching_model : ChatModel :=
  {| invoke := fun _ _ => Returns "I should search the documents" |}.

(** A model that answers with the empty string. *)
Definition mute_model : ChatModel :=
  {| invoke := fun _ _ => Returns EmptyString |}.

(** A model that answers in plain words at once. *)
Definition plain_model : ChatModel :=
  {| invoke := fun _ _ => Returns "Python is a programming language" |}.

Definition python_text : string :=
  "Python is great for readability and libraries.".

Definition python_docs : JsMap := [("doc1", python_text)].

Definition python_agent : ReactRagAgent :=
  new_ReactRagAgent offline_model python_docs.

(** A clock that advances by one at each reading. *)
Definition ticking : Clock := fun k => Z.of_nat k.

(** ** The branches of the loop body, one by one

    The tests of the body and the frames it builds, named so that the
    theorems on whole runs can speak of them.  [body_unfold] shows that the
    body is made of exactly these. *)

(** The reply holds one of the markers of a final answer. *)
Definition hasMarker (content : string) : bool :=
  includes (toLowerCase content) "final answer"
  || includes (toLowerCase content) "answer:".

(** The reply asks for the Retrieval Tool. *)
Definition asksRetrieval (content : string) : bool :=
  includes (toLowerCase content) "retrieve"
  || includes (toLowerCase content) "search".

(** The reply asks for the Analysis Tool. *)
Definition asksAnalysis (content : string) : bool :=
  includes (toLowerCase content) "analyze"
  || includes (toLowerCase content) "extract".

(** The turn that starts in frame [f] and receives [content] ends the run. *)
Definition stops (f : Frame) (content : string) : bool :=
  hasMarker content
  || (maxIterations (self f) <=? S (iterations f))
  || negb (asksRetrieval content || asksAnalysis content).

(** The action step, the observation step and the follow-up message of a
    turn that runs a tool. *)
Definition toolAction (content query : string) : string :=
  if asksRetrieval content
  then "Retrieving documents for: " ++ DQUOTE ++ searchQueryOf content query ++ DQUOTE
  else "Analyzing retrieved documents".

Definition toolResult (this : ReactRagAgent) (content query : string) : string :=
  if asksRetrieval content
  then retrieveDocuments this (searchQueryOf content query)
  else analyzeText this content query.

Definition toolFollowUp (this : ReactRagAgent) (content query : string) : string :=
  if asksRetrieval content
  then "Tool result from document retrieval:" ++ LF ++ toolResult this content query
         ++ LF ++ LF ++ "Continue your analysis."
  else "Tool result from analysis:" ++ LF ++ toolResult this content query
         ++ LF ++ LF ++ "Provide your final answer based on this analysis.".

Definition answerFrame (now : Clock) (f : Frame) (content : string) : Frame :=
  mkFrame
    (addStep now (addStep now (self f) AgentStep.thought content)
             AgentStep.result content)
    (messages f) (S (iterations f)) content (push (invoked f) (messages f)).

Definition toolFrame (now : Clock) (query : string) (f : Frame) (content : string)
  : Frame :=
  mkFrame
    (addStep now
       (addStep now (addStep now (self f) AgentStep.thought content)
                AgentStep.action (toolAction content query))
       AgentStep.observation (toolResult (self f) content query))
    (push (push (messages f) (HumanMessage content))
          (HumanMessage (toolFollowUp (self f) content query)))
    (S (iterations f)) (finalAnswer f) (push (invoked f) (messages f)).

Definition errorFrame (now : Clock) (f : Frame) (e : Thrown) : Frame :=
  mkFrame
    (addStep now (self f) AgentStep.thought
             ("Error during processing: " ++ errorMessage e))
    (messages f) (S (iterations f)) (finalAnswer f)
    (push (invoked f) (messages f)).

(** The kinds of the steps of a run that ran a tool [toolTurns] times and
    then ended, on a reply or on a model call that threw. *)
Definition TOOL_TURN : list AgentStep.kind :=
  [AgentStep.thought; AgentStep.action; AgentStep.observation].

Definition log_kinds (toolTurns : nat) (threw : bool) : list AgentStep.kind :=
  (AgentStep.thought :: List.concat (repeat TOOL_TURN toolTurns)
     ++ (if threw then [AgentStep.thought]
         else [AgentStep.thought; AgentStep.result]))%list.

Definition isHumanMessage (m : BaseMessage) : bool :=
  match m with
  | HumanMessage _ => true
  | SystemMessage _ => false
  end.

(** How a run ends.  Without an answer: no result step is logged, and
    either no call was made or the last call threw.  On a reply: the reply
    of the last call is the answer and the content of the last two steps,
    a thought step and the only result step. *)
Definition unanswered (this : ReactRagAgent) (f : Frame) : Prop :=
  no_result_step (log f)
  /\ finalAnswer f = EmptyString
  /\ (invoked f = []
      \/ exists before msgs e,
          invoked f = (before ++ [msgs])%list
          /\ invoke (model this) (List.length before) msgs = Throws e).

Definition answered (now : Clock) (this : ReactRagAgent) (f : Frame) : Prop :=
  exists earlier content before msgs,
    log f = (earlier
               ++ [AgentStep.mk AgentStep.thought content (now (List.length earlier));
                   AgentStep.mk AgentStep.result content
                                (now (S (List.length earlier)))])%list
    /\ no_result_step earlier
    /\ invoked f = (before ++ [msgs])%list
    /\ invoke (model this) (List.length before) msgs = Returns content
    /\ finalAnswer f = content.

(** The run goes on after call number [k] returned [content]: no marker,
    turns left, and a tool asked for. *)
Definition carries_on (this : ReactRagAgent) (k : nat) (content : string) : Prop :=
  hasMarker content = false
  /\ S (S k) <= maxIterations this
  /\ asksRetrieval content || asksAnalysis content = true.

(** The context a call is sent is the first [2 + 2 * k] messages of the
    conversation [all]. *)
Definition context_of (all : list BaseMessage) (k : nat) (msgs : list BaseMessage)
  : Prop :=
  msgs = firstn (2 + 2 * k) all /\ 2 + 2 * k <= List.length all.

(** The three steps that turn number [k] logs when it runs a tool on the
    reply [content]. *)
Definition tool_turn_logged (now : Clock) (this : ReactRagAgent) (query : string)
           (l : list AgentStep.t) (k : nat) (content : string) : Prop :=
  nth_error l (1 + 3 * k)
  = Some (AgentStep.mk AgentStep.thought content (now (1 + 3 * k)))
  /\ nth_error l (2 + 3 * k)
     = Some (AgentStep.mk AgentStep.action (toolAction content query) (now (2 + 3 * k)))
  /\ nth_error l (3 + 3 * k)
     = Some (AgentStep.mk AgentStep.observation (toolResult this content query)
                          (now (3 + 3 * k))).

(** Every unit of a string satisfies [p]. *)
Fixpoint all_units (p : ascii -> bool) (s : string) : bool :=
  match s with
  | EmptyString => true
  | String c s' => p c && all_units p s'
  end.

(** The 256 code units of the embedding. *)
Definition every_unit : list ascii := map ascii_of_nat (seq 0 256).

(** The sum, over the documents of a map, of the greatest length an excerpt
    and a delimiter can take: the title, 506 units for the brackets, the
    newline, 500 units of content and the three dots, and 7 for the
    delimiter. *)
Definition excerpts_budget (docs : JsMap) : nat :=
  fold_right (fun doc total => String.length (fst doc) + 513 + total) 0 docs.

(** The strings that a pattern matches as a whole, whatever the order in
    which the matcher tries them. *)
Inductive derives (ignoreCase : bool) : regex -> string -> Prop :=
| derives_empty : derives ignoreCase Empty EmptyString
| derives_one (a : atom) (ch : ascii) :
    atom_matches ignoreCase a ch = true ->
    derives ignoreCase (One a) (String ch EmptyString)
| derives_seq (r1 r2 : regex) (w1 w2 : string) :
    derives ignoreCase r1 w1 -> derives ignoreCase r2 w2 ->
    derives ignoreCase (Seq r1 r2) (w1 ++ w2)
| derives_alt_left (r1 r2 : regex) (w : string) :
    derives ignoreCase r1 w -> derives ignoreCase (Alt r1 r2) w
| derives_alt_right (r1 r2 : regex) (w : string) :
    derives ignoreCase r2 w -> derives ignoreCase (Alt r1 r2) w
| derives_opt_none (r : regex) : derives ignoreCase (Opt r) EmptyString
| derives_opt_some (r : regex) (w : string) :
    derives ignoreCase r w -> derives ignoreCase (Opt r) w
| derives_star (greedy : bool) (a : atom) (w : string) :
    all_units (atom_matches ignoreCase a) w = true ->
    derives ignoreCase (Star greedy a) w
| derives_plus (a : atom) (ch : ascii) (w : string) :
    atom_matches ignoreCase a ch = true ->
    all_units (atom_matches ignoreCase a) w = true ->
    derives ignoreCase (Plus a) (String ch w)
| derives_group (r : regex) (w : string) :
    derives ignoreCase r w -> derives ignoreCase (Group r) w.

(** The units that end the captured phrase: the double quote, the
    apostrophe, the full stop and the newline. *)
Definition phraseStop (c : ascii) : bool :=
  Ascii.eqb c "034" || Ascii.eqb c "'" || Ascii.eqb c "." || Ascii.eqb c "010".

(** The longest start of a string made of units that satisfy [ok], and
    what follows it. *)
Fixpoint takeWhile (ok : ascii -> bool) (s : string) : string :=
  match s with
  | String ch rest => if ok ch then String ch (takeWhile ok rest) else EmptyString
  | EmptyString => EmptyString
  end.

Fixpoint dropWhile (ok : ascii -> bool) (s : string) : string :=
  match s with
  | String ch rest => if ok ch then dropWhile ok rest else s
  | EmptyString => EmptyString
  end.

(** ** The agent shared by the requests

    [getRagAgent] hands the same agent to every request, and a run gives
    way to the other requests each time it awaits the model.  What another
    request can do to the agent in the meantime is one of the four writes
    that the class has: a run that starts assigns a new state to
    [this.state], its [addStep] pushes a step onto [this.state.steps] with
    a reading of the clock, a run that ends clears [isProcessing], and
    [updateDocuments] swaps the document map.  [model] and [maxIterations]
    are never written.

    [processQuery] above is the run that nothing overlaps.  The module below
    is the run together with the writes of the others at each of its
    awaits: it reads [this.state] and [this.documents] anew after each
    await and returns [this.state.steps] as it is when the run returns.
    [processQuery_alone] below shows that the two agree when the others
    write nothing. *)

Module Shared.

(** A write of another request. *)
Inductive Write :=
| Starts (query : string)                           (* [this.state = { ... }] *)
| Logs (type : AgentStep.kind) (content : string)   (* [addStep] *)
| Ends                                              (* [isProcessing = false] *)
| UpdatesDocuments (docs : JsMap)                   (* [updateDocuments] *).

(** The shared agent, with the number of readings of the clock made since
    the run began, by whichever request: the next [Date.now()] gives
    [now reads]. *)
Record World := mkWorld { shared : ReactRagAgent; reads : nat }.

Definition addStep (now : Clock) (w : World) (type : AgentStep.kind)
           (content : string) : World :=
  let st := state (shared w) in
  mkWorld
    (set_state (shared w)
       (AgentState.mk
          (push (AgentState.steps st) (AgentStep.mk type content (now (reads w))))
          (AgentState.currentQuery st)
          (AgentState.documents st)
          (AgentState.isProcessing st)))
    (S (reads w)).

Definition write (now : Clock) (w : World) (op : Write) : World :=
  match op with
  | Starts query =>
      mkWorld (set_state (shared w) (AgentState.mk [] query [] true)) (reads w)
  | Logs type content => addStep now w type content
  | Ends =>
      let st := state (shared w) in
      mkWorld
        (set_state (shared w)
           (AgentState.mk (AgentState.steps st) (AgentState.currentQuery st)
                          (AgentState.documents st) false))
        (reads w)
  | UpdatesDocuments docs => mkWorld (updateDocuments (shared w) docs) (reads w)
  end.

(** What happens to the agent while a run awaits: the others write, one
    after the other. *)
Definition await (now : Clock) (others : list Write) (w : World) : World :=
  fold_left (write now) others w.

(** The variables of [processQuery], with the shared agent. *)
Record Frame := mkFrame {
  world : World;
  messages : list BaseMessage;
  iterations : nat;
  finalAnswer : string;
  invoked : list (list BaseMessage)
}.

Inductive Flow :=
| Next (f : Frame)
| Break (f : Frame).

(** The body of the [while] loop.  [others k] are the writes of the other
    requests while call number [k] of the run is awaited. *)
Definition body (now : Clock) (others : nat -> list Write) (query : string)
           (f : Frame) : Flow :=
  let iterations := S (iterations f) in
  let messages := messages f in
  let response :=
    invoke (model (shared (world f))) (List.length (invoked f)) messages in
  let w := await now (others (List.length (invoked f))) (world f) in
  let invoked := push (invoked f) messages in
  match response with
  | Returns content =>
      let w := addStep now w AgentStep.thought content in
      if Js.includes (Js.toLowerCase content) "final answer"
         || Js.includes (Js.toLowerCase content) "answer:"
         || (maxIterations (shared w) <=? iterations)
      then
        let finalAnswer := content in
        let w := addStep now w AgentStep.result finalAnswer in
        Break (mkFrame w messages iterations finalAnswer invoked)
      else if Js.includes (Js.toLowerCase content) "retrieve"
              || Js.includes (Js.toLowerCase content) "search"
      then
        let searchQuery := searchQueryOf content query in
        let w :=
          addStep now w AgentStep.action
            ("Retrieving documents for: " ++ DQUOTE ++ searchQuery ++ DQUOTE) in
        let result := retrieveDocuments (shared w) searchQuery in
        let w := addStep now w AgentStep.observation result in
        let messages := push messages (HumanMessage content) in
        let messages :=
          push messages
            (HumanMessage
               ("Tool result from document retrieval:" ++ LF ++ result
                  ++ LF ++ LF ++ "Continue your analysis.")) in
        Next (mkFrame w messages iterations (finalAnswer f) invoked)
      else if Js.includes (Js.toLowerCase content) "analyze"
              || Js.includes (Js.toLowerCase content) "extract"
      then
        let w := addStep now w AgentStep.action "Analyzing retrieved documents" in
        let result := analyzeText (shared w) content query in
        let w := addStep now w AgentStep.observation result in
        let messages := push messages (HumanMessage content) in
        let messages :=
          push messages
            (HumanMessage
               ("Tool result from analysis:" ++ LF ++ result ++ LF ++ LF
                  ++ "Provide your final answer based on this analysis.")) in
        Next (mkFrame w messages iterations (finalAnswer f) invoked)
      else
        let finalAnswer := content in
        let w := addStep now w AgentStep.result finalAnswer in
        Break (mkFrame w messages iterations finalAnswer invoked)
  | Throws error =>
      let errorMsg := errorMessage error in
      let w :=
        addStep now w AgentStep.thought ("Error during processing: " ++ errorMsg) in
      Break (mkFrame w messages iterations (finalAnswer f) invoked)
  end.

Fixpoint while (fuel : nat) (now : Clock) (others : nat -> list Write)
         (query : string) (f : Frame) : option Frame :=
  match fuel with
  | 0 => None
  | S fuel' =>
      if iterations f <? maxIterations (shared (world f))
      then match body now others query f with
           | Next f' => while fuel' now others query f'
           | Break f' => Some f'
           end
      else Some f
  end.

(** [processQuery] on the shared agent: [{ result, steps }] with the agent
    as it is when the run returns and the calls the run made. *)
Definition processQuery (fuel : nat) (now : Clock) (others : nat -> list Write)
           (this : ReactRagAgent) (query : string) : option Run :=
  let w := mkWorld (set_state this (AgentState.mk [] query [] true)) 0 in
  let w :=
    addStep now w AgentStep.thought
      ("Analyzing query: " ++ DQUOTE ++ query ++ DQUOTE) in
  let messages := [SystemMessage SYSTEM_PROMPT; HumanMessage query] in
  match while fuel now others query (mkFrame w messages 0 EmptyString []) with
  | None => None
  | Some f =>
      let st := state (shared (world f)) in
      let this :=
        set_state (shared (world f))
          (AgentState.mk (AgentState.steps st) (AgentState.currentQuery st)
                         (AgentState.documents st) false) in
      Some (mkRun (or_else (finalAnswer f) FALLBACK)
                  (AgentState.steps (state this))
                  this
                  (invoked f))
  end.

End Shared.

(** Nobody else writes. *)
Definition alone (others : nat -> list Shared.Write) : Prop := forall k, others k = [].

(** The agent alone, with as many readings of the clock as its log has
    steps, and a frame of the run alone as a frame on the shared agent. *)
Definition sync (a : ReactRagAgent) : Shared.World :=
  Shared.mkWorld a (List.length (AgentState.steps (state a))).

Definition lift (f : Frame) : Shared.Frame :=
  Shared.mkFrame (sync (self f)) (messages f) (iterations f) (finalAnswer f) (invoked f).

(** The steps of a log carry readings of the clock taken in the order of
    the log, all of them among the first [n] readings. *)
Definition in_reading_order (now : Clock) (n : nat) (l : list AgentStep.t) : Prop :=
  exists readings,
    map AgentStep.timestamp l = map now readings
    /\ StronglySorted lt readings
    /\ Forall (fun k => k < n) readings.

(** The agent as some writes leave it: the writes of the run itself, which
    are steps logged, and those of the others. *)
Inductive written (now : Clock) (w : Shared.World) : Shared.World -> Prop :=
| written_nothing : written now w w
| written_more (w' : Shared.World) (op : Shared.Write) :
    written now w w' -> written now w (Shared.write now w' op).

(** Another run, on the query "Python", that overlaps the run of an agent
    whose model always asks for a search: it starts while the first call is
    awaited and runs one of its own turns during each later call. *)
Definition overlapping (k : nat) : list Shared.Write :=
  match k with
  | 0 =>
      [Shared.Starts "Python";
       Shared.Logs AgentStep.thought ("Analyzing query: " ++ DQUOTE ++ "Python" ++ DQUOTE)]
  | S _ =>
      [Shared.Logs AgentStep.thought "I should search the documents";
       Shared.Logs AgentStep.action
            (toolAction "I should search the documents" "Python");
       Shared.Logs AgentStep.observation
            (toolResult (new_ReactRagAgent searching_model python_docs)
                        "I should search the documents" "Python")]
  end.

(** ** The router and the database helpers

    The procedures of the [rag] router that use the agent, with the helpers
    of [server/db.ts] they call.  The database is outside the program: a
    handle gives, for each statement the helpers issue, whether it resolves
    and with what. *)

(** [Map.prototype.set] on the entries in insertion order: the value of a
    key that is present is replaced where the key stands, a new key goes to
    the end. *)
Fixpoint Map_set (m : JsMap) (key value : string) : JsMap :=
  match m with
  | [] => [(key, value)]
  | (k, v) :: rest =>
      if String.eqb k key then (k, value) :: rest
      else (k, v) :: Map_set rest key value
  end.

(** [new Map(entries)]: the entries are set one after the other. *)
Definition Map_from (entries : list (string * string)) : JsMap :=
  fold_left (fun m entry => Map_set m (fst entry) (snd entry)) entries [].

(** [Map.prototype.get]; [None] is [undefined]. *)
Fixpoint Map_get (m : JsMap) (key : string) : option string :=
  match m with
  | [] => None
  | (k, v) :: rest => if String.eqb k key then Some v else Map_get rest key
  end.

Module Schema.

Inductive Status := pending | processing | completed | failed.

(** A row of the table [documents] (nullable columns as options; the
    timestamps in seconds). *)
Record Document := mkDocument {
  id : Z;
  userId : Z;
  title : string;
  content : string;
  fileKey : option string;
  fileUrl : option string;
  mimeType : option string;
  status : Status;
  createdAt : Z;
  updatedAt : Z
}.

(** What the router inserts into [documents] and into [ragQueries]: the
    columns it gives; the database fills in the others. *)
Record InsertDocument := mkInsertDocument {
  new_userId : Z;
  new_title : string;
  new_content : string;
  new_mimeType : option string;
  new_status : Status
}.

Record InsertRagQuery := mkInsertRagQuery {
  query_userId : Z;
  query_text : string;
  query_status : Status
}.

End Schema.

(** The drizzle handle: what each statement of the helpers does.  [None]
    stands for a statement that resolves without a value the program
    reads. *)
Record Drizzle := {
  insert_documents : Schema.InsertDocument -> option Thrown;
  select_documents_of_user : Z -> Thrown + list Schema.Document;
  insert_ragQueries : Schema.InsertRagQuery -> option Thrown
}.

Definition DATABASE_NOT_AVAILABLE : Thrown := ErrorObject "Database not available".

(** The helpers, given what [await getDb()] resolves to ([None] for
    [null]). *)
Definition saveDocument (db : option Drizzle) (doc : Schema.InsertDocument)
  : option Thrown :=
  match db with
  | None => Some DATABASE_NOT_AVAILABLE
  | Some handle => insert_documents handle doc
  end.

Definition getUserDocuments (db : option Drizzle) (userId : Z)
  : Thrown + list Schema.Document :=
  match db with
  | None => inl DATABASE_NOT_AVAILABLE
  | Some handle => select_documents_of_user handle userId
  end.

Definition saveRagQuery (db : option Drizzle) (query : Schema.InsertRagQuery)
  : option Thrown :=
  match db with
  | None => Some DATABASE_NOT_AVAILABLE
  | Some handle => insert_ragQueries handle query
  end.

(** What [new ChatGoogleGenerativeAI(...)] does when the agent is built:
    it gives a model client or it throws. *)
Inductive Construction :=
| Constructed (m : ChatModel)
| ConstructionThrows (e : Thrown).

(** [getRagAgent()]: the agent of the module variable [ragAgent], built
    with an empty map when the variable is [null]. *)
Definition getRagAgent (make : Construction) (ragAgent : option ReactRagAgent)
  : Thrown + ReactRagAgent :=
  match ragAgent with
  | Some agent => inr agent
  | None =>
      match make with
      | Constructed m => inr (new_ReactRagAgent m [])
      | ConstructionThrows e => inl e
      end
  end.

(** How a procedure settles. *)
Inductive Reply (A : Type) :=
| Resolves (a : A)
| Rejects (e : Thrown).
Arguments Resolves {A} a.
Arguments Rejects {A} e.

(** [new Map(documents.map((d) => [d.title, d.content]))]. *)
Definition docMapOf (rows : list Schema.Document) : JsMap :=
  Map_from (map (fun d => (Schema.title d, Schema.content d)) rows).

Module Rag.

Record UploadInput := mkUploadInput {
  title : string;
  content : string;
  mimeType : option string
}.

(** The response of [processQuery]: [{ success: true, result, steps }] or
    [{ success: false, error }]. *)
Inductive QueryResponse :=
| Success (result : string) (steps : list AgentStep.t)
| Failure (error : string).

(** [rag.uploadDocument]: the reply, and the module variable [ragAgent]
    afterwards. *)
Definition uploadDocument (make : Construction) (db : option Drizzle)
           (ragAgent : option ReactRagAgent) (userId : Z) (input : UploadInput)
  : Reply unit * option ReactRagAgent :=
  match saveDocument db
          (Schema.mkInsertDocument userId (title input) (content input)
                                   (mimeType input) Schema.completed) with
  | Some e => (Rejects e, ragAgent)
  | None =>
      match getUserDocuments db userId with
      | inl e => (Rejects e, ragAgent)
      | inr documents =>
          let docMap := docMapOf documents in
          match getRagAgent make ragAgent with
          | inl e => (Rejects e, ragAgent)
          | inr agent' => (Resolves tt, Some (updateDocuments agent' docMap))
          end
      end
  end.

(** [rag.streamQuery]: [{ steps, result }]; nothing is caught. *)
Definition streamQuery (fuel : nat) (now : Clock) (make : Construction)
           (db : option Drizzle) (ragAgent : option ReactRagAgent)
           (userId : Z) (query : string)
  : option (Reply (list AgentStep.t * string) * option ReactRagAgent) :=
  match saveRagQuery db (Schema.mkInsertRagQuery userId query Schema.processing) with
  | Some e => Some (Rejects e, ragAgent)
  | None =>
      match getRagAgent make ragAgent with
      | inl e => Some (Rejects e, ragAgent)
      | inr agent' =>
          match processQuery fuel now agent' query with
          | None => None
          | Some r => Some (Resolves (steps r, result r), Some (agent r))
          end
      end
  end.

(** [rag.processQuery]: what the agent throws is caught and reported. *)
Definition processQuery (fuel : nat) (now : Clock) (make : Construction)
           (db : option Drizzle) (ragAgent : option ReactRagAgent)
           (userId : Z) (query : string)
  : option (Reply QueryResponse * option ReactRagAgent) :=
  match saveRagQuery db (Schema.mkInsertRagQuery userId query Schema.processing) with
  | Some e => Some (Rejects e, ragAgent)
  | None =>
      match getRagAgent make ragAgent with
      | inl e => Some (Resolves (Failure (errorMessage e)), ragAgent)
      | inr agent' =>
          match processQuery fuel now agent' query with
          | None => None
          | Some r => Some (Resolves (Success (result r) (steps r)), Some (agent r))
          end
      end
  end.

End Rag.

(** ** [upsertUser] *)

Module Users.

Inductive Role := user | admin.

(** A column the caller may leave out ([undefined]), give as [null], or
    give a value for. *)
Inductive Column (A : Type) :=
| Undefined
| Null
| Given (a : A).
Arguments Undefined {A}.
Arguments Null {A}.
Arguments Given {A} a.

(** [InsertUser], the insert type of the table [users]; dates in
    milliseconds. *)
Record InsertUser := mkInsertUser {
  id : option Z;
  openId : string;
  name : Column string;
  email : Column string;
  loginMethod : Column string;
  role : option Role;
  createdAt : option Z;
  updatedAt : option Z;
  lastSignedIn : option Z
}.

(** The values that [updateSet] holds. *)
Inductive Value :=
| VText (s : option string)   (* a string, or null *)
| VDate (t : Z)
| VRole (r : Role).

(** [updateSet], a [Record<string, unknown>], by its keys in insertion
    order. *)
Definition UpdateSet := list (string * Value).

(** [object[key] = value]. *)
Fixpoint Object_set (object : UpdateSet) (key : string) (value : Value) : UpdateSet :=
  match object with
  | [] => [(key, value)]
  | (k, v) :: rest =>
      if String.eqb k key then (k, value) :: rest
      else (k, v) :: Object_set rest key value
  end.

Fixpoint Object_get (object : UpdateSet) (key : string) : option Value :=
  match object with
  | [] => None
  | (k, v) :: rest => if String.eqb k key then Some v else Object_get rest key
  end.

Inductive TextField := field_name | field_email | field_loginMethod.

Definition textFields : list TextField := [field_name; field_email; field_loginMethod].

Definition key_of (field : TextField) : string :=
  match field with
  | field_name => "name"
  | field_email => "email"
  | field_loginMethod => "loginMethod"
  end.

(** [user[field]] and [values[field] = normalized]. *)
Definition read (u : InsertUser) (field : TextField) : Column string :=
  match field with
  | field_name => name u
  | field_email => email u
  | field_loginMethod => loginMethod u
  end.

Definition write (values : InsertUser) (field : TextField) (v : Column string)
  : InsertUser :=
  match field with
  | field_name =>
      mkInsertUser (id values) (openId values) v (email values) (loginMethod values)
                   (role values) (createdAt values) (updatedAt values)
                   (lastSignedIn values)
  | field_email =>
      mkInsertUser (id values) (openId values) (name values) v (loginMethod values)
                   (role values) (createdAt values) (updatedAt values)
                   (lastSignedIn values)
  | field_loginMethod =>
      mkInsertUser (id values) (openId values) (name values) (email values) v
                   (role values) (createdAt values) (updatedAt values)
                   (lastSignedIn values)
  end.

Definition with_role (values : InsertUser) (r : Role) : InsertUser :=
  mkInsertUser (id values) (openId values) (name values) (email values)
               (loginMethod values) (Some r) (createdAt values) (updatedAt values)
               (lastSignedIn values).

Definition with_lastSignedIn (values : InsertUser) (t : Z) : InsertUser :=
  mkInsertUser (id values) (openId values) (name values) (email values)
               (loginMethod values) (role values) (createdAt values) (updatedAt values)
               (Some t).

(** [assignNullable]: a column left out is skipped; [value ?? null] is the
    value itself once [undefined] is excluded. *)
Definition assignNullable (u : InsertUser) (acc : InsertUser * UpdateSet)
           (field : TextField) : InsertUser * UpdateSet :=
  match read u field with
  | Undefined => acc
  | Null =>
      (write (fst acc) field Null, Object_set (snd acc) (key_of field) (VText None))
  | Given s =>
      (write (fst acc) field (Given s),
       Object_set (snd acc) (key_of field) (VText (Some s)))
  end.

(** The statement that [upsertUser] builds:
    [insert(users).values(values).onConflictDoUpdate({ target: openId, set:
    updateSet })].  [now k] is the reading number [k] of [new Date()]. *)
Definition statement (ownerOpenId : string) (now : nat -> Z) (u : InsertUser)
  : InsertUser * UpdateSet :=
  let values : InsertUser :=
    mkInsertUser None (openId u) Undefined Undefined Undefined None None None None in
  let updateSet : UpdateSet := [] in
  let '(values, updateSet) :=
    fold_left (assignNullable u) textFields (values, updateSet) in
  let '(values, updateSet) :=
    match lastSignedIn u with
    | Some t => (with_lastSignedIn values t, Object_set updateSet "lastSignedIn" (VDate t))
    | None => (values, updateSet)
    end in
  let '(values, updateSet) :=
    match role u with
    | Some r => (with_role values r, Object_set updateSet "role" (VRole r))
    | None =>
        if String.eqb (openId u) ownerOpenId
        then (with_role values admin, Object_set updateSet "role" (VRole admin))
        else (values, updateSet)
    end in
  let '(values, reads) :=
    match lastSignedIn values with
    | None => (with_lastSignedIn values (now 0), 1)
    | Some _ => (values, 0)
    end in
  let updateSet :=
    if List.length updateSet =? 0
    then Object_set updateSet "lastSignedIn" (VDate (now reads))
    else updateSet in
  (values, updateSet).

(** How [upsertUser] ends, and the statement it issued, if any. *)
Inductive Outcome :=
| Returned (issued : option (InsertUser * UpdateSet))
| Threw (e : Thrown) (issued : option (InsertUser * UpdateSet)).

(** [upsertUser], given what [await getDb()] resolves to: [None] for
    [null], else what the database does with the statement ([None] when it
    resolves).  An error of the database is logged and thrown again. *)
Definition upsertUser (ownerOpenId : string) (now : nat -> Z)
           (db : option (InsertUser * UpdateSet -> option Thrown)) (u : InsertUser)
  : Outcome :=
  if negb (truthy (openId u))
  then Threw (ErrorObject "User openId is required for upsert") None
  else
    match db with
    | None => Returned None
    | Some run =>
        let upsert := statement ownerOpenId now u in
        match run upsert with
        | None => Returned (Some upsert)
        | Some error => Threw error (Some upsert)
        end
    end.

Definition issued (o : Outcome) : option (InsertUser * UpdateSet) :=
  match o with
  | Returned statement => statement
  | Threw _ statement => statement
  end.

(** What a column given by the caller becomes in [updateSet]. *)
Definition to_update (c : Column string) : option Value :=
  match c with
  | Undefined => None
  | Null => Some (VText None)
  | Given s => Some (VText (Some s))
  end.

End Users.

(** ** Facts about the primitives *)

Section Primitives.

Lemma isWhiteSpace_lower_unit (c : ascii) :
  isWhiteSpace (lower_unit c) = isWhiteSpace c.
Proof. destruct c as [[] [] [] [] [] [] [] []]; reflexivity. Qed.

Lemma toLowerCase_length (s : string) :
  String.length (toLowerCase s) = String.length s.
Proof. induction s; simpl; congruence. Qed.

Lemma toLowerCase_app (s t : string) :
  toLowerCase (s ++ t) = toLowerCase s ++ toLowerCase t.
Proof. induction s; simpl; congruence. Qed.

Lemma prefix_empty (s : string) : prefix EmptyString s = true.
Proof. destruct s; reflexivity. Qed.

Lemma includes_empty (s : string) : includes s EmptyString = true.
Proof. destruct s; reflexivity. Qed.

Lemma every_unit_complete (c : ascii) : In c every_unit.
Proof.
  rewrite <- (ascii_nat_embedding c). apply in_map, in_seq.
  pose proof (nat_ascii_bounded c). lia.
Qed.

(** Two units are the same up to case exactly when [lower_unit] sends them
    to one unit: checked on the 256 * 256 pairs of units. *)
Lemma same_ignoring_case_lower (a b : ascii) :
  Spec.same_ignoring_case a b = Ascii.eqb (lower_unit a) (lower_unit b).
Proof.
  assert (all : forallb
                  (fun a =>
                     forallb
                       (fun b =>
                          Bool.eqb (Spec.same_ignoring_case a b)
                                   (Ascii.eqb (lower_unit a) (lower_unit b)))
                       every_unit)
                  every_unit = true)
    by (vm_compute; reflexivity).
  rewrite forallb_forall in all. specialize (all a (every_unit_complete a)).
  rewrite forallb_forall in all. specialize (all b (every_unit_complete b)).
  now apply Bool.eqb_prop.
Qed.

Lemma equal_ignoring_case_lower (s t : string) :
  Spec.equal_ignoring_case s t = true <-> toLowerCase s = toLowerCase t.
Proof.
  revert t; induction s as [|a s IH]; intros [|b t]; simpl;
    try (split; [reflexivity || discriminate | reflexivity || discriminate]).
  rewrite andb_true_iff, same_ignoring_case_lower, Ascii.eqb_eq, IH.
  split; [intros [-> ->]; reflexivity | intros same; injection same; auto].
Qed.

(** The program lowers both strings and compares; the specification
    compares unit by unit up to case. *)
Lemma prefix_toLowerCase (w s : string) :
  prefix (toLowerCase w) (toLowerCase s) = Spec.starts_with_ignoring_case w s.
Proof.
  revert s; induction w as [|a w IH]; intros [|b s]; simpl; trivial.
  rewrite same_ignoring_case_lower.
  destruct (ascii_dec (lower_unit a) (lower_unit b)) as [e|ne].
  - rewrite e, Ascii.eqb_refl. apply IH.
  - destruct (Ascii.eqb_spec (lower_unit a) (lower_unit b)); [contradiction | reflexivity].
Qed.

Lemma includes_toLowerCase (s w : string) :
  includes (toLowerCase s) (toLowerCase w) = Spec.contains_ignoring_case s w.
Proof.
  induction s as [|b s IH].
  - simpl. rewrite orb_false_r, orb_false_r.
    apply (prefix_toLowerCase w EmptyString).
  - cbn [toLowerCase includes Spec.contains_ignoring_case].
    rewrite IH. f_equal. apply (prefix_toLowerCase w (String b s)).
Qed.

Lemma contains_ignoring_case_empty (s : string) :
  Spec.contains_ignoring_case s EmptyString = true.
Proof. destruct s; reflexivity. Qed.

Lemma join_cons (sep x : string) (l : list string) :
  l <> [] -> join sep (x :: l) = x ++ sep ++ join sep l.
Proof. destruct l; [congruence | reflexivity]. Qed.

(** [substring(0, n)] keeps the first [n] units, or all of them when
    there are fewer. *)
Lemma substring0_firstn (n : nat) (s : string) :
  list_ascii_of_string (substring0 n s) = firstn n (list_ascii_of_string s).
Proof.
  unfold substring0. revert s; induction n as [|n IH]; intros [|c s]; simpl; trivial.
  f_equal. apply IH.
Qed.

Lemma existsb_pointwise {A} (f g : A -> bool) (l : list A) :
  (forall x, f x = g x) -> existsb f l = existsb g l.
Proof.
  intros same. induction l as [|x l IH]; simpl; trivial. now rewrite same, IH.
Qed.

Lemma existsb_through_map {X Y} (lower : X -> Y) (test : Y -> bool) (words : list X) :
  existsb (fun w => test (lower w)) words = existsb test (map lower words).
Proof. induction words as [|w words IH]; simpl; congruence. Qed.

End Primitives.

(** ** The two alphabets

    On strings of code units 0..255 the primitives and the tools of the
    module [Wide] are those of the embedding. *)

Section Alphabets.

Lemma of_string_cons (c : ascii) (s : string) :
  Wide.of_string (String c s) = N_of_ascii c :: Wide.of_string s.
Proof. reflexivity. Qed.

Lemma of_string_app (s t : string) :
  Wide.of_string (s ++ t) = (Wide.of_string s ++ Wide.of_string t)%list.
Proof. induction s as [|c s IH]; simpl; trivial. rewrite !of_string_cons. now rewrite IH. Qed.

Lemma of_string_injective (s t : string) :
  Wide.of_string s = Wide.of_string t -> s = t.
Proof.
  revert t; induction s as [|a s IH]; intros [|b t]; trivial; try discriminate.
  rewrite !of_string_cons. intros same. injection same as head tail.
  rewrite <- (ascii_N_embedding a), <- (ascii_N_embedding b), head.
  now rewrite (IH t tail).
Qed.

Lemma unit_below_256 (c : ascii) : (N_of_ascii c <? 256)%N = true.
Proof. destruct c as [[] [] [] [] [] [] [] []]; reflexivity. Qed.

Lemma of_string_in_alphabet (s : string) : Wide.in_alphabet (Wide.of_string s) = true.
Proof.
  induction s as [|c s IH]; trivial.
  rewrite of_string_cons.
  change (Wide.known (N_of_ascii c) && Wide.in_alphabet (Wide.of_string s) = true).
  unfold Wide.known. now rewrite unit_below_256, IH.
Qed.

Lemma lower_unit_narrow (c : ascii) :
  Wide.lower_unit (N_of_ascii c) = N_of_ascii (lower_unit c).
Proof. destruct c as [[] [] [] [] [] [] [] []]; reflexivity. Qed.

Lemma no_sigma_below_256 (c : ascii) : (N_of_ascii c =? Wide.CAPITAL_SIGMA)%N = false.
Proof. destruct c as [[] [] [] [] [] [] [] []]; reflexivity. Qed.

Lemma lower_from_narrow (before : Wide.Str) (s : string) :
  Wide.lower_from before (Wide.of_string s) = Wide.of_string (toLowerCase s).
Proof.
  revert before; induction s as [|c s IH]; intros before; trivial.
  cbn [toLowerCase]. rewrite !of_string_cons. cbn [Wide.lower_from].
  now rewrite no_sigma_below_256, lower_unit_narrow, IH.
Qed.

Lemma toLowerCase_narrow (s : string) :
  Wide.toLowerCase (Wide.of_string s) = Wide.of_string (toLowerCase s).
Proof. apply lower_from_narrow. Qed.

Lemma unit_eqb_narrow (a b : ascii) : (N_of_ascii a =? N_of_ascii b)%N = Ascii.eqb a b.
Proof.
  destruct (Ascii.eqb_spec a b) as [->|other].
  - apply N.eqb_refl.
  - apply N.eqb_neq. intros same. apply other.
    now rewrite <- (ascii_N_embedding a), <- (ascii_N_embedding b), same.
Qed.

Lemma startsWith_narrow (w s : string) :
  Wide.startsWith (Wide.of_string w) (Wide.of_string s) = prefix w s.
Proof.
  revert s; induction w as [|a w IH]; intros [|b s]; trivial.
  rewrite !of_string_cons. cbn [Wide.startsWith prefix].
  rewrite unit_eqb_narrow, IH.
  destruct (ascii_dec a b) as [->|other].
  - now rewrite Ascii.eqb_refl.
  - now destruct (Ascii.eqb_spec a b).
Qed.

Lemma includes_narrow (s w : string) :
  Wide.includes (Wide.of_string s) (Wide.of_string w) = includes s w.
Proof.
  induction s as [|b s IH].
  - cbn [Wide.includes includes Wide.of_string list_ascii_of_string map].
    now rewrite <- (startsWith_narrow w EmptyString).
  - rewrite of_string_cons. cbn [Wide.includes includes].
    now rewrite IH, <- of_string_cons, startsWith_narrow.
Qed.

Lemma substring0_narrow (n : nat) (s : string) :
  Wide.substring0 n (Wide.of_string s) = Wide.of_string (substring0 n s).
Proof.
  unfold Wide.substring0, Wide.of_string.
  now rewrite substring0_firstn, firstn_map.
Qed.

Lemma join_narrow (sep : string) (l : list string) :
  Wide.join (Wide.of_string sep) (map Wide.of_string l) = Wide.of_string (join sep l).
Proof.
  induction l as [|x l IH]; trivial.
  destruct l as [|y l]; trivial.
  cbn [map Wide.join join] in *. now rewrite IH, !of_string_app.
Qed.

Lemma excerpt_narrow (title content : string) :
  Wide.excerpt (Wide.of_string title) (Wide.of_string content)
  = Wide.of_string (excerpt title content).
Proof.
  unfold Wide.excerpt, excerpt. rewrite substring0_narrow, !of_string_app.
  now rewrite <- !app_assoc.
Qed.

(** The same document map, as strings of code units. *)
Lemma retrieveDocuments_narrow (this : ReactRagAgent) (phrase : string) :
  Wide.retrieveDocuments
    (map (fun doc => (Wide.of_string (fst doc), Wide.of_string (snd doc)))
         (documents this))
    (Wide.of_string phrase)
  = Wide.of_string (retrieveDocuments this phrase).
Proof.
  unfold Wide.retrieveDocuments, retrieveDocuments.
  rewrite (toLowerCase_narrow phrase).
  assert (loop : forall docs acc,
             fold_left
               (fun (results : list Wide.Str) (entry : Wide.Str * Wide.Str) =>
                  let (title, content) := entry in
                  if Wide.includes (Wide.toLowerCase title)
                                   (Wide.of_string (toLowerCase phrase))
                     || Wide.includes (Wide.toLowerCase content)
                                      (Wide.of_string (toLowerCase phrase))
                  then push results (Wide.excerpt title content)
                  else results)
               (map (fun doc => (Wide.of_string (fst doc), Wide.of_string (snd doc))) docs)
               (map Wide.of_string acc)
             = map Wide.of_string
                   (fold_left
                      (fun (results : list string) (entry : string * string) =>
                         let (title, content) := entry in
                         if includes (toLowerCase title) (toLowerCase phrase)
                            || includes (toLowerCase content) (toLowerCase phrase)
                         then push results (excerpt title content)
                         else results)
                      docs acc)).
  { induction docs as [|[title content] docs IH]; intros acc; trivial.
    cbn [map fold_left fst snd]. rewrite !toLowerCase_narrow, !includes_narrow.
    destruct (includes (toLowerCase title) (toLowerCase phrase)
              || includes (toLowerCase content) (toLowerCase phrase)); [|apply IH].
    rewrite <- IH. f_equal. unfold push. now rewrite map_app, excerpt_narrow. }
  specialize (loop (documents this) []). cbn [map] in loop.
  rewrite loop, length_map, join_narrow.
  now destruct (0 <? List.length _).
Qed.

(** On any strings of code units the tool is a filter on the program's
    test, whatever [toLowerCase] makes of the strings. *)
Lemma retrieveDocuments_wide (docs : list (Wide.Str * Wide.Str)) (phrase : Wide.Str) :
  Wide.retrieveDocuments docs phrase
  = match filter
            (fun doc =>
               Wide.includes (Wide.toLowerCase (fst doc)) (Wide.toLowerCase phrase)
               || Wide.includes (Wide.toLowerCase (snd doc)) (Wide.toLowerCase phrase))
            docs with
    | [] => Wide.of_string NO_DOCUMENTS
    | hits =>
        Wide.join (Wide.of_string DELIMITER)
                  (map (fun doc => Wide.excerpt (fst doc) (snd doc)) hits)
    end.
Proof.
  unfold Wide.retrieveDocuments.
  set (passes := fun doc : Wide.Str * Wide.Str =>
                   Wide.includes (Wide.toLowerCase (fst doc)) (Wide.toLowerCase phrase)
                   || Wide.includes (Wide.toLowerCase (snd doc)) (Wide.toLowerCase phrase)).
  assert (loop : forall l acc,
             fold_left
               (fun (results : list Wide.Str) (entry : Wide.Str * Wide.Str) =>
                  let (title, content) := entry in
                  if Wide.includes (Wide.toLowerCase title) (Wide.toLowerCase phrase)
                     || Wide.includes (Wide.toLowerCase content) (Wide.toLowerCase phrase)
                  then push results (Wide.excerpt title content)
                  else results)
               l acc
             = (acc ++ map (fun doc => Wide.excerpt (fst doc) (snd doc))
                           (filter passes l))%list).
  { induction l as [|[title content] l IH]; intros acc; cbn [fold_left filter map].
    - now rewrite app_nil_r.
    - rewrite IH. unfold passes at 2. cbn [fst snd].
      destruct (Wide.includes (Wide.toLowerCase title) (Wide.toLowerCase phrase)
                || Wide.includes (Wide.toLowerCase content) (Wide.toLowerCase phrase));
        trivial.
      unfold push. now rewrite <- app_assoc. }
  rewrite loop. cbn [app].
  destruct (filter passes docs); reflexivity.
Qed.

Lemma isWhiteSpace_narrow (c : ascii) :
  Wide.isWhiteSpace (N_of_ascii c) = isWhiteSpace c.
Proof. destruct c as [[] [] [] [] [] [] [] []]; reflexivity. Qed.

Lemma sentence_end_narrow (c : ascii) :
  Wide.sentence_end (N_of_ascii c) = sentence_end c.
Proof. destruct c as [[] [] [] [] [] [] [] []]; reflexivity. Qed.

Lemma truthy_narrow (s : string) : Wide.truthy (Wide.of_string s) = truthy s.
Proof. now destruct s. Qed.

Lemma trimStart_narrow (s : string) :
  Wide.trimStart (Wide.of_string s) = Wide.of_string (trimStart s).
Proof.
  induction s as [|c s IH]; trivial.
  rewrite of_string_cons. cbn [Wide.trimStart trimStart].
  rewrite isWhiteSpace_narrow. now destruct (isWhiteSpace c).
Qed.

Lemma trimEnd_narrow (s : string) :
  Wide.trimEnd (Wide.of_string s) = Wide.of_string (trimEnd s).
Proof.
  induction s as [|c s IH]; trivial.
  rewrite of_string_cons. cbn [Wide.trimEnd trimEnd].
  rewrite IH, isWhiteSpace_narrow.
  destruct (trimEnd s); [now destruct (isWhiteSpace c) | reflexivity].
Qed.

Lemma trim_narrow (s : string) : Wide.trim (Wide.of_string s) = Wide.of_string (trim s).
Proof. unfold Wide.trim, trim. now rewrite trimStart_narrow, trimEnd_narrow. Qed.

Lemma splitRuns_narrow (inRun : bool) (s : string) :
  Wide.splitRuns Wide.sentence_end inRun (Wide.of_string s)
  = map Wide.of_string (splitRuns sentence_end inRun s).
Proof.
  revert inRun; induction s as [|c s IH]; intros inRun; trivial.
  rewrite of_string_cons. cbn [Wide.splitRuns splitRuns].
  rewrite sentence_end_narrow, !IH.
  destruct (sentence_end c); [now destruct inRun|].
  now destruct (splitRuns sentence_end false s).
Qed.

Lemma splitUnit_narrow (s : string) :
  Wide.splitUnit 32%N (Wide.of_string s) = map Wide.of_string (splitUnit " " s).
Proof.
  induction s as [|c s IH]; trivial.
  rewrite of_string_cons. cbn [Wide.splitUnit splitUnit].
  rewrite (unit_eqb_narrow c " " : (N_of_ascii c =? 32)%N = Ascii.eqb c " "), IH.
  destruct (Ascii.eqb c " "); trivial.
  now destruct (splitUnit " " s).
Qed.

Lemma filter_through_map {X Y} (g : X -> Y) (keep : Y -> bool) (l : list X) :
  filter keep (map g l) = map g (filter (fun x => keep (g x)) l).
Proof.
  induction l as [|x l IH]; simpl; trivial.
  destruct (keep (g x)); simpl; now rewrite IH.
Qed.

Lemma analyzeText_narrow (this : ReactRagAgent) (text query : string) :
  Wide.analyzeText (Wide.of_string text) (Wide.of_string query)
  = Wide.of_string (analyzeText this text query).
Proof.
  unfold Wide.analyzeText, analyzeText, slice0.
  rewrite splitRuns_narrow, splitUnit_narrow, !filter_through_map.
  rewrite length_map, firstn_map, join_narrow.
  assert (same : forall l : list string,
             filter
               (fun x => existsb
                           (fun word => Wide.includes (Wide.toLowerCase (Wide.of_string x))
                                                      (Wide.toLowerCase word))
                           (map Wide.of_string (splitUnit " " query)))
               (filter (fun x => Wide.truthy (Wide.trim (Wide.of_string x))) l)
             = filter
                 (fun s => existsb (fun word => includes (toLowerCase s) (toLowerCase word))
                                   (splitUnit " " query))
                 (filter (fun s => truthy (trim s)) l)).
  { intros l. rewrite (filter_ext (fun x => Wide.truthy (Wide.trim (Wide.of_string x)))
                                  (fun s => truthy (trim s))).
    2:{ intros s. now rewrite trim_narrow, truthy_narrow. }
    apply filter_ext. intros s. rewrite <- existsb_through_map.
    apply existsb_pointwise. intros w.
    now rewrite !toLowerCase_narrow, includes_narrow. }
  rewrite same.
  destruct (0 <? List.length _); [|reflexivity].
  now rewrite of_string_app.
Qed.

End Alphabets.

(** ** The search pattern always captures *)

Section Captures.

Variable ignoreCase : bool.
Variable P : State -> Prop.

Lemma first_success_cases (a b : MatchResult) (z : State) :
  first_success a b = Some z -> a = Some z \/ b = Some z.
Proof. destruct a; simpl; auto. Qed.

Lemma greedy_star_yields (ok : ascii -> bool) (k : Continuation)
      (cap : option string) (s : string) (z : State) :
  yields P k -> greedy_star ok k cap s = Some z -> P z.
Proof.
  intros good. induction s as [|ch rest IH]; simpl.
  - apply good.
  - destruct (ok ch); [|apply good].
    intros found. apply first_success_cases in found as [longer|here]; eauto.
Qed.

Lemma lazy_star_yields (ok : ascii -> bool) (k : Continuation)
      (cap : option string) (s : string) (z : State) :
  yields P k -> lazy_star ok k cap s = Some z -> P z.
Proof.
  intros good. induction s as [|ch rest IH]; simpl; intros found;
    apply first_success_cases in found as [here|longer]; eauto; try discriminate.
  destruct (ok ch); [auto | discriminate].
Qed.

Lemma matcher_yields (r : regex) :
  forall (x : State) (k : Continuation) (z : State),
    yields P k -> matcher ignoreCase r x k = Some z -> P z.
Proof.
  induction r as [|a|r1 IH1 r2 IH2|r1 IH1 r2 IH2|r1 IH1|greedy a|a|r1 IH1];
    intros x k z good; simpl.
  - apply good.
  - destruct (fst x) as [|ch rest]; [discriminate|].
    destruct (atom_matches ignoreCase a ch); [apply good | discriminate].
  - apply IH1. intros y z'. now apply IH2.
  - intros found. apply first_success_cases in found as [left|right]; eauto.
  - intros found. apply first_success_cases in found as [taken|skipped]; eauto.
  - destruct greedy; [now apply greedy_star_yields | now apply lazy_star_yields].
  - destruct (fst x) as [|ch rest]; [discriminate|].
    destruct (atom_matches ignoreCase a ch); [|discriminate].
    now apply greedy_star_yields.
  - apply IH1. intros y z'. apply good.
Qed.

(** In a sequence it is enough to look at what follows the first part, and
    in the group at the continuation once the capture is set. *)
Lemma seq_yields (r1 r2 : regex) (x : State) (k : Continuation) (z : State) :
  (forall y z', matcher ignoreCase r2 y k = Some z' -> P z') ->
  matcher ignoreCase (Seq r1 r2) x k = Some z -> P z.
Proof. intros tail. cbn [matcher]. apply matcher_yields. exact tail. Qed.

Lemma group_yields (r : regex) (x : State) (k : Continuation) (z : State) :
  (forall rest group1 z', k (rest, Some group1) = Some z' -> P z') ->
  matcher ignoreCase (Group r) x k = Some z -> P z.
Proof.
  intros after. cbn [matcher]. apply matcher_yields.
  intros y z'. apply after.
Qed.

Lemma exec_yields (r : regex) (s : string) (z : State) :
  (forall x, matcher ignoreCase r x Some = Some z -> P z) ->
  exec ignoreCase r s = Some z -> P z.
Proof.
  intros good. induction s as [|ch rest IH]; simpl; intros found;
    apply first_success_cases in found as [here|later]; eauto; discriminate.
Qed.

End Captures.

(** Group 1 of the search pattern has a capture in every match. *)
Lemma SEARCH_PATTERN_captures (content : string) (z : State) :
  exec true SEARCH_PATTERN content = Some z -> snd z <> None.
Proof.
  apply (exec_yields true (fun z => snd z <> None)).
  intros x. unfold SEARCH_PATTERN.
  do 5 (apply (seq_yields true (fun z => snd z <> None)); intros ? ?).
  apply (group_yields true (fun z => snd z <> None)).
  intros rest group1 final found. injection found as <-. discriminate.
Qed.

(** The search phrase is the capture when the pattern matches and the query
    when it does not. *)
Lemma searchQueryOf_cases (content query : string) :
  (exec true SEARCH_PATTERN content = None /\ searchQueryOf content query = query)
  \/ exists rest group1,
      exec true SEARCH_PATTERN content = Some (rest, Some group1)
      /\ searchQueryOf content query = group1.
Proof.
  unfold searchQueryOf.
  destruct (exec true SEARCH_PATTERN content) as [[rest [group1|]]|] eqn:found; eauto.
  now apply SEARCH_PATTERN_captures in found.
Qed.

(** ** Containment up to case, in words *)

Lemma toLowerCase_cons_inv (mid : string) (a : ascii) (w : string) :
  toLowerCase mid = String a w ->
  exists b mid', mid = String b mid' /\ lower_unit b = a /\ toLowerCase mid' = w.
Proof.
  destruct mid as [|b mid']; simpl; [discriminate|].
  intros same. injection same as head tail. eauto.
Qed.

Lemma starts_with_ignoring_case_iff (w s : string) :
  Spec.starts_with_ignoring_case w s = true
  <-> exists mid post, s = mid ++ post /\ toLowerCase mid = toLowerCase w.
Proof.
  revert s; induction w as [|a w IH]; intros s.
  - split; [|destruct s; reflexivity].
    intros _. exists EmptyString, s. split; reflexivity.
  - destruct s as [|b s]; simpl.
    + split; [discriminate|].
      intros (mid & post & shape & same).
      apply toLowerCase_cons_inv in same as (c & mid' & -> & _ & _). discriminate.
    + rewrite andb_true_iff, IH, same_ignoring_case_lower.
      rewrite Ascii.eqb_eq. split.
      * intros (head & mid & post & -> & same).
        exists (String b mid), post. simpl. split; congruence.
      * intros (mid & post & shape & same).
        apply toLowerCase_cons_inv in same as (c & mid' & -> & head & tail).
        simpl in shape. injection shape as -> ->.
        split; [congruence|]. eauto.
Qed.

(** [Spec.contains_ignoring_case s w] says that some part of [s] is [w] up
    to the case of its letters. *)
Lemma contains_ignoring_case_iff (s w : string) :
  Spec.contains_ignoring_case s w = true
  <-> exists pre mid post,
      s = pre ++ mid ++ post /\ toLowerCase mid = toLowerCase w.
Proof.
  induction s as [|b s IH]; cbn [Spec.contains_ignoring_case].
  - rewrite orb_false_r, starts_with_ignoring_case_iff. split.
    + intros (mid & post & shape & same). exists EmptyString, mid, post. auto.
    + intros (pre & mid & post & shape & same).
      destruct pre; [simpl in shape; eauto | discriminate].
  - rewrite orb_true_iff, starts_with_ignoring_case_iff, IH. split.
    + intros [(mid & post & shape & same)|(pre & mid & post & shape & same)].
      * exists EmptyString, mid, post. auto.
      * exists (String b pre), mid, post. simpl. split; congruence.
    + intros (pre & mid & post & shape & same).
      destruct pre as [|c pre]; simpl in shape.
      * left. eauto.
      * right. injection shape as _ shape. eauto.
Qed.

(** The same with the parts compared unit by unit. *)
Lemma contains_ignoring_case_parts (s w : string) :
  Spec.contains_ignoring_case s w = true
  <-> exists pre mid post,
      s = pre ++ mid ++ post /\ Spec.equal_ignoring_case mid w = true.
Proof.
  rewrite contains_ignoring_case_iff.
  split; intros (pre & mid & post & shape & same); exists pre, mid, post;
    (split; [exact shape | now apply equal_ignoring_case_lower]).
Qed.

(** ** The Retrieval Tool *)

Section Retrieval.

Variable self : ReactRagAgent.

(** The loop of [retrieveDocuments] started with some results already
    pushed. *)
Lemma retrieve_loop (phrase : string) (docs : JsMap) (acc : list string) :
  fold_left
    (fun (results : list string) (entry : string * string) =>
       let (title, content) := entry in
       if includes (toLowerCase title) (toLowerCase phrase)
          || includes (toLowerCase content) (toLowerCase phrase)
       then push results (excerpt title content)
       else results)
    docs acc
  = (acc ++ map Spec.excerpt_of (filter (Spec.matching phrase) docs))%list.
Proof.
  revert acc; induction docs as [|[title content] docs IH]; intros acc; simpl.
  - now rewrite app_nil_r.
  - rewrite IH. unfold Spec.matching at 2; simpl.
    rewrite !includes_toLowerCase.
    destruct (Spec.contains_ignoring_case title phrase
              || Spec.contains_ignoring_case content phrase); trivial.
    unfold push. now rewrite <- app_assoc.
Qed.

Lemma retrieveDocuments_unfold (phrase : string) :
  retrieveDocuments self phrase = Spec.retrieval (documents self) phrase.
Proof.
  unfold retrieveDocuments, Spec.retrieval.
  rewrite retrieve_loop. simpl.
  destruct (filter (Spec.matching phrase) (documents self)); reflexivity.
Qed.

End Retrieval.

(** *** C1 *)

(** The claim as stated fails beyond the code units 0..255.  The title
    U+0391 U+03A3 U+0391 includes the phrase U+0391 U+03A3 as it stands.
    [toLowerCase] turns the sigma of the phrase, which ends a word, into
    the final sigma U+03C2 and the sigma of the title into the small sigma
    U+03C3: the lowered title does not include the lowered phrase, and the
    tool returns the sentinel for a document whose title contains the
    phrase. *)
Lemma retrieveDocuments_final_sigma :
  Wide.in_alphabet Wide.ALPHA_SIGMA_ALPHA = true
  /\ Wide.in_alphabet Wide.ALPHA_SIGMA = true
  /\ Wide.ALPHA_SIGMA_ALPHA = (Wide.ALPHA_SIGMA ++ [Wide.CAPITAL_ALPHA])%list
  /\ Wide.includes Wide.ALPHA_SIGMA_ALPHA Wide.ALPHA_SIGMA = true
  /\ Wide.toLowerCase Wide.ALPHA_SIGMA_ALPHA
     = [Wide.SMALL_ALPHA; Wide.SMALL_SIGMA; Wide.SMALL_ALPHA]
  /\ Wide.toLowerCase Wide.ALPHA_SIGMA = [Wide.SMALL_ALPHA; Wide.FINAL_SIGMA]
  /\ Wide.retrieveDocuments
       [(Wide.ALPHA_SIGMA_ALPHA, Wide.of_string "Greek letters")] Wide.ALPHA_SIGMA
     = Wide.of_string NO_DOCUMENTS.
Proof. repeat split; vm_compute; reflexivity. Qed.

(** C1, amended.  For every search phrase and every document map,
    [retrieveDocuments] returns the excerpts (the title in square brackets,
    a newline, the first 500 characters of the content and three dots) of
    the documents whose title or content, once lowered by [toLowerCase],
    includes the lowered phrase, in the iteration order of the map and
    joined by the delimiter; when no document passes this test it returns
    the sentinel [NO_DOCUMENTS].  On strings of code units 0..255 the test
    is that the title or the content contains the phrase
    case-insensitively. *)
Theorem retrieveDocuments_spec (this : ReactRagAgent) (phrase : string) :
  retrieveDocuments this phrase
  = match filter
            (fun doc =>
               includes (toLowerCase (fst doc)) (toLowerCase phrase)
               || includes (toLowerCase (snd doc)) (toLowerCase phrase))
            (documents this) with
    | [] => NO_DOCUMENTS
    | hits =>
        join DELIMITER
          (map (fun doc =>
                  "[" ++ fst doc ++ "]" ++ LF ++ substring0 500 (snd doc) ++ "...")
               hits)
    end
  /\ forall s,
      includes (toLowerCase s) (toLowerCase phrase) = Spec.contains_ignoring_case s phrase.
Proof.
  split; [|intros s; apply includes_toLowerCase].
  rewrite retrieveDocuments_unfold. unfold Spec.retrieval.
  rewrite (filter_ext (Spec.matching phrase)
             (fun doc =>
                includes (toLowerCase (fst doc)) (toLowerCase phrase)
                || includes (toLowerCase (snd doc)) (toLowerCase phrase))).
  - reflexivity.
  - intros doc. unfold Spec.matching. now rewrite !includes_toLowerCase.
Qed.

(** *** C10 *)

Lemma matching_empty_phrase (docs : JsMap) :
  filter (Spec.matching EmptyString) docs = docs.
Proof.
  induction docs as [|[title content] docs IH]; simpl; trivial.
  unfold Spec.matching at 1; simpl.
  rewrite contains_ignoring_case_empty. simpl. now rewrite IH.
Qed.

(** C10.  The empty phrase matches every document: on a map that is not
    empty, [retrieveDocuments] applied to the empty string returns the
    joined excerpts of all the documents of the map, and this is never the
    sentinel. *)
Theorem retrieveDocuments_empty_phrase (this : ReactRagAgent) :
  documents this <> [] ->
  retrieveDocuments this EmptyString
  = join DELIMITER (map Spec.excerpt_of (documents this))
  /\ retrieveDocuments this EmptyString <> NO_DOCUMENTS.
Proof.
  intros some. rewrite retrieveDocuments_unfold.
  unfold Spec.retrieval. rewrite matching_empty_phrase.
  destruct (documents this) as [|doc docs]; [congruence|].
  split; [reflexivity|].
  destruct docs; simpl; discriminate.
Qed.

Lemma retrieveDocuments_empty_phrase_witness :
  retrieveDocuments python_agent EmptyString
  = "[doc1]" ++ LF ++ python_text ++ "...".
Proof.
  destruct (retrieveDocuments_empty_phrase python_agent) as [all _].
  - discriminate.
  - rewrite all. reflexivity.
Defined.

(** *** C6 *)

(** The example as the specification states it fails: the whole phrase
    occurs neither in the title nor in the content, the result is the
    sentinel, and the sentinel holds neither "[doc1]" nor the text. *)
Lemma retrieve_tell_me_about_Python_misses :
  retrieveDocuments python_agent "Tell me about Python" = NO_DOCUMENTS
  /\ includes (retrieveDocuments python_agent "Tell me about Python") "[doc1]" = false
  /\ includes (retrieveDocuments python_agent "Tell me about Python")
              (substring0 500 python_text) = false.
Proof. repeat split; vm_compute; reflexivity. Qed.

(** C6, amended.  With the document map of the example, whatever the
    model, the phrase "Tell me about Python" retrieves nothing and the
    result is the sentinel; the phrase "Python", which occurs in the
    document, retrieves the excerpt, which contains "[doc1]" and the text
    of the document cut at 500 characters. *)
Theorem retrieve_Python_example (m : ChatModel) :
  let this := new_ReactRagAgent m python_docs in
  retrieveDocuments this "Tell me about Python" = NO_DOCUMENTS
  /\ retrieveDocuments this "Python" = "[doc1]" ++ LF ++ python_text ++ "..."
  /\ includes (retrieveDocuments this "Python") "[doc1]" = true
  /\ includes (retrieveDocuments this "Python") (substring0 500 python_text) = true.
Proof. repeat split; vm_compute; reflexivity. Qed.

(** *** C8 *)

(** C8.  On the text of the example and the query "Python readable" the
    Analysis Tool returns the header followed by two lines, the first two
    sentences, and the third sentence is left out. *)
Theorem analyzeText_example (this : ReactRagAgent) :
  analyzeText this "Python is fast. Python is readable. Cats are cute." "Python readable"
  = "Key findings:" ++ LF ++ "Python is fast" ++ LF ++ " Python is readable"
  /\ includes
       (analyzeText this "Python is fast. Python is readable. Cats are cute."
                    "Python readable")
       "Cats are cute" = false.
Proof. split; vm_compute; reflexivity. Qed.

(** ** The Analysis Tool *)

Section Analysis.

Lemma trimEnd_inked_head (c : ascii) (s : string) :
  isWhiteSpace c = false -> truthy (trimEnd (String c s)) = true.
Proof. intros ink. simpl. destruct (trimEnd s); [rewrite ink|]; reflexivity. Qed.

(** [s.trim()] is truthy exactly when [s] is not blank. *)
Lemma truthy_trim (s : string) : truthy (trim s) = negb (blank s).
Proof.
  unfold trim. induction s as [|c s IH]; trivial.
  cbn [trimStart blank]. destruct (isWhiteSpace c) eqn:ws.
  - exact IH.
  - now rewrite trimEnd_inked_head.
Qed.

(** The two ways of splitting differ by empty pieces only. *)
Lemma splitRuns_split_at_each (sep : ascii -> bool) (s : string) :
  (exists p r r',
      splitRuns sep false s = p :: r
      /\ Spec.split_at_each sep s = p :: r'
      /\ filter truthy r = filter truthy r')
  /\ filter truthy (splitRuns sep true s) = filter truthy (Spec.split_at_each sep s).
Proof.
  induction s as [|c s [(p & r & r' & runs & each & same) inRun]]; simpl.
  - split; [exists EmptyString, [], []|]; auto.
  - destruct (sep c).
    + split; [exists EmptyString, (splitRuns sep true s), (Spec.split_at_each sep s)|];
        simpl; auto.
    + rewrite runs, each. split; [exists (String c p), r, r'|]; simpl; auto.
      now rewrite same.
Qed.

Lemma filter_filter_implied {A} (f g : A -> bool) (l : list A) :
  (forall x, f x = true -> g x = true) ->
  filter f (filter g l) = filter f l.
Proof.
  intros implied. induction l as [|x l IH]; simpl; trivial.
  destruct (g x) eqn:gx; simpl.
  - now rewrite IH.
  - destruct (f x) eqn:fx; [|exact IH].
    apply implied in fx. congruence.
Qed.

(** A string that contains a word, up to case, is not blank. *)
Lemma starts_with_word_not_blank (w s : string) :
  word w -> Spec.starts_with_ignoring_case w s = true -> blank s = false.
Proof.
  intros [some ink]. destruct w as [|a w]; [discriminate|].
  destruct s as [|b s]; [discriminate|]. simpl.
  intros starts. apply andb_prop in starts as [same _].
  apply andb_prop in ink as [ink _].
  rewrite same_ignoring_case_lower in same.
  apply Ascii.eqb_eq in same.
  rewrite <- (isWhiteSpace_lower_unit b), <- same, isWhiteSpace_lower_unit.
  now rewrite (proj1 (negb_true_iff _) ink).
Qed.

Lemma contains_word_not_blank (w s : string) :
  word w -> Spec.contains_ignoring_case s w = true -> blank s = false.
Proof.
  intros isword. induction s as [|b s IH].
  - simpl. rewrite orb_false_r. apply starts_with_word_not_blank, isword.
  - cbn [Spec.contains_ignoring_case]. intros found.
    apply orb_prop in found as [here|later].
    + exact (starts_with_word_not_blank w _ isword here).
    + simpl. rewrite (IH later). apply andb_false_r.
Qed.

(** On a query written as words separated by single spaces, the pieces of
    [split(" ")] are its whitespace-delimited tokens, and all are words. *)
Lemma splitUnit_single_spaced (expectWord : bool) (query : string) :
  Spec.single_spaced expectWord query = true ->
  splitUnit " " query = Spec.split_at_each isWhiteSpace query
  /\ exists p r,
      splitUnit " " query = p :: r
      /\ inked p = true
      /\ (expectWord = true -> truthy p = true)
      /\ Forall word r.
Proof.
  revert expectWord; induction query as [|c rest IH]; intros expectWord; simpl.
  - intros ends. split; trivial. exists EmptyString, []. repeat split; auto.
    intros expected. rewrite expected in ends. discriminate.
  - destruct (Ascii.eqb_spec c " ") as [space|other].
    + subst c. intros ok. apply andb_prop in ok as [noword ok].
      destruct (IH true ok) as (same & p & r & parts & ink & some & words).
      split; [simpl; now rewrite same|].
      exists EmptyString, (splitUnit " " rest). repeat split; auto.
      * intros expected. rewrite expected in noword. discriminate.
      * rewrite parts. constructor; [split|]; auto.
    + intros ok. apply andb_prop in ok as [ink ok].
      destruct (IH false ok) as (same & p & r & parts & inkp & _ & words).
      rewrite (proj1 (negb_true_iff _) ink), <- same, parts.
      split; trivial.
      exists (String c p), r. repeat split; auto.
      simpl. now rewrite ink.
Qed.

Lemma filter_all {A} (f : A -> bool) (l : list A) :
  Forall (fun x => f x = true) l -> filter f l = l.
Proof.
  induction 1 as [|x l fx _ IH]; simpl; trivial. now rewrite fx, IH.
Qed.

Lemma tokens_single_spaced (query : string) :
  Spec.single_spaced true query = true ->
  splitUnit " " query = Spec.tokens query /\ Forall word (Spec.tokens query).
Proof.
  intros ok.
  destruct (splitUnit_single_spaced true query ok)
    as (same & p & r & parts & ink & some & words).
  assert (all : Forall word (splitUnit " " query)).
  { rewrite parts. constructor; [split|]; auto. }
  unfold Spec.tokens. rewrite <- same, filter_all.
  - split; trivial.
  - eapply Forall_impl; [|exact all]. now intros w [some' _].
Qed.

(** A sentence kept for a list of words is not blank, hence not empty. *)
Lemma kept_not_blank (words : list string) (s : string) :
  Forall word words ->
  existsb (Spec.contains_ignoring_case s) words = true -> blank s = false.
Proof.
  intros allwords found. apply existsb_exists in found as (w & member & has).
  rewrite Forall_forall in allwords.
  exact (contains_word_not_blank w s (allwords w member) has).
Qed.

Lemma blank_empty_or_space (s : string) : blank s = false -> truthy s = true.
Proof. destruct s; [discriminate | reflexivity]. Qed.

Lemma analyzeText_unfold (this : ReactRagAgent) (text query : string) :
  Spec.single_spaced true query = true ->
  analyzeText this text query = Spec.analysis text query.
Proof.
  intros ok. destruct (tokens_single_spaced query ok) as [same words].
  unfold analyzeText, Spec.analysis, slice0.
  assert (keep : forall l,
             filter (fun s => existsb (fun word => includes (toLowerCase s) (toLowerCase word))
                                      (splitUnit " " query)) l
             = filter (Spec.kept query) l).
  { intros l. apply filter_ext. intros s. unfold Spec.kept. rewrite same.
    apply existsb_pointwise. intros w. apply includes_toLowerCase. }
  rewrite keep.
  assert (sentences :
            filter (Spec.kept query)
                   (filter (fun s => truthy (trim s)) (splitRuns sentence_end false text))
            = filter (Spec.kept query) (Spec.pseudo_sentences text)).
  { rewrite filter_filter_implied.
    2:{ intros s has. rewrite truthy_trim.
        now rewrite (kept_not_blank _ s words has). }
    destruct (splitRuns_split_at_each sentence_end text)
      as [(p & r & r' & runs & each & tails) _].
    unfold Spec.pseudo_sentences. rewrite runs, each.
    rewrite <- (filter_filter_implied (Spec.kept query) truthy (p :: r)),
            <- (filter_filter_implied (Spec.kept query) truthy (p :: r')).
    - simpl. now rewrite tails.
    - intros s has. apply blank_empty_or_space, (kept_not_blank _ s words has).
    - intros s has. apply blank_empty_or_space, (kept_not_blank _ s words has). }
  rewrite sentences.
  destruct (filter (Spec.kept query) (Spec.pseudo_sentences text)); reflexivity.
Qed.

End Analysis.

(** *** C2 *)

(** The claim as stated fails on a query with two spaces in a row:
    [split(" ")] then yields an empty word, which every sentence contains,
    and the sentence is returned, while it contains neither of the tokens
    "dogs" and "birds" and the claim gives the sentinel. *)
Lemma analyzeText_doubled_space :
  analyzeText python_agent "Cats are cute." "dogs  birds"
  = "Key findings:" ++ LF ++ "Cats are cute"
  /\ Spec.tokens "dogs  birds" = ["dogs"; "birds"]
  /\ Spec.analysis "Cats are cute." "dogs  birds" = NO_FINDINGS.
Proof. repeat split; vm_compute; reflexivity. Qed.

(** So it does on a query whose words are separated by a tabulation:
    [split(" ")] leaves the query in one piece, which the sentence does not
    contain, while the sentence contains the token "cats". *)
Lemma analyzeText_tabulation :
  analyzeText python_agent "Cats are cute."
              ("cats" ++ String "009"%char EmptyString ++ "dogs")
  = NO_FINDINGS
  /\ Spec.analysis "Cats are cute."
                   ("cats" ++ String "009"%char EmptyString ++ "dogs")
     = "Key findings:" ++ LF ++ "Cats are cute".
Proof. split; vm_compute; reflexivity. Qed.

(** Beyond the code units 0..255 lowering is not folding: the sentence
    U+0391 U+03A3 U+0391 includes the word U+0391 U+03A3 as it stands, but
    its lowered form does not include the lowered word, which ends with the
    final sigma, and the tool returns the sentinel. *)
Lemma analyzeText_final_sigma :
  Wide.in_alphabet (Wide.ALPHA_SIGMA_ALPHA ++ Wide.of_string ".")%list = true
  /\ Wide.in_alphabet Wide.ALPHA_SIGMA = true
  /\ Wide.splitRuns Wide.sentence_end false (Wide.ALPHA_SIGMA_ALPHA ++ Wide.of_string ".")%list
     = [Wide.ALPHA_SIGMA_ALPHA; []]
  /\ Wide.splitUnit 32%N Wide.ALPHA_SIGMA = [Wide.ALPHA_SIGMA]
  /\ Wide.includes Wide.ALPHA_SIGMA_ALPHA Wide.ALPHA_SIGMA = true
  /\ Wide.analyzeText (Wide.ALPHA_SIGMA_ALPHA ++ Wide.of_string ".")%list Wide.ALPHA_SIGMA
     = Wide.of_string NO_FINDINGS.
Proof. repeat split; vm_compute; reflexivity. Qed.

(** C2, amended.  For every text, and for every query written as words
    separated by single spaces (not empty, no other white space, no space
    at either end and no two in a row), [analyzeText] splits the text into
    pseudo-sentences on full stops, exclamation marks and question marks,
    keeps exactly the sentences whose lowered form ([toLowerCase]) includes
    the lowered form of at least one word of the query, and returns the
    first three of them joined by newlines under the header, or the
    sentinel [NO_FINDINGS] when none is kept.  On strings of code units
    0..255 the sentences kept are those that contain case-insensitively at
    least one word of the query. *)
Theorem analyzeText_spec (this : ReactRagAgent) (text query : string) :
  Spec.single_spaced true query = true ->
  analyzeText this text query
  = match filter
            (fun sentence =>
               existsb (fun word => includes (toLowerCase sentence) (toLowerCase word))
                       (Spec.tokens query))
            (Spec.pseudo_sentences text) with
    | [] => NO_FINDINGS
    | found => "Key findings:" ++ LF ++ join LF (firstn 3 found)
    end
  /\ forall sentence word,
      includes (toLowerCase sentence) (toLowerCase word)
      = Spec.contains_ignoring_case sentence word.
Proof.
  intros spaced. split; [|intros sentence word; apply includes_toLowerCase].
  rewrite (analyzeText_unfold this text query spaced). unfold Spec.analysis.
  rewrite (filter_ext (Spec.kept query)
             (fun sentence =>
                existsb (fun word => includes (toLowerCase sentence) (toLowerCase word))
                        (Spec.tokens query))).
  - reflexivity.
  - intros sentence. unfold Spec.kept. apply existsb_pointwise.
    intros word. symmetry. apply includes_toLowerCase.
Qed.

Lemma analyzeText_spec_witness :
  analyzeText python_agent "Python is fast! Is it readable? Cats are cute."
              "python readable"
  = "Key findings:" ++ LF ++ "Python is fast" ++ LF ++ " Is it readable".
Proof.
  destruct (analyzeText_spec python_agent
              "Python is fast! Is it readable? Cats are cute." "python readable")
    as [output _].
  - reflexivity.
  - rewrite output. reflexivity.
Defined.

(** ** The agent loop *)

Section Loop.

Variable now : Clock.
Variable query : string.

Lemma body_turn (f : Frame) : turn now f (body now query f).
Proof.
  unfold body.
  destruct (invoke (model (self f)) (List.length (invoked f)) (messages f))
    as [content|e] eqn:response.
  - destruct (includes (toLowerCase content) "final answer"
              || includes (toLowerCase content) "answer:"). 
    { now apply turn_answer. }
    cbn [orb].
    destruct (maxIterations (addStep now (self f) AgentStep.thought content)
              <=? S (iterations f)) eqn:bound.
    { now apply turn_answer. }
    apply Nat.leb_gt in bound. cbn in bound.
    destruct (includes (toLowerCase content) "retrieve"
              || includes (toLowerCase content) "search").
    { now apply turn_tool. }
    destruct (includes (toLowerCase content) "analyze"
              || includes (toLowerCase content) "extract").
    { now apply turn_tool. }
    now apply turn_answer.
  - now apply turn_error.
Qed.

Lemma addStep_log (this : ReactRagAgent) (type : AgentStep.kind) (content : string) :
  AgentState.steps (state (addStep now this type content))
  = (AgentState.steps (state this)
       ++ [AgentStep.mk type content (now (List.length (AgentState.steps (state this))))])%list.
Proof. reflexivity. Qed.

(** A proof rule for the loop: [Inv] holds at every test of the loop
    condition and [Post] when the loop is left, by the condition or by a
    [break]. *)
Lemma while_rule (Inv Post : Frame -> Prop) :
  (forall f, Inv f -> maxIterations (self f) <= iterations f -> Post f) ->
  (forall f f', Inv f -> iterations f < maxIterations (self f) ->
                turn now f (Break f') -> Post f') ->
  (forall f f', Inv f -> iterations f < maxIterations (self f) ->
                turn now f (Next f') -> Inv f') ->
  forall fuel f f', Inv f -> while fuel now query f = Some f' -> Post f'.
Proof.
  intros leave break next. induction fuel as [|fuel IH]; intros f f' inv; simpl.
  - discriminate.
  - destruct (iterations f <? maxIterations (self f)) eqn:test.
    + apply Nat.ltb_lt in test.
      pose proof (body_turn f) as took.
      destruct (body now query f) as [g|g].
      * apply IH. exact (next f g inv test took).
      * intros done. injection done as <-. exact (break f g inv test took).
    + apply Nat.ltb_ge in test.
      intros done. injection done as <-. exact (leave f inv test).
Qed.

(** The loop is left before the fuel runs out when there is more fuel than
    turns that remain. *)
Lemma while_returns (fuel : nat) (f : Frame) :
  maxIterations (self f) - iterations f < fuel ->
  exists f', while fuel now query f = Some f'.
Proof.
  revert f; induction fuel as [|fuel IH]; intros f enough; [lia|]. simpl.
  destruct (iterations f <? maxIterations (self f)) eqn:test; [|eauto].
  apply Nat.ltb_lt in test.
  pose proof (body_turn f) as took.
  destruct (body now query f) as [g|g]; [|eauto].
  apply IH. inversion took; subst; cbn; lia.
Qed.

(** More fuel does not change the result. *)
Lemma while_more_fuel (fuel fuel' : nat) (f f' : Frame) :
  fuel <= fuel' ->
  while fuel now query f = Some f' -> while fuel' now query f = Some f'.
Proof.
  revert fuel' f; induction fuel as [|fuel IH]; intros fuel' f le; [discriminate|].
  destruct fuel' as [|fuel']; [lia|]. simpl.
  destruct (iterations f <? maxIterations (self f)); trivial.
  destruct (body now query f); trivial. apply IH. lia.
Qed.

Lemma processQuery_unfold (fuel : nat) (this : ReactRagAgent) (f : Frame) :
  while fuel now query (entry now query this) = Some f ->
  exists r,
    processQuery fuel now this query = Some r
    /\ result r = or_else (finalAnswer f) FALLBACK
    /\ steps r = log f
    /\ calls r = invoked f.
Proof.
  intros left. unfold processQuery. fold (entry now query this). rewrite left.
  eexists; repeat split.
Qed.

End Loop.

(** Lengths of logs and call lists after some pushes. *)
Ltac count_steps :=
  unfold log in *; cbn; unfold push; rewrite ?length_app; cbn.

Section Runs.

Variable now : Clock.
Variable query : string.

Lemma entry_enough_fuel (fuel : nat) (this : ReactRagAgent) :
  maxIterations this < fuel ->
  maxIterations (self (entry now query this)) - iterations (entry now query this) < fuel.
Proof. cbn. lia. Qed.

(** Every call but the last one of a list extended by [push] is a call of
    the list. *)
Lemma nth_error_push {A} (P : nat -> A -> Prop) (l : list A) (x : A) :
  (forall j y, nth_error l j = Some y -> P j y) ->
  P (List.length l) x ->
  forall j y, nth_error (push l x) j = Some y -> P j y.
Proof.
  intros before last j y. unfold push.
  destruct (Nat.lt_ge_cases j (List.length l)) as [inside|beyond].
  - rewrite nth_error_app1 by exact inside. apply before.
  - rewrite nth_error_app2 by exact beyond.
    destruct (j - List.length l) as [|d] eqn:diff; simpl.
    + intros found. injection found as <-.
      replace j with (List.length l) by lia. exact last.
    + destruct d; discriminate.
Qed.

(** The log grows by at most three steps a turn and by at most two on the
    turn that leaves the loop. *)
Lemma log_bound (fuel : nat) (this : ReactRagAgent) (f : Frame) :
  1 <= maxIterations this ->
  while fuel now query (entry now query this) = Some f ->
  List.length (log f) <= 3 * maxIterations this.
Proof.
  intros positive.
  apply (while_rule now query
           (fun g => maxIterations (self g) = maxIterations this
                     /\ List.length (log g) <= 1 + 3 * iterations g
                     /\ (iterations g = 0 \/ iterations g < maxIterations this))
           (fun g => List.length (log g) <= 3 * maxIterations this)).
  - intros g (same & _ & bound) test. lia.
  - intros g g' (same & len & bound) test took.
    inversion took; subst; count_steps; lia.
  - intros g g' (same & len & bound) test took.
    inversion took; subst; count_steps.
    repeat split; lia.
  - cbn. repeat split; auto.
Qed.

(** Each turn calls the model once. *)
Lemma calls_bound (fuel : nat) (this : ReactRagAgent) (f : Frame) :
  while fuel now query (entry now query this) = Some f ->
  List.length (invoked f) <= maxIterations this.
Proof.
  apply (while_rule now query
           (fun g => maxIterations (self g) = maxIterations this
                     /\ List.length (invoked g) = iterations g
                     /\ (iterations g = 0 \/ iterations g < maxIterations this))
           (fun g => List.length (invoked g) <= maxIterations this)).
  - intros g (same & len & bound) test. lia.
  - intros g g' (same & len & bound) test took.
    inversion took; subst; count_steps; lia.
  - intros g g' (same & len & bound) test took.
    inversion took; subst; count_steps.
    repeat split; lia.
  - cbn. repeat split; auto.
Qed.

Lemma all_returned_push (m : ChatModel) (l : list (list BaseMessage))
      (msgs : list BaseMessage) (content : string) :
  all_returned m l ->
  invoke m (List.length l) msgs = Returns content ->
  all_returned m (push l msgs).
Proof.
  intros before last.
  exact (nth_error_push (fun j y => exists c, invoke m j y = Returns c) l msgs
           before (ex_intro _ content last)).
Qed.

Lemma loop_outcome (fuel : nat) (this : ReactRagAgent) (f : Frame) :
  while fuel now query (entry now query this) = Some f ->
  all_returned (model this) (invoked f) \/ aborted now (model this) f.
Proof.
  apply (while_rule now query
           (fun g => model (self g) = model this
                     /\ finalAnswer g = EmptyString
                     /\ no_result_step (log g)
                     /\ all_returned (model this) (invoked g))
           (fun g => all_returned (model this) (invoked g) \/ aborted now (model this) g)).
  - intros g (_ & _ & _ & returned) _. now left.
  - intros g g' (same & unset & clean & returned) test took.
    inversion took as [content response| |e response]; subst; rewrite same in response.
    + left. cbn. eapply all_returned_push; eauto.
    + right. exists (invoked g), (messages g), e. cbn.
      repeat split; trivial.
      * unfold no_result_step, log in *. cbn. apply Forall_app. split; trivial.
        constructor; [discriminate | constructor].
      * exists (log g). reflexivity.
  - intros g g' (same & unset & clean & returned) test took.
    inversion took as [|content act obs messages' response bound|]; subst.
    rewrite same in response. cbn. repeat split; trivial.
    + unfold no_result_step, log in *. cbn.
      repeat (apply Forall_app; split); trivial;
        (constructor; [discriminate | constructor]).
    + eapply all_returned_push; eauto.
  - cbn. repeat split; trivial.
    + unfold no_result_step, log. cbn. constructor; [discriminate | constructor].
    + intros j msgs found. destruct j; discriminate.
Qed.

End Runs.

(** *** C4 *)

(** C4.  Every run of [processQuery] terminates: with more fuel than
    maxIterations the loop is left and a result is returned, the same for
    every such amount of fuel; and the run calls the model at most
    maxIterations times (5 for the agent as constructed). *)
Theorem processQuery_terminates (fuel : nat) (now : Clock) (this : ReactRagAgent)
        (query : string) :
  maxIterations this < fuel ->
  exists r,
    processQuery fuel now this query = Some r
    /\ List.length (calls r) <= maxIterations this
    /\ forall fuel', maxIterations this < fuel' ->
                     processQuery fuel' now this query = Some r.
Proof.
  intros enough.
  destruct (while_returns now query fuel (entry now query this)) as [f left].
  { now apply entry_enough_fuel. }
  destruct (processQuery_unfold now query fuel this f left) as (r & run & _ & _ & called).
  exists r. split; trivial. split.
  - rewrite called. exact (calls_bound now query fuel this f left).
  - intros fuel' enough'.
    assert (left' : while fuel' now query (entry now query this) = Some f).
    { destruct (Nat.le_ge_cases fuel fuel') as [le|ge].
      - exact (while_more_fuel now query fuel fuel' _ f le left).
      - destruct (while_returns now query fuel' (entry now query this)) as [f' left'].
        { now apply entry_enough_fuel. }
        pose proof (while_more_fuel now query fuel' fuel _ f' ge left') as again.
        congruence. }
    unfold processQuery in *. fold (entry now query this) in *.
    rewrite left in run. rewrite left'. exact run.
Qed.

Lemma processQuery_terminates_witness :
  exists r,
    processQuery 6 ticking (new_ReactRagAgent searching_model python_docs)
                 "Tell me about Python" = Some r
    /\ List.length (calls r) <= 5
    /\ forall fuel', 5 < fuel' ->
         processQuery fuel' ticking (new_ReactRagAgent searching_model python_docs)
                      "Tell me about Python" = Some r.
Proof.
  apply (processQuery_terminates 6 ticking
           (new_ReactRagAgent searching_model python_docs) "Tell me about Python").
  cbn. lia.
Defined.

(** *** C5 *)

(** C5.  In every run, when a call of the model throws, that call is the
    last one of the run, the step appended last is a thought step that
    reports the error, the log holds no result step, every earlier call
    returned, and the result handed to the caller is the fallback
    sentence. *)
Theorem model_failure_aborts (fuel : nat) (now : Clock) (this : ReactRagAgent)
        (query : string) :
  maxIterations this < fuel ->
  exists r,
    processQuery fuel now this query = Some r
    /\ forall k msgs e,
        nth_error (calls r) k = Some msgs ->
        invoke (model this) k msgs = Throws e ->
        S k = List.length (calls r)
        /\ result r = FALLBACK
        /\ no_result_step (steps r)
        /\ all_returned (model this) (firstn k (calls r))
        /\ exists earlier,
            steps r
            = (earlier
                 ++ [AgentStep.mk AgentStep.thought
                       ("Error during processing: " ++ errorMessage e)
                       (now (List.length earlier))])%list.
Proof.
  intros enough.
  destruct (while_returns now query fuel (entry now query this)) as [f left].
  { now apply entry_enough_fuel. }
  destruct (processQuery_unfold now query fuel this f left)
    as (r & run & answer & logged & called).
  exists r. split; trivial.
  intros k msgs e found threw. rewrite called in *. rewrite answer, logged.
  destruct (loop_outcome now query fuel this f left)
    as [returned|(before & last & e' & shape & returned & threw' & unset & clean & reported)].
  - destruct (returned k msgs found) as [c ok]. congruence.
  - rewrite shape in *.
    destruct (Nat.lt_ge_cases k (List.length before)) as [inside|beyond].
    + rewrite nth_error_app1 in found by exact inside.
      destruct (returned k msgs found) as [c ok]. congruence.
    + rewrite nth_error_app2 in found by exact beyond.
      destruct (k - List.length before) as [|d] eqn:diff; simpl in found.
      * injection found as <-.
        assert (k = List.length before) by lia. subst k.
        assert (e' = e) by congruence. subst e'.
        rewrite length_app, firstn_app, Nat.sub_diag, firstn_all, unset.
        simpl. rewrite app_nil_r.
        repeat split; trivial. lia.
      * destruct d; discriminate.
Qed.

Lemma model_failure_aborts_witness :
  exists r,
    processQuery 6 ticking python_agent "Tell me about Python" = Some r
    /\ result r = FALLBACK
    /\ List.length (calls r) = 1.
Proof.
  destruct (model_failure_aborts 6 ticking python_agent "Tell me about Python")
    as (r & run & aborts).
  - cbn. lia.
  - exists r. split; [exact run|].
    assert (first : nth_error (calls r) 0
                    = Some [SystemMessage SYSTEM_PROMPT; HumanMessage "Tell me about Python"]).
    { vm_compute in run. injection run as <-. reflexivity. }
    destruct (aborts 0 _ (ErrorObject "fetch failed") first eq_refl)
      as (once & fallback & _).
    split; [exact fallback | now rewrite <- once].
Defined.

(** *** C7 *)

(** The claim as stated fails on an empty first reply: it holds no keyword
    and no marker, the run ends after one call and records the reply as
    the result step, but the result returned is the fallback sentence and
    not the reply. *)
Lemma empty_reply_is_not_the_result :
  exists r,
    processQuery 6 ticking (new_ReactRagAgent mute_model python_docs)
                 "Tell me about Python" = Some r
    /\ invoke mute_model 0
              [SystemMessage SYSTEM_PROMPT; HumanMessage "Tell me about Python"]
       = Returns EmptyString
    /\ List.length (calls r) = 1
    /\ result r = FALLBACK.
Proof.
  eexists. split; [vm_compute; reflexivity|].
  repeat split.
Qed.

(** C7, amended.  When the first reply of the model holds none of the
    keywords "retrieve", "search", "analyze", "extract" and neither of the
    markers "final answer" and "answer:" (letter case ignored), the run
    ends after exactly one call of the model, the log is the opening step,
    the reply as a thought step and the reply as the result step, and the
    returned result is the reply when the reply is not empty (the fallback
    sentence when it is). *)
Theorem plain_reply_ends_the_run (fuel : nat) (now : Clock) (this : ReactRagAgent)
        (query content : string) :
  maxIterations this < fuel ->
  1 <= maxIterations this ->
  invoke (model this) 0 [SystemMessage SYSTEM_PROMPT; HumanMessage query]
  = Returns content ->
  includes (toLowerCase content) "retrieve" = false ->
  includes (toLowerCase content) "search" = false ->
  includes (toLowerCase content) "analyze" = false ->
  includes (toLowerCase content) "extract" = false ->
  includes (toLowerCase content) "final answer" = false ->
  includes (toLowerCase content) "answer:" = false ->
  exists r,
    processQuery fuel now this query = Some r
    /\ calls r = [[SystemMessage SYSTEM_PROMPT; HumanMessage query]]
    /\ steps r
       = [AgentStep.mk AgentStep.thought
            ("Analyzing query: " ++ DQUOTE ++ query ++ DQUOTE) (now 0);
          AgentStep.mk AgentStep.thought content (now 1);
          AgentStep.mk AgentStep.result content (now 2)]
    /\ result r = (if truthy content then content else FALLBACK).
Proof.
  intros enough positive reply retrieve search analyze extract final answer.
  destruct fuel as [|fuel]; [lia|].
  unfold processQuery. cbn [while]. cbn [iterations self].
  replace (0 <? maxIterations _) with true
    by (symmetry; apply Nat.ltb_lt; cbn; lia).
  unfold body. cbn [self messages invoked iterations finalAnswer List.length].
  replace (model (addStep _ _ _ _)) with (model this) by reflexivity.
  rewrite reply, retrieve, search, analyze, extract, final, answer.
  cbn [orb].
  destruct (maxIterations _ <=? 1); eexists; repeat split.
Qed.

Lemma plain_reply_ends_the_run_witness :
  exists r,
    processQuery 6 ticking (new_ReactRagAgent plain_model python_docs)
                 "Tell me about Python" = Some r
    /\ List.length (calls r) = 1
    /\ result r = "Python is a programming language".
Proof.
  destruct (plain_reply_ends_the_run 6 ticking
              (new_ReactRagAgent plain_model python_docs)
              "Tell me about Python" "Python is a programming language")
    as (r & run & called & _ & answer); try reflexivity; try (cbn; lia).
  exists r. split; [exact run|]. split; [now rewrite called | exact answer].
Defined.

(** ** The loop body, branch by branch *)

Section Branches.

Variable now : Clock.
Variable query : string.

Lemma body_unfold (f : Frame) :
  body now query f
  = match invoke (model (self f)) (List.length (invoked f)) (messages f) with
    | Returns content =>
        if stops f content
        then Break (answerFrame now f content)
        else Next (toolFrame now query f content)
    | Throws e => Break (errorFrame now f e)
    end.
Proof.
  unfold body, stops, hasMarker, toolFrame, toolFollowUp, toolAction, toolResult,
    asksRetrieval, asksAnalysis.
  destruct (invoke (model (self f)) (List.length (invoked f)) (messages f))
    as [content|e]; [|reflexivity].
  destruct (includes (toLowerCase content) "final answer"
            || includes (toLowerCase content) "answer:"); [reflexivity|].
  cbn [orb].
  change (maxIterations (addStep now (self f) AgentStep.thought content))
    with (maxIterations (self f)).
  destruct (maxIterations (self f) <=? S (iterations f)); [reflexivity|].
  cbn [orb].
  destruct (includes (toLowerCase content) "retrieve"
            || includes (toLowerCase content) "search"); [reflexivity|].
  destruct (includes (toLowerCase content) "analyze"
            || includes (toLowerCase content) "extract"); reflexivity.
Qed.

(** The proof rule of the loop, on the frames of [body_unfold]. *)
Lemma while_frames_rule (Inv Post : Frame -> Prop) :
  (forall f, Inv f -> maxIterations (self f) <= iterations f -> Post f) ->
  (forall f content,
      Inv f -> iterations f < maxIterations (self f) ->
      invoke (model (self f)) (List.length (invoked f)) (messages f) = Returns content ->
      stops f content = true -> Post (answerFrame now f content)) ->
  (forall f e,
      Inv f -> iterations f < maxIterations (self f) ->
      invoke (model (self f)) (List.length (invoked f)) (messages f) = Throws e ->
      Post (errorFrame now f e)) ->
  (forall f content,
      Inv f -> iterations f < maxIterations (self f) ->
      invoke (model (self f)) (List.length (invoked f)) (messages f) = Returns content ->
      stops f content = false -> Inv (toolFrame now query f content)) ->
  forall fuel f f', Inv f -> while fuel now query f = Some f' -> Post f'.
Proof.
  intros leave answer error tool.
  induction fuel as [|fuel IH]; intros f f' inv; simpl; [discriminate|].
  destruct (iterations f <? maxIterations (self f)) eqn:test.
  - apply Nat.ltb_lt in test. rewrite body_unfold.
    destruct (invoke (model (self f)) (List.length (invoked f)) (messages f))
      as [content|e] eqn:response.
    + destruct (stops f content) eqn:stop.
      * intros done. injection done as <-. now apply answer.
      * apply IH. now apply tool.
    + intros done. injection done as <-. now apply error.
  - apply Nat.ltb_ge in test.
    intros done. injection done as <-. now apply leave.
Qed.

End Branches.

(** ** Whole runs: the step log *)

Section StepLog.

Variable now : Clock.
Variable query : string.

(** The run of [processQuery], from the frame the loop is left with. *)
Lemma run_of_frame (fuel : nat) (this : ReactRagAgent) :
  maxIterations this < fuel ->
  exists f r,
    while fuel now query (entry now query this) = Some f
    /\ processQuery fuel now this query = Some r
    /\ result r = or_else (finalAnswer f) FALLBACK
    /\ steps r = log f
    /\ calls r = invoked f.
Proof.
  intros enough.
  destruct (while_returns now query fuel (entry now query this)) as [f left].
  { now apply entry_enough_fuel. }
  destruct (processQuery_unfold now query fuel this f left) as (r & run & facts).
  now exists f, r.
Qed.

Lemma log_addStep (this : ReactRagAgent) (type : AgentStep.kind) (content : string) :
  AgentState.steps (state (addStep now this type content))
  = push (AgentState.steps (state this))
         (AgentStep.mk type content (now (List.length (AgentState.steps (state this))))).
Proof. reflexivity. Qed.

Lemma concat_repeat_snoc {A} (x : list A) (n : nat) :
  (List.concat (repeat x n) ++ x)%list = List.concat (repeat x (S n)).
Proof.
  induction n as [|n IH]; simpl.
  - now rewrite app_nil_r.
  - rewrite <- app_assoc. f_equal. exact IH.
Qed.

Lemma kinds_addStep (this : ReactRagAgent) (type : AgentStep.kind) (content : string) :
  map AgentStep.type (AgentState.steps (state (addStep now this type content)))
  = (map AgentStep.type (AgentState.steps (state this)) ++ [type])%list.
Proof. rewrite log_addStep. unfold push. now rewrite map_app. Qed.

(** The kinds of the steps at the end of a run, and how the last call of
    the model ended. *)
Lemma kinds_of_log (fuel : nat) (this : ReactRagAgent) (f : Frame) :
  1 <= maxIterations this ->
  while fuel now query (entry now query this) = Some f ->
  exists toolTurns threw msgs,
    map AgentStep.type (log f) = log_kinds toolTurns threw
    /\ List.length (invoked f) = S toolTurns
    /\ S toolTurns <= maxIterations this
    /\ nth_error (invoked f) toolTurns = Some msgs
    /\ if threw
       then exists e, invoke (model this) toolTurns msgs = Throws e
       else exists content, invoke (model this) toolTurns msgs = Returns content.
Proof.
  intros positive.
  assert (last : forall (l : list (list BaseMessage)) (msgs : list BaseMessage),
             nth_error (push l msgs) (List.length l) = Some msgs).
  { intros l msgs. unfold push. rewrite nth_error_app2 by lia.
    now rewrite Nat.sub_diag. }
  apply (while_frames_rule now query
           (fun g => model (self g) = model this
                     /\ maxIterations (self g) = maxIterations this
                     /\ List.length (invoked g) = iterations g
                     /\ (iterations g = 0 \/ iterations g < maxIterations this)
                     /\ map AgentStep.type (log g)
                        = AgentStep.thought
                            :: List.concat (repeat TOOL_TURN (iterations g)))
           (fun g => exists toolTurns threw msgs,
                map AgentStep.type (log g) = log_kinds toolTurns threw
                /\ List.length (invoked g) = S toolTurns
                /\ S toolTurns <= maxIterations this
                /\ nth_error (invoked g) toolTurns = Some msgs
                /\ if threw
                   then exists e, invoke (model this) toolTurns msgs = Throws e
                   else exists content,
                       invoke (model this) toolTurns msgs = Returns content)).
  - intros g (_ & same & _ & bound & _) test. lia.
  - intros g content (agent & same & called & bound & kinds) test response _.
    exists (iterations g), false, (messages g).
    rewrite agent, called in response.
    unfold log, log_kinds in *. cbn [self invoked answerFrame].
    rewrite !kinds_addStep, kinds, <- app_assoc.
    split; [reflexivity|]. split; [unfold push; rewrite length_app; cbn; lia|].
    split; [lia|]. split; [rewrite <- called; apply last | eauto].
  - intros g e (agent & same & called & bound & kinds) test response.
    exists (iterations g), true, (messages g).
    rewrite agent, called in response.
    unfold log, log_kinds in *. cbn [self invoked errorFrame].
    rewrite !kinds_addStep, kinds.
    split; [reflexivity|]. split; [unfold push; rewrite length_app; cbn; lia|].
    split; [lia|]. split; [rewrite <- called; apply last | eauto].
  - intros g content (agent & same & called & bound & kinds) test _ stop.
    unfold log in *. cbn [self invoked iterations toolFrame].
    rewrite !kinds_addStep, kinds. unfold push at 1. rewrite length_app.
    assert (more : S (iterations g) < maxIterations this).
    { unfold stops in stop. rewrite !orb_false_iff in stop.
      destruct stop as [[_ final] _]. apply Nat.leb_gt in final. lia. }
    repeat split; trivial; try (cbn; lia).
    rewrite <- concat_repeat_snoc. cbn. now rewrite <- !app_assoc.
  - cbn. repeat split; auto.
Qed.

End StepLog.

(** ** Whole runs: the answer and the agent *)

Section Answer.

Variable now : Clock.
Variable query : string.

Lemma no_result_addStep (this : ReactRagAgent) (type : AgentStep.kind) (content : string) :
  type <> AgentStep.result ->
  no_result_step (AgentState.steps (state this)) ->
  no_result_step (AgentState.steps (state (addStep now this type content))).
Proof.
  intros other clean. rewrite log_addStep. unfold no_result_step, push.
  apply Forall_app. split; trivial. constructor; [exact other | constructor].
Qed.

Lemma ending_of_run (fuel : nat) (this : ReactRagAgent) (f : Frame) :
  while fuel now query (entry now query this) = Some f ->
  unanswered this f \/ answered now this f.
Proof.
  apply (while_frames_rule now query
           (fun g => model (self g) = model this
                     /\ maxIterations (self g) = maxIterations this
                     /\ finalAnswer g = EmptyString
                     /\ no_result_step (log g)
                     /\ (iterations g = 0 /\ invoked g = []
                         \/ iterations g < maxIterations this))
           (fun g => unanswered this g \/ answered now this g)).
  - intros g (same & bound & unset & clean & [[_ fresh]|less]) test; [|lia].
    left. repeat split; auto.
  - intros g content (same & bound & unset & clean & _) test response stop. right.
    exists (log g), content, (invoked g), (messages g).
    rewrite same in response. unfold log in *. cbn [self answerFrame invoked finalAnswer].
    rewrite !log_addStep. unfold push. rewrite <- app_assoc, length_app, Nat.add_1_r.
    repeat split; trivial.
  - intros g e (same & bound & unset & clean & _) test response. left.
    rewrite same in response. unfold unanswered, log in *.
    cbn [self errorFrame invoked finalAnswer].
    repeat split; trivial.
    + apply no_result_addStep; [discriminate | exact clean].
    + right. exists (invoked g), (messages g), e. split; trivial.
  - intros g content (same & bound & unset & clean & _) test response stop.
    unfold log in *. cbn [self toolFrame invoked finalAnswer iterations].
    repeat split; trivial.
    + repeat (apply no_result_addStep; [discriminate|]). exact clean.
    + right. unfold stops in stop. rewrite !orb_false_iff in stop.
      destruct stop as [[_ last] _]. apply Nat.leb_gt in last. lia.
  - cbn. repeat split; auto.
    constructor; [discriminate | constructor].
Qed.

(** The agent is not touched by a run but for its state. *)
Lemma agent_of_run (fuel : nat) (this : ReactRagAgent) (f : Frame) :
  while fuel now query (entry now query this) = Some f ->
  model (self f) = model this
  /\ documents (self f) = documents this
  /\ maxIterations (self f) = maxIterations this
  /\ AgentState.currentQuery (state (self f)) = query
  /\ AgentState.documents (state (self f)) = []
  /\ AgentState.isProcessing (state (self f)) = true.
Proof.
  apply (while_frames_rule now query
           (fun g => model (self g) = model this
                     /\ documents (self g) = documents this
                     /\ maxIterations (self g) = maxIterations this
                     /\ AgentState.currentQuery (state (self g)) = query
                     /\ AgentState.documents (state (self g)) = []
                     /\ AgentState.isProcessing (state (self g)) = true)
           (fun g => model (self g) = model this
                     /\ documents (self g) = documents this
                     /\ maxIterations (self g) = maxIterations this
                     /\ AgentState.currentQuery (state (self g)) = query
                     /\ AgentState.documents (state (self g)) = []
                     /\ AgentState.isProcessing (state (self g)) = true));
    try (cbn; tauto).
Qed.

Lemma processQuery_agent (fuel : nat) (this : ReactRagAgent) (f : Frame) (r : Run) :
  while fuel now query (entry now query this) = Some f ->
  processQuery fuel now this query = Some r ->
  agent r
  = set_state (self f)
      (AgentState.mk (log f)
                     (AgentState.currentQuery (state (self f)))
                     (AgentState.documents (state (self f))) false).
Proof.
  intros left. unfold processQuery. fold (entry now query this). rewrite left.
  intros run. injection run as <-. reflexivity.
Qed.

End Answer.

(** ** Whole runs: the calls of the model *)

Section Calls.

Variable now : Clock.
Variable query : string.

Lemma firstn_app_le {A} (n : nat) (l l' : list A) :
  n <= List.length l -> firstn n (l ++ l') = firstn n l.
Proof.
  intros le. rewrite firstn_app.
  replace (n - List.length l) with 0 by lia. simpl. apply app_nil_r.
Qed.

Lemma context_of_longer (all more : list BaseMessage) (k : nat)
      (msgs : list BaseMessage) :
  context_of all k msgs -> context_of (all ++ more) k msgs.
Proof.
  intros [prefix_of fits]. split.
  - now rewrite firstn_app_le.
  - rewrite length_app. lia.
Qed.

Lemma forallb_firstn {A} (p : A -> bool) (n : nat) (l : list A) :
  forallb p l = true -> forallb p (firstn n l) = true.
Proof.
  revert l; induction n as [|n IH]; intros [|x l]; simpl; trivial.
  intros all. apply andb_prop in all as [px rest]. now rewrite px, IH.
Qed.

(** The conversation when the loop is left: it starts with the system
    prompt and the query, the rest are human messages, and call number [k]
    was sent its first [2 + 2 * k] messages. *)
Lemma contexts_of_run (fuel : nat) (this : ReactRagAgent) (f : Frame) :
  while fuel now query (entry now query this) = Some f ->
  firstn 2 (messages f) = [SystemMessage SYSTEM_PROMPT; HumanMessage query]
  /\ forallb isHumanMessage (skipn 1 (messages f)) = true
  /\ forall k msgs, nth_error (invoked f) k = Some msgs -> context_of (messages f) k msgs.
Proof.
  apply (while_frames_rule now query
           (fun g => List.length (invoked g) = iterations g
                     /\ List.length (messages g) = 2 + 2 * iterations g
                     /\ firstn 2 (messages g)
                        = [SystemMessage SYSTEM_PROMPT; HumanMessage query]
                     /\ forallb isHumanMessage (skipn 1 (messages g)) = true
                     /\ forall k msgs, nth_error (invoked g) k = Some msgs ->
                                       context_of (messages g) k msgs)
           (fun g => firstn 2 (messages g)
                     = [SystemMessage SYSTEM_PROMPT; HumanMessage query]
                     /\ forallb isHumanMessage (skipn 1 (messages g)) = true
                     /\ forall k msgs, nth_error (invoked g) k = Some msgs ->
                                       context_of (messages g) k msgs)).
  - intros g (_ & _ & head & human & sent) _. auto.
  - intros g content (called & len & head & human & sent) _ _ _.
    cbn [answerFrame messages invoked]. split; [exact head | split; [exact human|]].
    apply (nth_error_push (context_of (messages g))); trivial.
    rewrite called. split; [|lia]. now rewrite <- len, firstn_all.
  - intros g e (called & len & head & human & sent) _ _.
    cbn [errorFrame messages invoked]. split; [exact head | split; [exact human|]].
    apply (nth_error_push (context_of (messages g))); trivial.
    rewrite called. split; [|lia]. now rewrite <- len, firstn_all.
  - intros g content (called & len & head & human & sent) _ _ _.
    cbn [toolFrame messages invoked iterations]. unfold push.
    rewrite <- app_assoc. cbn [app].
    split; [|split; [|split; [|split]]].
    + rewrite length_app. cbn. lia.
    + rewrite length_app. cbn. lia.
    + rewrite firstn_app_le by lia. exact head.
    + destruct (messages g) as [|first rest]; [discriminate|].
      cbn [skipn app] in *. rewrite forallb_app, human. reflexivity.
    + apply (nth_error_push
               (context_of (messages g ++ [HumanMessage content;
                                           HumanMessage
                                             (toolFollowUp (self g) content query)]))).
      * intros k msgs found. now apply context_of_longer, sent.
      * apply context_of_longer. rewrite called.
        split; [|lia]. now rewrite <- len, firstn_all.
  - cbn. split; [|split; [|split; [|split]]]; trivial.
    intros k msgs found. destruct k; discriminate.
Qed.

Lemma stops_false (g : Frame) (this : ReactRagAgent) (content : string) :
  maxIterations (self g) = maxIterations this ->
  stops g content = false <-> carries_on this (iterations g) content.
Proof.
  intros same. unfold stops, carries_on. rewrite same, !orb_false_iff, negb_false_iff.
  rewrite Nat.leb_gt. intuition lia.
Qed.

(** Which calls are followed by another one. *)
Lemma continuation_of_run (fuel : nat) (this : ReactRagAgent) (f : Frame) :
  while fuel now query (entry now query this) = Some f ->
  forall k msgs,
    nth_error (invoked f) k = Some msgs ->
    (S k < List.length (invoked f) ->
     exists c, invoke (model this) k msgs = Returns c /\ carries_on this k c)
    /\ (S k = List.length (invoked f) ->
        (exists e, invoke (model this) k msgs = Throws e)
        \/ exists c, invoke (model this) k msgs = Returns c /\ ~ carries_on this k c).
Proof.
  pose (going := fun k msgs => exists c, invoke (model this) k msgs = Returns c
                                         /\ carries_on this k c).
  assert (last_call :
            forall (l : list (list BaseMessage)) (msgs : list BaseMessage) (Q : Prop),
              (forall k m, nth_error l k = Some m -> going k m) ->
              Q ->
              forall k m,
                nth_error (push l msgs) k = Some m ->
                (S k < List.length (push l msgs) -> going k m)
                /\ (S k = List.length (push l msgs) -> k = List.length l /\ m = msgs /\ Q)).
  { intros l msgs Q before q k m found. unfold push in *. rewrite length_app. cbn.
    destruct (Nat.lt_ge_cases k (List.length l)) as [inside|beyond].
    - rewrite nth_error_app1 in found by exact inside.
      split; [intros _; now apply before | lia].
    - rewrite nth_error_app2 in found by exact beyond.
      destruct (k - List.length l) as [|d] eqn:diff; simpl in found.
      + injection found as <-. split; [lia|]. intros _. repeat split; trivial. lia.
      + destruct d; discriminate. }
  apply (while_frames_rule now query
           (fun g => model (self g) = model this
                     /\ maxIterations (self g) = maxIterations this
                     /\ List.length (invoked g) = iterations g
                     /\ forall k m, nth_error (invoked g) k = Some m -> going k m)
           (fun g => forall k msgs,
                nth_error (invoked g) k = Some msgs ->
                (S k < List.length (invoked g) -> going k msgs)
                /\ (S k = List.length (invoked g) ->
                    (exists e, invoke (model this) k msgs = Throws e)
                    \/ exists c, invoke (model this) k msgs = Returns c
                                 /\ ~ carries_on this k c))).
  - intros g (_ & bound & called & before) test k msgs found.
    split; [intros _; now apply before|].
    intros last. apply before in found as (c & ok & _ & turns & _). lia.
  - intros g content (same & bound & called & before) test response stop k msgs found.
    cbn [answerFrame invoked] in *.
    destruct (last_call _ _ True before I k msgs found) as [inner last].
    split; trivial. intros islast. destruct (last islast) as (-> & -> & _).
    right. exists content. rewrite <- same. split; trivial.
    rewrite called. rewrite <- (stops_false g this content bound). congruence.
  - intros g e (same & bound & called & before) test response k msgs found.
    cbn [errorFrame invoked] in *.
    destruct (last_call _ _ True before I k msgs found) as [inner last].
    split; trivial. intros islast. destruct (last islast) as (-> & -> & _).
    left. exists e. now rewrite <- same.
  - intros g content (same & bound & called & before) test response stop.
    cbn [toolFrame self invoked iterations]. repeat split; trivial.
    + unfold push. rewrite length_app. cbn. lia.
    + apply (nth_error_push going); trivial.
      exists content. rewrite <- same. split; trivial.
      rewrite called. now apply (stops_false g this content bound).
  - cbn. repeat split; trivial. intros k m found. destruct k; discriminate.
Qed.

End Calls.

(** ** Whole runs: the turns that run a tool *)

Section ToolTurns.

Variable now : Clock.
Variable query : string.

Lemma toolResult_documents (a b : ReactRagAgent) (content : string) :
  documents a = documents b ->
  toolResult a content query = toolResult b content query.
Proof.
  intros same. unfold toolResult, retrieveDocuments. now rewrite same.
Qed.

Lemma toolFollowUp_documents (a b : ReactRagAgent) (content : string) :
  documents a = documents b ->
  toolFollowUp a content query = toolFollowUp b content query.
Proof.
  intros same. unfold toolFollowUp. now rewrite (toolResult_documents a b).
Qed.

Lemma nth_error_app_left {A} (l l' : list A) (k : nat) (x : A) :
  nth_error l k = Some x -> nth_error (l ++ l') k = Some x.
Proof.
  intros found. rewrite nth_error_app1; trivial.
  apply nth_error_Some. congruence.
Qed.

Lemma nth_error_app_right {A} (l l' : list A) (i : nat) :
  nth_error (l ++ l') (List.length l + i) = nth_error l' i.
Proof.
  rewrite nth_error_app2 by lia. f_equal. lia.
Qed.

Lemma tool_turn_logged_longer (this : ReactRagAgent) (l l' : list AgentStep.t)
      (k : nat) (content : string) :
  tool_turn_logged now this query l k content ->
  tool_turn_logged now this query (l ++ l') k content.
Proof.
  intros (first & second & third).
  repeat split; now apply nth_error_app_left.
Qed.

Lemma log_answerFrame (g : Frame) (content : string) :
  log (answerFrame now g content)
  = (log g ++ [AgentStep.mk AgentStep.thought content (now (List.length (log g)));
               AgentStep.mk AgentStep.result content (now (S (List.length (log g))))])%list.
Proof.
  unfold log. cbn [answerFrame self]. rewrite !log_addStep. unfold push.
  now rewrite <- app_assoc, length_app, Nat.add_1_r.
Qed.

Lemma log_errorFrame (g : Frame) (e : Thrown) :
  log (errorFrame now g e)
  = (log g ++ [AgentStep.mk AgentStep.thought
                 ("Error during processing: " ++ errorMessage e)
                 (now (List.length (log g)))])%list.
Proof. reflexivity. Qed.

Lemma log_toolFrame (g : Frame) (content : string) :
  log (toolFrame now query g content)
  = (log g
       ++ [AgentStep.mk AgentStep.thought content (now (List.length (log g)));
           AgentStep.mk AgentStep.action (toolAction content query)
                        (now (S (List.length (log g))));
           AgentStep.mk AgentStep.observation (toolResult (self g) content query)
                        (now (S (S (List.length (log g)))))])%list.
Proof.
  unfold log. cbn [toolFrame self]. rewrite !log_addStep. unfold push.
  rewrite !length_app. cbn [List.length]. rewrite <- !app_assoc. cbn [app].
  rewrite <- Nat.add_assoc, Nat.add_1_r.
  replace (List.length (AgentState.steps (state (self g))) + (1 + 1))
    with (S (S (List.length (AgentState.steps (state (self g)))))) by lia.
  reflexivity.
Qed.

Lemma tool_turns_of_run (fuel : nat) (this : ReactRagAgent) (f : Frame) :
  while fuel now query (entry now query this) = Some f ->
  forall k msgs content,
    nth_error (invoked f) k = Some msgs ->
    S k < List.length (invoked f) ->
    invoke (model this) k msgs = Returns content ->
    tool_turn_logged now this query (log f) k content
    /\ nth_error (invoked f) (S k)
       = Some (msgs ++ [HumanMessage content;
                        HumanMessage (toolFollowUp this content query)])%list.
Proof.
  pose (turned := fun (l : list AgentStep.t) (sent : list (list BaseMessage))
                      k msgs content =>
                    tool_turn_logged now this query l k content
                    /\ nth_error sent (S k)
                       = Some (msgs ++ [HumanMessage content;
                                        HumanMessage (toolFollowUp this content query)])%list).
  assert (ending :
            forall g more,
              List.length (invoked g) = iterations g ->
              (forall k msgs content,
                  nth_error (invoked g) k = Some msgs ->
                  invoke (model this) k msgs = Returns content ->
                  turned (log g) (push (invoked g) (messages g)) k msgs content) ->
              forall k msgs content,
                nth_error (push (invoked g) (messages g)) k = Some msgs ->
                S k < List.length (push (invoked g) (messages g)) ->
                invoke (model this) k msgs = Returns content ->
                turned (log g ++ more)%list (push (invoked g) (messages g)) k msgs content).
  { intros g more called before k msgs content found inner response.
    unfold push in found, inner. rewrite length_app in inner. cbn in inner.
    rewrite nth_error_app1 in found by lia.
    destruct (before k msgs content found response) as [logged next].
    split; [now apply tool_turn_logged_longer | exact next]. }
  apply (while_frames_rule now query
           (fun g => model (self g) = model this
                     /\ documents (self g) = documents this
                     /\ List.length (invoked g) = iterations g
                     /\ List.length (log g) = 1 + 3 * iterations g
                     /\ forall k msgs content,
                         nth_error (invoked g) k = Some msgs ->
                         invoke (model this) k msgs = Returns content ->
                         turned (log g) (push (invoked g) (messages g)) k msgs content)
           (fun g => forall k msgs content,
                nth_error (invoked g) k = Some msgs ->
                S k < List.length (invoked g) ->
                invoke (model this) k msgs = Returns content ->
                turned (log g) (invoked g) k msgs content)).
  - intros g (_ & _ & called & _ & before) _ k msgs content found inner response.
    destruct (before k msgs content found response) as [logged next].
    split; trivial. unfold push in next. now rewrite nth_error_app1 in next by lia.
  - intros g content (_ & _ & called & _ & before) _ _ _.
    rewrite log_answerFrame. cbn [answerFrame invoked]. now apply ending.
  - intros g e (_ & _ & called & _ & before) _ _.
    rewrite log_errorFrame. cbn [errorFrame invoked]. now apply ending.
  - intros g content (same & docs & called & len & before) _ response _.
    rewrite same in response.
    rewrite log_toolFrame. cbn [toolFrame self invoked messages iterations].
    split; [exact same|]. split; [exact docs|].
    split; [unfold push; rewrite length_app; cbn; lia|].
    split; [rewrite length_app; cbn; lia|].
    intros k msgs c found response'.
    destruct (Nat.lt_ge_cases k (List.length (invoked g))) as [inside|beyond].
    + unfold push in found. rewrite nth_error_app1 in found by exact inside.
      destruct (before k msgs c found response') as [logged next].
      split; [now apply tool_turn_logged_longer|].
      unfold push at 1. rewrite nth_error_app1; trivial.
      unfold push. rewrite length_app. cbn. lia.
    + unfold push in found. rewrite nth_error_app2 in found by exact beyond.
      destruct (k - List.length (invoked g)) as [|d] eqn:diff; simpl in found;
        [|destruct d; discriminate].
      injection found as <-.
      assert (k = iterations g) by lia. subst k.
      assert (c = content) by congruence. subst c.
      rewrite (toolResult_documents (self g) this content docs).
      rewrite (toolFollowUp_documents (self g) this content docs).
      split.
      * unfold tool_turn_logged.
        replace (1 + 3 * iterations g) with (List.length (log g) + 0) by lia.
        replace (2 + 3 * iterations g) with (List.length (log g) + 1) by lia.
        replace (3 + 3 * iterations g) with (List.length (log g) + 2) by lia.
        rewrite !nth_error_app_right. cbn.
        rewrite Nat.add_0_r, Nat.add_1_r.
        replace (List.length (log g) + 2) with (S (S (List.length (log g)))) by lia.
        repeat split.
      * unfold push.
        replace (S (iterations g)) with (List.length (invoked g ++ [messages g]) + 0)
          by (rewrite length_app; cbn; lia).
        rewrite nth_error_app_right. cbn. now rewrite <- app_assoc.
  - cbn. split; [|split; [|split; [|split]]]; trivial.
    intros k msgs content found. destruct k; discriminate.
Qed.

End ToolTurns.

(** ** The run on the shared agent *)

Section SharedRuns.

Variable now : Clock.
Variable others : nat -> list Shared.Write.
Variable query : string.

(** *** Alone, the run is the one of [processQuery] above *)

Lemma addStep_sync (a : ReactRagAgent) (type : AgentStep.kind) (content : string) :
  Shared.addStep now (sync a) type content = sync (addStep now a type content).
Proof.
  unfold Shared.addStep, sync, addStep. cbn. f_equal.
  unfold push. rewrite length_app. cbn. lia.
Qed.

Lemma shared_sync (a : ReactRagAgent) : Shared.shared (sync a) = a.
Proof. reflexivity. Qed.

Lemma body_alone (f : Frame) :
  others (List.length (invoked f)) = [] ->
  Shared.body now others query (lift f)
  = match body now query f with
    | Next g => Shared.Next (lift g)
    | Break g => Shared.Break (lift g)
    end.
Proof.
  intros quiet. unfold Shared.body, body, lift.
  cbn [Shared.world Shared.messages Shared.iterations Shared.finalAnswer Shared.invoked].
  rewrite quiet. cbn [Shared.await fold_left]. cbv zeta. rewrite shared_sync.
  destruct (invoke (model (self f)) (List.length (invoked f)) (messages f))
    as [content|e]; [|now rewrite addStep_sync].
  rewrite !addStep_sync, !shared_sync.
  destruct (includes (toLowerCase content) "final answer"
            || includes (toLowerCase content) "answer:"); [reflexivity|].
  cbn [orb].
  destruct (maxIterations (addStep now (self f) AgentStep.thought content)
            <=? S (iterations f)); [reflexivity|].
  destruct (includes (toLowerCase content) "retrieve"
            || includes (toLowerCase content) "search");
    [reflexivity|].
  destruct (includes (toLowerCase content) "analyze"
            || includes (toLowerCase content) "extract");
    reflexivity.
Qed.

Lemma while_alone (fuel : nat) (f : Frame) :
  alone others ->
  Shared.while fuel now others query (lift f) = option_map lift (while fuel now query f).
Proof.
  intros quiet. revert f; induction fuel as [|fuel IH]; intros f; trivial.
  cbn [Shared.while while].
  change (Shared.iterations (lift f) <? maxIterations (Shared.shared (Shared.world (lift f))))
    with (iterations f <? maxIterations (self f)).
  destruct (iterations f <? maxIterations (self f)); [|reflexivity].
  rewrite body_alone by apply quiet.
  destruct (body now query f); [apply IH | reflexivity].
Qed.

Lemma processQuery_alone (fuel : nat) (this : ReactRagAgent) :
  alone others ->
  Shared.processQuery fuel now others this query = processQuery fuel now this query.
Proof.
  intros quiet. unfold Shared.processQuery, processQuery. cbv zeta.
  change (Shared.mkWorld (set_state this (AgentState.mk [] query [] true)) 0)
    with (sync (set_state this (AgentState.mk [] query [] true))).
  rewrite addStep_sync.
  change (Shared.mkFrame
            (sync (addStep now (set_state this (AgentState.mk [] query [] true))
                           AgentStep.thought
                           ("Analyzing query: " ++ DQUOTE ++ query ++ DQUOTE)))
            [SystemMessage SYSTEM_PROMPT; HumanMessage query] 0 EmptyString [])
    with (lift (entry now query this)).
  rewrite (while_alone fuel (entry now query this) quiet).
  fold (entry now query this).
  destruct (while fuel now query (entry now query this)); reflexivity.
Qed.

(** *** Whatever the others write *)

Lemma written_addStep (w w' : Shared.World) (type : AgentStep.kind) (content : string) :
  written now w w' -> written now w (Shared.addStep now w' type content).
Proof. intros before. exact (written_more now w w' (Shared.Logs type content) before). Qed.

Lemma written_await (ops : list Shared.Write) (w w' : Shared.World) :
  written now w w' -> written now w (Shared.await now ops w').
Proof.
  revert w'; induction ops as [|op ops IH]; intros w' before; trivial.
  apply IH. now apply written_more.
Qed.

(** A property of the agent that every write keeps holds after all of
    them. *)
Lemma written_rule (P : Shared.World -> Prop) :
  (forall w op, P w -> P (Shared.write now w op)) ->
  forall w w', P w -> written now w w' -> P w'.
Proof. intros keeps w w' start reached. induction reached; auto. Qed.

Lemma written_fixed (w w' : Shared.World) :
  written now w w' ->
  model (Shared.shared w') = model (Shared.shared w)
  /\ maxIterations (Shared.shared w') = maxIterations (Shared.shared w).
Proof.
  apply (written_rule
           (fun v => model (Shared.shared v) = model (Shared.shared w)
                     /\ maxIterations (Shared.shared v) = maxIterations (Shared.shared w)));
    [|split; reflexivity].
  intros v op same. now destruct op.
Qed.

(** One turn of the loop: some writes, one more iteration. *)
Lemma body_written (f : Shared.Frame) :
  exists g,
    (Shared.body now others query f = Shared.Next g
     \/ Shared.body now others query f = Shared.Break g)
    /\ written now (Shared.world f) (Shared.world g)
    /\ Shared.iterations g = S (Shared.iterations f).
Proof.
  pose proof (written_await (others (List.length (Shared.invoked f)))
                            (Shared.world f) (Shared.world f)
                            (written_nothing now (Shared.world f))) as awaited.
  unfold Shared.body. cbv zeta.
  destruct (invoke (model (Shared.shared (Shared.world f)))
                   (List.length (Shared.invoked f)) (Shared.messages f))
    as [content|e].
  - destruct (includes (toLowerCase content) "final answer"
              || includes (toLowerCase content) "answer:"
              || (maxIterations _ <=? S (Shared.iterations f))).
    { eexists. split; [right; reflexivity|]. cbn.
      split; [repeat apply written_addStep; exact awaited | reflexivity]. }
    destruct (includes (toLowerCase content) "retrieve"
              || includes (toLowerCase content) "search").
    { eexists. split; [left; reflexivity|]. cbn.
      split; [repeat apply written_addStep; exact awaited | reflexivity]. }
    destruct (includes (toLowerCase content) "analyze"
              || includes (toLowerCase content) "extract").
    { eexists. split; [left; reflexivity|]. cbn.
      split; [repeat apply written_addStep; exact awaited | reflexivity]. }
    eexists. split; [right; reflexivity|]. cbn.
    split; [repeat apply written_addStep; exact awaited | reflexivity].
  - eexists. split; [right; reflexivity|]. cbn.
    split; [repeat apply written_addStep; exact awaited | reflexivity].
Qed.

Lemma written_trans (w w' w'' : Shared.World) :
  written now w w' -> written now w' w'' -> written now w w''.
Proof. intros first second. induction second; [exact first | now apply written_more]. Qed.

Lemma shared_while_written (fuel : nat) (f f' : Shared.Frame) :
  Shared.while fuel now others query f = Some f' ->
  written now (Shared.world f) (Shared.world f').
Proof.
  revert f; induction fuel as [|fuel IH]; intros f; [discriminate|].
  cbn [Shared.while].
  destruct (Shared.iterations f <? maxIterations (Shared.shared (Shared.world f))).
  - destruct (body_written f) as (g & [next|break] & wrote & _).
    + rewrite next. intros left. exact (written_trans _ _ _ wrote (IH g left)).
    + rewrite break. intros left. injection left as <-. exact wrote.
  - intros left. injection left as <-. apply written_nothing.
Qed.

(** The loop on the shared agent is left too before the fuel runs out. *)
Lemma shared_while_returns (fuel : nat) (f : Shared.Frame) :
  maxIterations (Shared.shared (Shared.world f)) - Shared.iterations f < fuel ->
  exists f', Shared.while fuel now others query f = Some f'.
Proof.
  revert f; induction fuel as [|fuel IH]; intros f enough; [lia|].
  cbn [Shared.while].
  destruct (Shared.iterations f <? maxIterations (Shared.shared (Shared.world f)))
    eqn:test; [|eauto].
  apply Nat.ltb_lt in test.
  destruct (body_written f) as (g & [next|break] & wrote & turned).
  - rewrite next. apply IH.
    destruct (written_fixed _ _ wrote) as [_ same]. lia.
  - rewrite break. eauto.
Qed.

(** The run on the shared agent always returns, and the log it returns is
    the log of the agent after the writes of the run and of the others. *)
Lemma shared_run (fuel : nat) (this : ReactRagAgent) :
  maxIterations this < fuel ->
  exists r w,
    Shared.processQuery fuel now others this query = Some r
    /\ written now
         (Shared.mkWorld (set_state this (AgentState.mk [] query [] true)) 0) w
    /\ steps r = AgentState.steps (state (Shared.shared w))
    /\ agent r = Shared.shared w.
Proof.
  intros enough. unfold Shared.processQuery. cbv zeta.
  set (start := Shared.mkWorld (set_state this (AgentState.mk [] query [] true)) 0).
  set (opened := Shared.addStep now start AgentStep.thought
                   ("Analyzing query: " ++ DQUOTE ++ query ++ DQUOTE)).
  destruct (shared_while_returns
              fuel
              (Shared.mkFrame opened [SystemMessage SYSTEM_PROMPT; HumanMessage query]
                              0 EmptyString []))
    as [f left].
  { cbn. lia. }
  rewrite left.
  exists (mkRun (or_else (Shared.finalAnswer f) FALLBACK)
                (AgentState.steps (state (Shared.shared (Shared.world f))))
                (Shared.shared (Shared.write now (Shared.world f) Shared.Ends))
                (Shared.invoked f)),
         (Shared.write now (Shared.world f) Shared.Ends).
  split; [reflexivity|]. split; [|split; reflexivity].
  apply written_more.
  apply (written_trans _ opened).
  - apply written_addStep, written_nothing.
  - exact (shared_while_written fuel _ f left).
Qed.

(** *** The order of the timestamps *)

Lemma sorted_snoc (l : list nat) (n : nat) :
  StronglySorted lt l -> Forall (fun k => k < n) l -> StronglySorted lt (l ++ [n]).
Proof.
  induction 1 as [|k l sorted IH smaller]; intros below; simpl.
  - repeat constructor.
  - inversion below as [|? ? first rest]; subst.
    constructor; [now apply IH|].
    apply Forall_app. split; [exact smaller | repeat constructor; exact first].
Qed.

Lemma sorted_nth (l : list nat) :
  StronglySorted lt l ->
  forall i j a b,
    i <= j -> nth_error l i = Some a -> nth_error l j = Some b -> a <= b.
Proof.
  induction 1 as [|k l sorted IH smaller]; intros i j a b le at_i at_j.
  - destruct i; discriminate.
  - destruct i as [|i], j as [|j]; simpl in *; [| |lia|].
    + injection at_i as <-. injection at_j as <-. lia.
    + injection at_i as <-. apply nth_error_In in at_j.
      rewrite Forall_forall in smaller. specialize (smaller b at_j). lia.
    + apply (IH i j); trivial. lia.
Qed.

Lemma write_reading_order (w : Shared.World) (op : Shared.Write) :
  in_reading_order now (Shared.reads w) (AgentState.steps (state (Shared.shared w))) ->
  in_reading_order now (Shared.reads (Shared.write now w op))
                   (AgentState.steps (state (Shared.shared (Shared.write now w op)))).
Proof.
  intros (readings & stamps & sorted & below).
  destruct op as [other|type content| |docs]; cbn.
  - exists []. repeat split; constructor.
  - exists (readings ++ [Shared.reads w])%list. unfold push.
    rewrite !map_app, stamps. split; [reflexivity|].
    split; [now apply sorted_snoc|].
    apply Forall_app. split.
    + eapply Forall_impl; [|exact below]. cbn. lia.
    + repeat constructor.
  - now exists readings.
  - now exists readings.
Qed.

Lemma ordered_log (fuel : nat) (this : ReactRagAgent) :
  maxIterations this < fuel ->
  exists r,
    Shared.processQuery fuel now others this query = Some r
    /\ exists n, in_reading_order now n (steps r).
Proof.
  intros enough.
  destruct (shared_run fuel this enough) as (r & w & run & wrote & logged & _).
  exists r. split; trivial. exists (Shared.reads w). rewrite logged.
  revert wrote.
  apply (written_rule
           (fun v => in_reading_order now (Shared.reads v)
                                      (AgentState.steps (state (Shared.shared v))))).
  - apply write_reading_order.
  - exists []. repeat split; constructor.
Qed.

End SharedRuns.

(** *** C3 *)

(** The bound of the specification fails: four turns that each run the
    Retrieval Tool log three steps each, the fifth logs two, and with the
    opening step the log holds 15 entries, more than 2 * 5 + 1. *)
Lemma step_log_exceeds_eleven :
  exists r,
    processQuery 6 ticking (new_ReactRagAgent searching_model python_docs)
                 "Tell me about Python" = Some r
    /\ 2 * maxIterations (new_ReactRagAgent searching_model python_docs) + 1
       < List.length (steps r)
    /\ List.length (steps r) = 15.
Proof.
  eexists. split; [vm_compute; reflexivity|].
  split; vm_compute; [repeat constructor | reflexivity].
Qed.

(** No bound on the log holds of a run that another run overlaps: the
    array returned is the one of the shared agent and holds the steps of
    both.  Here the other run starts while the first call is awaited and
    runs one turn during each later call; the returned log holds 27
    steps, and the agent is left with the query of the other run. *)
Lemma overlapped_run_returns_merged_log :
  exists r,
    Shared.processQuery 6 ticking overlapping
                        (new_ReactRagAgent searching_model python_docs)
                        "Tell me about Python" = Some r
    /\ List.length (steps r) = 27
    /\ List.length (calls r) = 5
    /\ AgentState.currentQuery (getState (agent r)) = "Python".
Proof. eexists. split; [vm_compute; reflexivity|]. repeat split. Qed.

(** C3, amended.  Every run of [processQuery] that no other call of
    [processQuery] or [updateDocuments] on the same agent overlaps returns
    a step log of at most 3 * maxIterations entries (15 for the agent's
    maxIterations of 5), whatever the model replies: the opening step,
    three steps for each turn that runs a tool, and two steps for the turn
    that ends the run. *)
Theorem step_log_bound (fuel : nat) (now : Clock) (others : nat -> list Shared.Write)
        (this : ReactRagAgent) (query : string) :
  maxIterations this < fuel ->
  1 <= maxIterations this ->
  alone others ->
  exists r,
    Shared.processQuery fuel now others this query = Some r
    /\ List.length (steps r) <= 3 * maxIterations this.
Proof.
  intros enough positive quiet.
  rewrite (processQuery_alone now others query fuel this quiet).
  destruct (while_returns now query fuel (entry now query this)) as [f left].
  { now apply entry_enough_fuel. }
  destruct (processQuery_unfold now query fuel this f left) as (r & run & _ & logged & _).
  exists r. split; trivial. rewrite logged.
  exact (log_bound now query fuel this f positive left).
Qed.

Lemma step_log_bound_witness :
  exists r,
    Shared.processQuery 6 ticking (fun _ => [])
                        (new_ReactRagAgent searching_model python_docs)
                        "Tell me about Python" = Some r
    /\ List.length (steps r) <= 15.
Proof.
  apply (step_log_bound 6 ticking (fun _ => [])
           (new_ReactRagAgent searching_model python_docs) "Tell me about Python").
  - cbn. lia.
  - cbn. lia.
  - intros k. reflexivity.
Defined.

(** ** Properties of whole runs *)

(** X1.  Whatever the other requests write on the shared agent while a run
    awaits the model, the steps of the log that the run returns carry
    readings of the clock taken in the order of the log; so when the clock
    never goes back, the timestamps of the returned log never decrease,
    also when the log holds the steps of several runs. *)
Theorem log_timestamps_in_order (fuel : nat) (now : Clock)
        (others : nat -> list Shared.Write) (this : ReactRagAgent) (query : string) :
  maxIterations this < fuel ->
  exists r,
    Shared.processQuery fuel now others this query = Some r
    /\ (exists readings,
           map AgentStep.timestamp (steps r) = map now readings
           /\ StronglySorted lt readings)
    /\ ((forall i j, i <= j -> (now i <= now j)%Z) ->
        forall i j si sj,
          i <= j ->
          nth_error (steps r) i = Some si ->
          nth_error (steps r) j = Some sj ->
          (AgentStep.timestamp si <= AgentStep.timestamp sj)%Z).
Proof.
  intros enough.
  destruct (ordered_log now others query fuel this enough)
    as (r & run & n & readings & stamps & sorted & _).
  exists r. split; trivial. split; [now exists readings|].
  intros monotone i j si sj le at_i at_j.
  apply (map_nth_error AgentStep.timestamp) in at_i, at_j.
  rewrite stamps, nth_error_map in at_i, at_j.
  destruct (nth_error readings i) as [a|] eqn:read_i; [|discriminate].
  destruct (nth_error readings j) as [b|] eqn:read_j; [|discriminate].
  injection at_i as <-. injection at_j as <-.
  apply monotone. exact (sorted_nth readings sorted i j a b le read_i read_j).
Qed.

Lemma log_timestamps_in_order_witness :
  exists r,
    Shared.processQuery 6 ticking overlapping
                        (new_ReactRagAgent searching_model python_docs)
                        "Tell me about Python" = Some r
    /\ map AgentStep.timestamp (steps r)
       = [1; 2; 3; 4; 5; 6; 7; 8; 9; 10; 11; 12; 13; 14; 15; 16; 17; 18; 19; 20;
          21; 22; 23; 24; 25; 26; 27]%Z.
Proof.
  destruct (log_timestamps_in_order 6 ticking overlapping
              (new_ReactRagAgent searching_model python_docs) "Tell me about Python")
    as (r & run & _).
  - cbn. lia.
  - exists r. split; [exact run|].
    vm_compute in run. injection run as <-. reflexivity.
Defined.

(** X2.  The log of a run that nothing overlaps always has the same
    layout: the opening thought step, then a thought, an action and an
    observation step for each turn that ran a tool, then the last turn,
    which logs a thought and a result step when the last call of the model
    returned, and one thought step when it threw.  The turns that ran a
    tool are one fewer than the calls of the model, so at most
    maxIterations - 1. *)
Theorem step_log_kinds (fuel : nat) (now : Clock) (others : nat -> list Shared.Write)
        (this : ReactRagAgent) (query : string) :
  maxIterations this < fuel ->
  1 <= maxIterations this ->
  alone others ->
  exists r,
    Shared.processQuery fuel now others this query = Some r
    /\ exists toolTurns threw msgs,
        map AgentStep.type (steps r) = log_kinds toolTurns threw
        /\ List.length (calls r) = S toolTurns
        /\ S toolTurns <= maxIterations this
        /\ nth_error (calls r) toolTurns = Some msgs
        /\ if threw
           then exists e, invoke (model this) toolTurns msgs = Throws e
           else exists content, invoke (model this) toolTurns msgs = Returns content.
Proof.
  intros enough positive quiet.
  rewrite (processQuery_alone now others query fuel this quiet).
  destruct (run_of_frame now query fuel this enough)
    as (f & r & left & run & _ & logged & called).
  exists r. split; trivial. rewrite logged, called.
  exact (kinds_of_log now query fuel this f positive left).
Qed.

Lemma step_log_kinds_witness :
  exists r,
    Shared.processQuery 6 ticking (fun _ => []) python_agent "Tell me about Python"
    = Some r
    /\ map AgentStep.type (steps r) = [AgentStep.thought; AgentStep.thought].
Proof.
  destruct (step_log_kinds 6 ticking (fun _ => []) python_agent "Tell me about Python")
    as (r & run & _).
  - cbn. lia.
  - cbn. lia.
  - intros k. reflexivity.
  - exists r. split; [exact run|].
    vm_compute in run. injection run as <-. reflexivity.
Defined.

(** X3.  The result of a run comes from the last call of the model.  In a
    run that nothing overlaps: when that call returned, its reply is the
    content of the last two steps of the log, a thought step and the only
    result step, and it is the result unless it is empty, in which case
    the result is the fallback sentence; otherwise (the call threw, or no
    call was made) the log has no result step and the result is the
    fallback sentence. *)
Theorem answer_is_last_reply (fuel : nat) (now : Clock)
        (others : nat -> list Shared.Write) (this : ReactRagAgent) (query : string) :
  maxIterations this < fuel ->
  alone others ->
  exists r,
    Shared.processQuery fuel now others this query = Some r
    /\ ((no_result_step (steps r)
         /\ result r = FALLBACK
         /\ (calls r = []
             \/ exists before msgs e,
                 calls r = (before ++ [msgs])%list
                 /\ invoke (model this) (List.length before) msgs = Throws e))
        \/ exists earlier content before msgs,
            steps r
            = (earlier
                 ++ [AgentStep.mk AgentStep.thought content (now (List.length earlier));
                     AgentStep.mk AgentStep.result content
                                  (now (S (List.length earlier)))])%list
            /\ no_result_step earlier
            /\ calls r = (before ++ [msgs])%list
            /\ invoke (model this) (List.length before) msgs = Returns content
            /\ result r = (if truthy content then content else FALLBACK)).
Proof.
  intros enough quiet.
  rewrite (processQuery_alone now others query fuel this quiet).
  destruct (run_of_frame now query fuel this enough)
    as (f & r & left & run & answer & logged & called).
  exists r. split; trivial. rewrite answer, logged, called.
  destruct (ending_of_run now query fuel this f left)
    as [(clean & unset & last)
       |(earlier & content & before & msgs & shape & clean & sent & reply & set)].
  - left. rewrite unset. repeat split; trivial.
  - right. exists earlier, content, before, msgs. rewrite set. repeat split; trivial.
Qed.

Lemma answer_is_last_reply_witness :
  exists r,
    Shared.processQuery 6 ticking (fun _ => [])
                        (new_ReactRagAgent plain_model python_docs)
                        "Tell me about Python" = Some r
    /\ result r = "Python is a programming language".
Proof.
  destruct (answer_is_last_reply 6 ticking (fun _ => [])
              (new_ReactRagAgent plain_model python_docs) "Tell me about Python")
    as (r & run & _).
  - cbn. lia.
  - intros k. reflexivity.
  - exists r. split; [exact run|].
    vm_compute in run. injection run as <-. reflexivity.
Defined.

(** X4.  A run that nothing overlaps changes nothing of the agent but its
    state: the model, the document map and maxIterations are those of
    before, and the state holds the returned log, the query, an empty
    document list and isProcessing = false. *)
Theorem processQuery_leaves_agent (fuel : nat) (now : Clock)
        (others : nat -> list Shared.Write) (this : ReactRagAgent) (query : string) :
  maxIterations this < fuel ->
  alone others ->
  exists r,
    Shared.processQuery fuel now others this query = Some r
    /\ model (agent r) = model this
    /\ documents (agent r) = documents this
    /\ maxIterations (agent r) = maxIterations this
    /\ getState (agent r) = AgentState.mk (steps r) query [] false.
Proof.
  intros enough quiet.
  rewrite (processQuery_alone now others query fuel this quiet).
  destruct (run_of_frame now query fuel this enough)
    as (f & r & left & run & _ & logged & _).
  exists r. split; trivial.
  rewrite (processQuery_agent now query fuel this f r left run), logged.
  destruct (agent_of_run now query fuel this f left)
    as (same & docs & bound & asked & none & _).
  unfold getState. cbn. rewrite asked, none. auto.
Qed.

Lemma processQuery_leaves_agent_witness :
  exists r,
    Shared.processQuery 6 ticking (fun _ => []) python_agent "Tell me about Python"
    = Some r
    /\ model (agent r) = offline_model
    /\ documents (agent r) = python_docs
    /\ maxIterations (agent r) = 5
    /\ getState (agent r) = AgentState.mk (steps r) "Tell me about Python" [] false.
Proof.
  apply (processQuery_leaves_agent 6 ticking (fun _ => []) python_agent
           "Tell me about Python").
  - cbn. lia.
  - intros k. reflexivity.
Defined.

(** X5.  Runs do not leak into each other: on the agent that a run leaves,
    any later run gives what it gives on the agent of before the run. *)
Theorem later_runs_start_afresh (fuel : nat) (now : Clock) (this : ReactRagAgent)
        (query : string) :
  maxIterations this < fuel ->
  exists r,
    processQuery fuel now this query = Some r
    /\ forall fuel' now' query',
        processQuery fuel' now' (agent r) query' = processQuery fuel' now' this query'.
Proof.
  intros enough.
  destruct (run_of_frame now query fuel this enough)
    as (f & r & left & run & _ & _ & _).
  exists r. split; trivial. intros fuel' now' query'.
  rewrite (processQuery_agent now query fuel this f r left run).
  destruct (agent_of_run now query fuel this f left) as (same & docs & bound & _).
  unfold processQuery, set_state. cbn [model documents maxIterations].
  now rewrite same, docs, bound.
Qed.

Lemma later_runs_start_afresh_witness :
  exists r,
    processQuery 6 ticking python_agent "Tell me about Python" = Some r
    /\ processQuery 6 ticking (agent r) "Python" = processQuery 6 ticking python_agent "Python".
Proof.
  destruct (later_runs_start_afresh 6 ticking python_agent "Tell me about Python")
    as (r & run & afresh).
  - cbn. lia.
  - exists r. split; [exact run | apply afresh].
Defined.

(** X6.  The context sent to the model only grows.  Call number [k] of a
    run is sent [2 + 2 * k] messages, at most [2 * maxIterations] of them:
    the system prompt and the query first, then human messages only (the
    model's own replies are sent back as human messages too); and what an
    earlier call was sent is the beginning of what a later call is sent. *)
Theorem model_context_grows (fuel : nat) (now : Clock) (this : ReactRagAgent)
        (query : string) :
  maxIterations this < fuel ->
  exists r,
    processQuery fuel now this query = Some r
    /\ forall k msgs,
        nth_error (calls r) k = Some msgs ->
        List.length msgs = 2 + 2 * k
        /\ List.length msgs <= 2 * maxIterations this
        /\ firstn 2 msgs = [SystemMessage SYSTEM_PROMPT; HumanMessage query]
        /\ forallb isHumanMessage (skipn 1 msgs) = true
        /\ forall j earlier,
            j <= k -> nth_error (calls r) j = Some earlier ->
            earlier = firstn (2 + 2 * j) msgs.
Proof.
  intros enough.
  destruct (run_of_frame now query fuel this enough)
    as (f & r & left & run & _ & _ & called).
  exists r. split; trivial. rewrite called.
  destruct (contexts_of_run now query fuel this f left) as (head & human & sent).
  pose proof (calls_bound now query fuel this f left) as bound.
  intros k msgs found.
  assert (inside : k < List.length (invoked f)).
  { apply nth_error_Some. congruence. }
  destruct (sent k msgs found) as [-> fits].
  split; [rewrite length_firstn; lia|].
  split; [rewrite length_firstn; lia|].
  split; [rewrite firstn_firstn; now replace (Nat.min 2 (2 + 2 * k)) with 2 by lia|].
  split; [rewrite skipn_firstn_comm; now apply forallb_firstn|].
  intros j earlier le found'.
  destruct (sent j earlier found') as [-> _].
  rewrite firstn_firstn. now replace (Nat.min (2 + 2 * j) (2 + 2 * k)) with (2 + 2 * j) by lia.
Qed.

Lemma model_context_grows_witness :
  exists r,
    processQuery 6 ticking (new_ReactRagAgent searching_model python_docs)
                 "Tell me about Python" = Some r
    /\ map (@List.length BaseMessage) (calls r) = [2; 4; 6; 8; 10].
Proof.
  destruct (model_context_grows 6 ticking
              (new_ReactRagAgent searching_model python_docs) "Tell me about Python")
    as (r & run & _).
  - cbn. lia.
  - exists r. split; [exact run|].
    vm_compute in run. injection run as <-. reflexivity.
Defined.

(** X7.  A call of the model is followed by another one exactly when it
    returned a reply without a final-answer marker that asks for a tool
    (one of "retrieve", "search", "analyze", "extract", letter case
    ignored) and it was not the call of the last allowed turn. *)
Theorem run_continues_iff (fuel : nat) (now : Clock) (this : ReactRagAgent)
        (query : string) :
  maxIterations this < fuel ->
  exists r,
    processQuery fuel now this query = Some r
    /\ forall k msgs,
        nth_error (calls r) k = Some msgs ->
        (S k < List.length (calls r)
         <-> exists content,
            invoke (model this) k msgs = Returns content
            /\ hasMarker content = false
            /\ S (S k) <= maxIterations this
            /\ asksRetrieval content || asksAnalysis content = true).
Proof.
  intros enough.
  destruct (run_of_frame now query fuel this enough)
    as (f & r & left & run & _ & _ & called).
  exists r. split; trivial. rewrite called.
  intros k msgs found.
  destruct (continuation_of_run now query fuel this f left k msgs found) as [inner last].
  split; [exact inner|].
  intros (content & reply & goes).
  assert (inside : k < List.length (invoked f)).
  { apply nth_error_Some. congruence. }
  destruct (Nat.eq_dec (S k) (List.length (invoked f))) as [islast|]; [|lia].
  destruct (last islast) as [(e & threw)|(c & reply' & stop)].
  - congruence.
  - assert (c = content) by congruence. subst c. now destruct stop.
Qed.

Lemma run_continues_iff_witness :
  exists r,
    processQuery 6 ticking (new_ReactRagAgent plain_model python_docs)
                 "Tell me about Python" = Some r
    /\ List.length (calls r) = 1.
Proof.
  destruct (run_continues_iff 6 ticking
              (new_ReactRagAgent plain_model python_docs) "Tell me about Python")
    as (r & run & _).
  - cbn. lia.
  - exists r. split; [exact run|].
    vm_compute in run. injection run as <-. reflexivity.
Defined.

(** X8.  In a run that nothing overlaps, a turn that is not the last one
    ran a tool on the reply it received: the log holds, at the places of
    that turn, the reply as a thought step, the action step of the tool
    and the output of the tool as the observation step; and the next call
    is sent the same context with the reply and the output of the tool
    added, both as human messages. *)
Theorem tool_turn_is_logged_and_sent (fuel : nat) (now : Clock)
        (others : nat -> list Shared.Write) (this : ReactRagAgent) (query : string) :
  maxIterations this < fuel ->
  alone others ->
  exists r,
    Shared.processQuery fuel now others this query = Some r
    /\ forall k msgs content,
        nth_error (calls r) k = Some msgs ->
        S k < List.length (calls r) ->
        invoke (model this) k msgs = Returns content ->
        nth_error (steps r) (1 + 3 * k)
        = Some (AgentStep.mk AgentStep.thought content (now (1 + 3 * k)))
        /\ nth_error (steps r) (2 + 3 * k)
           = Some (AgentStep.mk AgentStep.action (toolAction content query)
                                (now (2 + 3 * k)))
        /\ nth_error (steps r) (3 + 3 * k)
           = Some (AgentStep.mk AgentStep.observation (toolResult this content query)
                                (now (3 + 3 * k)))
        /\ nth_error (calls r) (S k)
           = Some (msgs ++ [HumanMessage content;
                            HumanMessage (toolFollowUp this content query)])%list.
Proof.
  intros enough quiet.
  rewrite (processQuery_alone now others query fuel this quiet).
  destruct (run_of_frame now query fuel this enough)
    as (f & r & left & run & _ & logged & called).
  exists r. split; trivial. rewrite logged, called.
  intros k msgs content found inner reply.
  destruct (tool_turns_of_run now query fuel this f left k msgs content found inner reply)
    as [(first & second & third) next].
  auto.
Qed.

Lemma tool_turn_is_logged_and_sent_witness :
  exists r,
    Shared.processQuery 6 ticking (fun _ => [])
                        (new_ReactRagAgent searching_model python_docs)
                        "Tell me about Python" = Some r
    /\ nth_error (steps r) 3
       = Some (AgentStep.mk AgentStep.observation NO_DOCUMENTS 3%Z).
Proof.
  destruct (tool_turn_is_logged_and_sent 6 ticking (fun _ => [])
              (new_ReactRagAgent searching_model python_docs) "Tell me about Python")
    as (r & run & turns).
  - cbn. lia.
  - intros k. reflexivity.
  - exists r. split; [exact run|].
    assert (first : nth_error (calls r) 0
                    = Some [SystemMessage SYSTEM_PROMPT; HumanMessage "Tell me about Python"]).
    { vm_compute in run. injection run as <-. reflexivity. }
    assert (more : 1 < List.length (calls r)).
    { vm_compute in run. injection run as <-. cbn. lia. }
    destruct (turns 0 _ "I should search the documents" first more eq_refl)
      as (_ & _ & observed & _).
    exact observed.
Defined.

(** ** More on the Retrieval Tool *)

Section RetrievalFacts.

Lemma prefix_iff (p s : string) :
  prefix p s = true <-> exists post, s = p ++ post.
Proof.
  revert s; induction p as [|a p IH]; intros s.
  - rewrite prefix_empty. split; trivial. intros _. now exists s.
  - destruct s as [|b s]; simpl.
    + split; [discriminate | intros [post absurd]; discriminate].
    + destruct (ascii_dec a b) as [->|differ].
      * rewrite IH. split; intros [post shape]; exists post; congruence.
      * split; [discriminate|]. intros [post shape]. congruence.
Qed.

(** [includes] is the test that one string is a part of the other. *)
Lemma includes_iff (s p : string) :
  includes s p = true <-> exists pre post, s = pre ++ p ++ post.
Proof.
  induction s as [|b s IH]; cbn [includes].
  - rewrite orb_false_r, prefix_iff. split.
    + intros [post shape]. now exists EmptyString, post.
    + intros (pre & post & shape). destruct pre; [|discriminate]. now exists post.
  - rewrite orb_true_iff, prefix_iff, IH. split.
    + intros [[post shape]|(pre & post & shape)].
      * now exists EmptyString, post.
      * exists (String b pre), post. simpl. congruence.
    + intros (pre & post & shape). destruct pre as [|c pre]; simpl in shape.
      * left. now exists post.
      * right. injection shape as _ shape. now exists pre, post.
Qed.

Lemma string_app_assoc (a b c : string) : (a ++ b) ++ c = a ++ b ++ c.
Proof. induction a; simpl; congruence. Qed.

Lemma includes_trans (a b c : string) :
  includes a b = true -> includes b c = true -> includes a c = true.
Proof.
  rewrite !includes_iff. intros (pre & post & ->) (pre' & post' & ->).
  exists (pre ++ pre'), (post' ++ post).
  now rewrite !string_app_assoc.
Qed.

Lemma string_length_app (a b : string) :
  String.length (a ++ b) = String.length a + String.length b.
Proof. induction a; simpl; congruence. Qed.

Lemma substring0_length (n : nat) (s : string) :
  String.length (substring0 n s) = Nat.min n (String.length s).
Proof.
  unfold substring0. revert s; induction n as [|n IH]; intros [|c s]; simpl; trivial.
  now rewrite IH.
Qed.

(** The length of an excerpt: the content counts for 500 units at most. *)
Lemma excerpt_length (title content : string) :
  String.length (excerpt title content)
  = String.length title + 6 + Nat.min 500 (String.length content).
Proof.
  unfold excerpt. rewrite !string_length_app, substring0_length. cbn. lia.
Qed.

Lemma join_excerpts_length (docs : JsMap) :
  String.length (join DELIMITER (map Spec.excerpt_of docs)) <= excerpts_budget docs.
Proof.
  induction docs as [|[title content] docs IH]; [simpl; lia|].
  destruct docs as [|next docs].
  - cbn [map join excerpts_budget fold_right]. unfold Spec.excerpt_of.
    rewrite excerpt_length. cbn [fst snd]. lia.
  - rewrite map_cons, join_cons by discriminate.
    cbn [excerpts_budget fold_right] in *. unfold Spec.excerpt_of at 1.
    rewrite !string_length_app, excerpt_length. cbn [fst snd].
    change (String.length DELIMITER) with 7. lia.
Qed.

Lemma excerpts_budget_filter (f : string * string -> bool) (docs : JsMap) :
  excerpts_budget (filter f docs) <= excerpts_budget docs.
Proof.
  induction docs as [|doc docs IH]; simpl; trivial.
  destruct (f doc); simpl; lia.
Qed.

Lemma join_excerpts_not_sentinel (docs : JsMap) :
  docs <> [] -> join DELIMITER (map Spec.excerpt_of docs) <> NO_DOCUMENTS.
Proof.
  destruct docs as [|doc docs]; [congruence|]. intros _.
  destruct docs; simpl; discriminate.
Qed.

End RetrievalFacts.

Lemma sentinel_when_nothing_matches (this : ReactRagAgent) (phrase : string) :
  retrieveDocuments this phrase = NO_DOCUMENTS
  <-> forall title content,
      In (title, content) (documents this) ->
      includes (toLowerCase title) (toLowerCase phrase) = false
      /\ includes (toLowerCase content) (toLowerCase phrase) = false.
Proof.
  rewrite retrieveDocuments_unfold. unfold Spec.retrieval.
  destruct (filter (Spec.matching phrase) (documents this)) as [|hit hits] eqn:found.
  - split; trivial. intros _ title content member.
    rewrite !includes_toLowerCase. apply orb_false_iff.
    destruct (Spec.matching phrase (title, content)) eqn:matches; trivial.
    assert (kept : In (title, content) (filter (Spec.matching phrase) (documents this))).
    { apply filter_In. now split. }
    rewrite found in kept. contradiction.
  - split.
    + intros absurd. now apply join_excerpts_not_sentinel in absurd.
    + intros none. exfalso.
      assert (kept : In hit (filter (Spec.matching phrase) (documents this))).
      { rewrite found. now left. }
      apply filter_In in kept as [member matches]. destruct hit as [title content].
      destruct (none title content member) as [no_title no_content].
      unfold Spec.matching in matches. cbn [fst snd] in matches.
      rewrite <- !includes_toLowerCase, no_title, no_content in matches. discriminate.
Qed.

(** X9.  The sentinel of the Retrieval Tool is never ambiguous: the result
    is the sentinel exactly when no document of the map has the phrase in
    its lowered title or content. *)
Theorem retrieveDocuments_sentinel_iff (this : ReactRagAgent) (phrase : string) :
  retrieveDocuments this phrase = NO_DOCUMENTS
  <-> forall title content,
      In (title, content) (documents this) ->
      includes (toLowerCase title) (toLowerCase phrase) = false
      /\ includes (toLowerCase content) (toLowerCase phrase) = false.
Proof. exact (sentinel_when_nothing_matches this phrase). Qed.

(** X10.  The output of the Retrieval Tool is bounded whatever the size of
    the documents: each document adds at most its title and 513 units (500
    of them from the content), so the output has at most 28 units, the
    length of the sentinel, plus that sum over the map. *)
Theorem retrieveDocuments_length (this : ReactRagAgent) (phrase : string) :
  String.length (retrieveDocuments this phrase)
  <= 28 + excerpts_budget (documents this).
Proof.
  rewrite retrieveDocuments_unfold. unfold Spec.retrieval.
  pose proof (excerpts_budget_filter (Spec.matching phrase) (documents this)) as less.
  pose proof (join_excerpts_length (filter (Spec.matching phrase) (documents this))) as fits.
  destruct (filter (Spec.matching phrase) (documents this)); [cbn; lia | lia].
Qed.

(** X11.  A phrase that is a part of another one (letter case ignored)
    retrieves whenever the longer phrase does: if the longer phrase finds a
    document, so does the shorter one. *)
Theorem shorter_phrase_retrieves (this : ReactRagAgent) (long short : string) :
  includes (toLowerCase long) (toLowerCase short) = true ->
  retrieveDocuments this long <> NO_DOCUMENTS ->
  retrieveDocuments this short <> NO_DOCUMENTS.
Proof.
  intros part found none. apply found.
  apply sentinel_when_nothing_matches. intros title content member.
  destruct (proj1 (sentinel_when_nothing_matches this short) none title content member)
    as [no_title no_content].
  split.
  - destruct (includes (toLowerCase title) (toLowerCase long)) eqn:has; trivial.
    now rewrite (includes_trans _ _ _ has part) in no_title.
  - destruct (includes (toLowerCase content) (toLowerCase long)) eqn:has; trivial.
    now rewrite (includes_trans _ _ _ has part) in no_content.
Qed.

Lemma shorter_phrase_retrieves_witness :
  retrieveDocuments python_agent "Python" <> NO_DOCUMENTS
  /\ retrieveDocuments python_agent "great" <> NO_DOCUMENTS.
Proof.
  split.
  - apply (shorter_phrase_retrieves python_agent "Python is great" "Python").
    + reflexivity.
    + vm_compute. discriminate.
  - apply (shorter_phrase_retrieves python_agent "Python is great" "great").
    + reflexivity.
    + vm_compute. discriminate.
Defined.

(** ** More on the Analysis Tool *)

Section AnalysisFacts.

Lemma lower_unit_space (c : ascii) :
  Ascii.eqb (lower_unit c) " " = Ascii.eqb c " ".
Proof. destruct c as [[] [] [] [] [] [] [] []]; reflexivity. Qed.

(** Lowering a query and splitting it at spaces commute. *)
Lemma splitUnit_toLowerCase (query : string) :
  splitUnit " " (toLowerCase query) = map toLowerCase (splitUnit " " query).
Proof.
  induction query as [|c rest IH]; trivial.
  cbn [toLowerCase splitUnit]. rewrite lower_unit_space, IH.
  destruct (Ascii.eqb c " "); trivial.
  destruct (splitUnit " " rest); reflexivity.
Qed.

(** The output of the Analysis Tool from the lowered words of the query. *)
Lemma analyzeText_lowered_words (this : ReactRagAgent) (text query : string) :
  analyzeText this text query
  = let relevant :=
        filter (fun s => existsb (fun low => includes (toLowerCase s) low)
                                 (splitUnit " " (toLowerCase query)))
               (filter (fun s => truthy (trim s)) (splitRuns sentence_end false text)) in
    if 0 <? List.length relevant
    then "Key findings:" ++ LF ++ join LF (slice0 3 relevant)
    else NO_FINDINGS.
Proof.
  unfold analyzeText. cbv zeta.
  rewrite (filter_ext
             (fun s => existsb (fun low => includes (toLowerCase s) low)
                               (splitUnit " " (toLowerCase query)))
             (fun s => existsb (fun word => includes (toLowerCase s) (toLowerCase word))
                               (splitUnit " " query))); trivial.
  intros s. rewrite splitUnit_toLowerCase. symmetry. apply existsb_through_map.
Qed.

(** An empty word is contained in every sentence. *)
Lemma empty_word_keeps_all (words : list string) (sentences : list string) :
  In EmptyString words ->
  filter (fun s => existsb (fun word => includes (toLowerCase s) (toLowerCase word)) words)
         sentences
  = sentences.
Proof.
  intros empty. apply filter_all. apply Forall_forall. intros s _.
  apply existsb_exists. exists EmptyString. split; trivial. apply includes_empty.
Qed.

(** Where [split(" ")] leaves an empty word. *)
Lemma splitUnit_not_nil (sep : ascii) (s : string) : splitUnit sep s <> [].
Proof.
  destruct s as [|c s]; simpl; [discriminate|].
  destruct (Ascii.eqb c sep); [discriminate|].
  destruct (splitUnit sep s); discriminate.
Qed.

Lemma splitUnit_app_space (pre post : string) :
  splitUnit " " (pre ++ String " " post)
  = (removelast (splitUnit " " pre)
       ++ last (splitUnit " " pre) EmptyString :: splitUnit " " post)%list.
Proof.
  induction pre as [|c pre IH]; [reflexivity|].
  cbn [append splitUnit]. rewrite IH.
  destruct (Ascii.eqb c " ").
  - pose proof (splitUnit_not_nil " " pre) as some.
    destruct (splitUnit " " pre) as [|piece pieces]; [congruence|]. reflexivity.
  - pose proof (splitUnit_not_nil " " pre) as some.
    destruct (splitUnit " " pre) as [|piece pieces]; [congruence|].
    destruct pieces; reflexivity.
Qed.

Lemma empty_word_cases (query : string) :
  query = EmptyString
  \/ (exists rest, query = String " " rest)
  \/ (exists rest, query = rest ++ " ")
  \/ (exists pre post, query = pre ++ "  " ++ post) ->
  In EmptyString (splitUnit " " query).
Proof.
  intros [->|[[rest ->]|[[rest ->]|(pre & post & ->)]]].
  - now left.
  - now left.
  - rewrite splitUnit_app_space. apply in_or_app. right. right. now left.
  - change ("  " ++ post) with (String " " (String " " post)).
    rewrite splitUnit_app_space. apply in_or_app. right. right. now left.
Qed.

(** The pieces of [splitRuns] are made of the units of the string that are
    not separators. *)
Lemma splitRuns_units (sep p : ascii -> bool) (inRun : bool) (s : string) :
  all_units (fun c => sep c || p c) s = true ->
  Forall (fun piece => all_units p piece = true) (splitRuns sep inRun s).
Proof.
  revert inRun; induction s as [|c s IH]; intros inRun; simpl.
  - repeat constructor.
  - intros units. apply andb_prop in units as [here rest].
    destruct (sep c) eqn:separates.
    + destruct inRun; [|constructor; [reflexivity|]]; now apply IH.
    + specialize (IH false rest).
      destruct (splitRuns sep false s) as [|piece pieces].
      * repeat constructor. simpl. simpl in here. now rewrite here.
      * inversion IH as [|? ? first others]; subst.
        constructor; trivial. simpl. simpl in here. now rewrite here, first.
Qed.

Lemma all_units_or_negb (sep : ascii -> bool) (s : string) :
  all_units (fun c => sep c || negb (sep c)) s = true.
Proof. induction s as [|c s IH]; simpl; trivial. rewrite IH. now destruct (sep c). Qed.

Lemma all_units_app (p : ascii -> bool) (a b : string) :
  all_units p (a ++ b) = all_units p a && all_units p b.
Proof. induction a as [|c a IH]; simpl; trivial. now rewrite IH, andb_assoc. Qed.

Lemma all_units_join (p : ascii -> bool) (sep : string) (l : list string) :
  all_units p sep = true ->
  Forall (fun piece => all_units p piece = true) l ->
  all_units p (join sep l) = true.
Proof.
  intros separator. induction 1 as [|piece pieces first _ IH]; trivial.
  destruct pieces as [|next pieces]; [exact first|].
  rewrite join_cons by discriminate.
  now rewrite !all_units_app, first, separator, IH.
Qed.

Lemma blank_all_units (s : string) : blank s = all_units isWhiteSpace s.
Proof. induction s as [|c s IH]; simpl; congruence. Qed.

Lemma Forall_filter {A} (P : A -> Prop) (f : A -> bool) (l : list A) :
  Forall P l -> Forall P (filter f l).
Proof.
  induction 1 as [|x l px _ IH]; simpl; [constructor|].
  destruct (f x); [constructor|]; trivial.
Qed.

Lemma Forall_firstn {A} (P : A -> Prop) (n : nat) (l : list A) :
  Forall P l -> Forall P (firstn n l).
Proof.
  intros all. revert n. induction all as [|x l px _ IH]; intros [|n]; simpl;
    constructor; auto.
Qed.

End AnalysisFacts.

(** X12.  Both tools ignore the letter case of what they are asked: two
    phrases, or two queries, that are equal once lowered give the same
    output. *)
Theorem tools_ignore_case_of_request (this : ReactRagAgent)
        (text request request' : string) :
  toLowerCase request = toLowerCase request' ->
  retrieveDocuments this request = retrieveDocuments this request'
  /\ analyzeText this text request = analyzeText this text request'.
Proof.
  intros same. split.
  - unfold retrieveDocuments. now rewrite same.
  - now rewrite !analyzeText_lowered_words, same.
Qed.

Lemma tools_ignore_case_of_request_witness :
  retrieveDocuments python_agent "PYTHON is GREAT"
  = retrieveDocuments python_agent "python is great"
  /\ analyzeText python_agent "Cats are cute. Python is great." "PYTHON is GREAT"
     = analyzeText python_agent "Cats are cute. Python is great." "python is great".
Proof.
  apply (tools_ignore_case_of_request python_agent).
  reflexivity.
Defined.

(** X13.  When [split(" ")] leaves an empty word in the query (the query is
    empty, starts or ends with a space, or has two spaces in a row), the
    Analysis Tool keeps every sentence that is not blank, whatever the
    other words: it returns the first three of them, or the sentinel when
    the text has none. *)
Theorem analyzeText_empty_word (this : ReactRagAgent) (text query : string) :
  query = EmptyString
  \/ (exists rest, query = String " " rest)
  \/ (exists rest, query = rest ++ " ")
  \/ (exists pre post, query = pre ++ "  " ++ post) ->
  analyzeText this text query
  = match filter (fun s => truthy (trim s)) (splitRuns sentence_end false text) with
    | [] => NO_FINDINGS
    | sentences => "Key findings:" ++ LF ++ join LF (firstn 3 sentences)
    end.
Proof.
  intros spaced. apply empty_word_cases in spaced.
  unfold analyzeText. cbv zeta. rewrite (empty_word_keeps_all _ _ spaced).
  destruct (filter (fun s => truthy (trim s)) (splitRuns sentence_end false text));
    reflexivity.
Qed.

Lemma analyzeText_empty_word_witness :
  analyzeText python_agent "Cats are cute. Dogs bark! Is it so? Yes." EmptyString
  = "Key findings:" ++ LF ++ "Cats are cute" ++ LF ++ " Dogs bark" ++ LF ++ " Is it so".
Proof.
  rewrite (analyzeText_empty_word python_agent
             "Cats are cute. Dogs bark! Is it so? Yes." EmptyString).
  - reflexivity.
  - now left.
Defined.

(** X14.  What the Analysis Tool returns is the sentinel or a block without
    any full stop, exclamation mark or question mark: the sentences it
    lists have lost their punctuation. *)
Theorem analyzeText_findings_unpunctuated (this : ReactRagAgent) (text query : string) :
  analyzeText this text query = NO_FINDINGS
  \/ all_units (fun c => negb (sentence_end c)) (analyzeText this text query) = true.
Proof.
  unfold analyzeText. cbv zeta.
  set (relevant := filter _ (filter _ _)).
  destruct (0 <? List.length relevant); [right | now left].
  rewrite !all_units_app.
  replace (all_units (fun c => negb (sentence_end c)) "Key findings:") with true
    by reflexivity.
  replace (all_units (fun c => negb (sentence_end c)) LF) with true by reflexivity.
  cbn [andb].
  apply all_units_join; [reflexivity|].
  unfold slice0. apply Forall_firstn. unfold relevant.
  do 2 apply Forall_filter.
  apply splitRuns_units, all_units_or_negb.
Qed.

(** X15.  A text made of white space and of full stops, exclamation marks
    and question marks only has no sentence: the Analysis Tool returns the
    sentinel on it, whatever the query. *)
Theorem analyzeText_blank_text (this : ReactRagAgent) (text query : string) :
  all_units (fun c => sentence_end c || isWhiteSpace c) text = true ->
  analyzeText this text query = NO_FINDINGS.
Proof.
  intros empty. unfold analyzeText. cbv zeta.
  assert (none : filter (fun s => truthy (trim s)) (splitRuns sentence_end false text) = []).
  { pose proof (splitRuns_units sentence_end isWhiteSpace false text empty) as pieces.
    induction pieces as [|piece pieces white _ IH]; trivial.
    simpl. now rewrite truthy_trim, blank_all_units, white. }
  now rewrite none.
Qed.

Lemma analyzeText_blank_text_witness :
  analyzeText python_agent " ...  ?! " EmptyString = NO_FINDINGS.
Proof.
  apply (analyzeText_blank_text python_agent " ...  ?! " EmptyString).
  reflexivity.
Defined.

(** ** What the search pattern extracts *)

Section Extraction.

Variable ignoreCase : bool.

Lemma greedy_star_sound (ok : ascii -> bool) (k : Continuation)
      (cap : option string) (s : string) (z : State) :
  greedy_star ok k cap s = Some z ->
  exists w rest, s = w ++ rest /\ all_units ok w = true /\ k (rest, cap) = Some z.
Proof.
  induction s as [|ch s IH]; simpl.
  - intros found. now exists EmptyString, EmptyString.
  - destruct (ok ch) eqn:fits.
    + intros found. apply first_success_cases in found as [longer|here].
      * destruct (IH longer) as (w & rest & -> & units & continued).
        exists (String ch w), rest. simpl. now rewrite fits, units.
      * now exists EmptyString, (String ch s).
    + intros found. now exists EmptyString, (String ch s).
Qed.

Lemma lazy_star_sound (ok : ascii -> bool) (k : Continuation)
      (cap : option string) (s : string) (z : State) :
  lazy_star ok k cap s = Some z ->
  exists w rest, s = w ++ rest /\ all_units ok w = true /\ k (rest, cap) = Some z.
Proof.
  induction s as [|ch s IH]; simpl; intros found;
    apply first_success_cases in found as [here|longer].
  - now exists EmptyString, EmptyString.
  - discriminate.
  - now exists EmptyString, (String ch s).
  - destruct (ok ch) eqn:fits; [|discriminate].
    destruct (IH longer) as (w & rest & -> & units & continued).
    exists (String ch w), rest. simpl. now rewrite fits, units.
Qed.

(** Whatever the matcher finds, it found by reading a string of the
    pattern and handing the rest to the continuation. *)
Lemma matcher_sound (r : regex) :
  forall (x : State) (k : Continuation) (z : State),
    matcher ignoreCase r x k = Some z ->
    exists w rest cap,
      fst x = w ++ rest /\ derives ignoreCase r w /\ k (rest, cap) = Some z.
Proof.
  induction r as [|a|r1 IH1 r2 IH2|r1 IH1 r2 IH2|r1 IH1|greedy a|a|r1 IH1];
    intros [s cap0] k z; cbn [matcher fst snd].
  - intros found. exists EmptyString, s, cap0. repeat split; trivial. constructor.
  - destruct s as [|ch rest]; [discriminate|].
    destruct (atom_matches ignoreCase a ch) eqn:fits; [|discriminate].
    intros found. exists (String ch EmptyString), rest, cap0.
    repeat split; trivial. now constructor.
  - intros found.
    destruct (IH1 _ _ _ found) as (w1 & rest1 & cap1 & shape1 & first & found2).
    destruct (IH2 _ _ _ found2) as (w2 & rest2 & cap2 & shape2 & second & continued).
    cbn [fst] in *. subst. exists (w1 ++ w2), rest2, cap2.
    repeat split; trivial.
    + symmetry. apply string_app_assoc.
    + now constructor.
  - intros found. apply first_success_cases in found as [left|right].
    + destruct (IH1 _ _ _ left) as (w & rest & cap & shape & reads & continued).
      exists w, rest, cap. repeat split; trivial. now apply derives_alt_left.
    + destruct (IH2 _ _ _ right) as (w & rest & cap & shape & reads & continued).
      exists w, rest, cap. repeat split; trivial. now apply derives_alt_right.
  - intros found. apply first_success_cases in found as [taken|skipped].
    + destruct (IH1 _ _ _ taken) as (w & rest & cap & shape & reads & continued).
      exists w, rest, cap. repeat split; trivial. now apply derives_opt_some.
    + exists EmptyString, s, cap0. repeat split; trivial. constructor.
  - destruct greedy; intros found.
    + destruct (greedy_star_sound _ _ _ _ _ found) as (w & rest & -> & units & continued).
      exists w, rest, cap0. repeat split; trivial. now constructor.
    + destruct (lazy_star_sound _ _ _ _ _ found) as (w & rest & -> & units & continued).
      exists w, rest, cap0. repeat split; trivial. now constructor.
  - destruct s as [|ch s]; [discriminate|].
    destruct (atom_matches ignoreCase a ch) eqn:fits; [|discriminate].
    intros found.
    destruct (greedy_star_sound _ _ _ _ _ found) as (w & rest & -> & units & continued).
    exists (String ch w), rest, cap0. repeat split; trivial. now constructor.
  - intros found.
    destruct (IH1 _ _ _ found) as (w & rest & cap & shape & reads & continued).
    cbn [fst] in *. exists w, rest, (Some (consumed s rest)).
    repeat split; trivial. now constructor.
Qed.

Lemma seq_sound (r1 r2 : regex) (x : State) (k : Continuation) (z : State) :
  matcher ignoreCase (Seq r1 r2) x k = Some z ->
  exists w rest cap,
    fst x = w ++ rest /\ derives ignoreCase r1 w
    /\ matcher ignoreCase r2 (rest, cap) k = Some z.
Proof. cbn [matcher]. intros found. exact (matcher_sound r1 _ _ _ found). Qed.

(** A greedy star takes all it can when what follows never fails. *)
Lemma greedy_star_never_fails (ok : ascii -> bool) (k : Continuation)
      (cap : option string) (s : string) :
  (forall y, k y <> None) ->
  greedy_star ok k cap s = k (dropWhile ok s, cap).
Proof.
  intros total. induction s as [|ch s IH]; simpl; trivial.
  destruct (ok ch); trivial. rewrite IH.
  destruct (k (dropWhile ok s, cap)) eqn:continued; trivial.
  now apply total in continued.
Qed.

Lemma takeWhile_dropWhile (ok : ascii -> bool) (s : string) :
  s = takeWhile ok s ++ dropWhile ok s.
Proof. induction s as [|ch s IH]; simpl; trivial. destruct (ok ch); simpl; congruence. Qed.

Lemma takeWhile_units (ok : ascii -> bool) (s : string) :
  all_units ok (takeWhile ok s) = true.
Proof.
  induction s as [|ch s IH]; simpl; trivial.
  destruct (ok ch) eqn:fits; simpl; trivial. now rewrite fits.
Qed.

Lemma dropWhile_stops (ok : ascii -> bool) (s : string) :
  dropWhile ok s = EmptyString
  \/ exists ch rest, dropWhile ok s = String ch rest /\ ok ch = false.
Proof.
  induction s as [|ch s IH]; simpl; auto.
  destruct (ok ch) eqn:fits; trivial. right. now exists ch, s.
Qed.

Lemma consumed_app (w rest : string) : consumed (w ++ rest) rest = w.
Proof.
  unfold consumed, substring0. rewrite string_length_app.
  replace (String.length w + String.length rest - String.length rest)
    with (String.length w) by lia.
  induction w as [|ch w IH]; simpl.
  - destruct rest; reflexivity.
  - now rewrite IH.
Qed.

(** The capturing group at the end of a pattern: it takes the longest run
    of units of its class. *)
Lemma final_group_plus (a : atom) (s : string) (cap : option string) (z : State) :
  matcher ignoreCase (Group (Plus a)) (s, cap) Some = Some z ->
  exists ch rest,
    s = String ch rest
    /\ atom_matches ignoreCase a ch = true
    /\ z = (dropWhile (atom_matches ignoreCase a) rest,
            Some (String ch (takeWhile (atom_matches ignoreCase a) rest))).
Proof.
  cbn [matcher fst snd].
  destruct s as [|ch rest]; [discriminate|].
  destruct (atom_matches ignoreCase a ch) eqn:fits; [|discriminate].
  rewrite greedy_star_never_fails by discriminate. cbn [fst].
  intros found. injection found as <-. exists ch, rest. repeat split; trivial.
  f_equal. f_equal.
  rewrite <- (consumed_app (String ch (takeWhile (atom_matches ignoreCase a) rest))
                           (dropWhile (atom_matches ignoreCase a) rest)).
  cbn [append]. now rewrite <- takeWhile_dropWhile.
Qed.

Lemma exec_sound (r : regex) (s : string) (z : State) :
  exec ignoreCase r s = Some z ->
  exists before rest,
    s = before ++ rest /\ matcher ignoreCase r (rest, None) Some = Some z.
Proof.
  induction s as [|ch s IH]; simpl; intros found;
    apply first_success_cases in found as [here|later]; try discriminate.
  - now exists EmptyString, EmptyString.
  - now exists EmptyString, (String ch s).
  - destruct (IH later) as (before & rest & -> & matched).
    now exists (String ch before), rest.
Qed.

End Extraction.

Lemma lower_unit_canonicalize (c : ascii) :
  lower_unit (canonicalize c) = lower_unit c.
Proof. destruct c as [[] [] [] [] [] [] [] []]; reflexivity. Qed.

(** A string read by a literal under the [i] flag is the literal up to
    the case of its letters. *)
Lemma derives_literal (s w : string) :
  derives true (literal s) w -> toLowerCase w = toLowerCase s.
Proof.
  revert w; induction s as [|c s IH]; intros w reads; cbn [literal] in reads.
  - inversion reads. reflexivity.
  - inversion reads as [| |r1 r2 w1 w2 first second| | | | | | |]; subst.
    inversion first as [|a ch fits| | | | | | | |]; subst.
    cbn [append toLowerCase]. rewrite (IH _ second). f_equal.
    cbn in fits. apply Ascii.eqb_eq in fits.
    now rewrite <- (lower_unit_canonicalize ch), <- fits, lower_unit_canonicalize.
Qed.

Lemma phrase_class (c : ascii) :
  atom_matches true (Class true ["034"; "'"; "."; "010"]%char) c = negb (phraseStop c).
Proof. destruct c as [[] [] [] [] [] [] [] []]; reflexivity. Qed.

Lemma all_units_ext (p q : ascii -> bool) (s : string) :
  (forall c, p c = q c) -> all_units p s = all_units q s.
Proof. intros same. induction s as [|c s IH]; simpl; trivial. now rewrite same, IH. Qed.

(** What a match of the search pattern is made of. *)
Lemma SEARCH_PATTERN_match (content : string) (z : State) :
  exec true SEARCH_PATTERN content = Some z ->
  exists before keyword between phrase after,
    content = before ++ keyword ++ between ++ phrase ++ after
    /\ z = (after, Some phrase)
    /\ In (toLowerCase keyword) ["retrieve"; "search"; "find"]
    /\ phrase <> EmptyString
    /\ all_units (fun c => negb (phraseStop c)) phrase = true
    /\ (after = EmptyString
        \/ exists c rest, after = String c rest /\ phraseStop c = true).
Proof.
  intros found.
  destruct (exec_sound true _ _ _ found) as (before & rest & -> & matched).
  unfold SEARCH_PATTERN in matched.
  apply seq_sound in matched as (keyword & rest1 & cap1 & shape1 & key & matched).
  apply seq_sound in matched as (w2 & rest2 & cap2 & shape2 & _ & matched).
  apply seq_sound in matched as (w3 & rest3 & cap3 & shape3 & _ & matched).
  apply seq_sound in matched as (w4 & rest4 & cap4 & shape4 & _ & matched).
  apply seq_sound in matched as (w5 & rest5 & cap5 & shape5 & _ & matched).
  apply final_group_plus in matched as (ch & tail & shape6 & fits & ->).
  cbn [fst] in *. subst.
  set (class := atom_matches true (Class true ["034"; "'"; "."; "010"]%char)) in *.
  exists before, keyword, (w2 ++ w3 ++ w4 ++ w5),
    (String ch (takeWhile class tail)), (dropWhile class tail).
  split; [|split; [reflexivity|split; [|split; [discriminate|split]]]].
  - rewrite !string_app_assoc. cbn [append].
    now rewrite <- (takeWhile_dropWhile class tail).
  - inversion key as [| | |r1 r2 w reads|r1 r2 w reads| | | | |]; subst.
    + apply (derives_literal "retrieve") in reads. rewrite reads. now left.
    + inversion reads as [| | |r1 r2 w reads'|r1 r2 w reads'| | | | |]; subst.
      * apply (derives_literal "search") in reads'. rewrite reads'. cbn. auto.
      * apply (derives_literal "find") in reads'. rewrite reads'. cbn. auto.
  - cbn [all_units]. unfold class in *. rewrite phrase_class in fits. rewrite fits.
    rewrite <- (all_units_ext _ _ _ phrase_class). apply takeWhile_units.
  - destruct (dropWhile_stops class tail) as [ends|(c & more & stops_at & fails)]; auto.
    right. exists c, more. split; trivial.
    unfold class in fails. rewrite phrase_class in fails.
    now apply negb_false_iff in fails.
Qed.

(** X16.  When the search pattern does not match the reply, the search
    phrase is the query of the user.  When it matches, the search phrase is
    what group 1 captured: a part of the reply that comes after one of the
    words "retrieve", "search" and "find" (letter case ignored); that part
    is not empty, holds no double quote, apostrophe, full stop or newline,
    and runs up to the next such unit or to the end of the reply. *)
Theorem searchQueryOf_phrase (content query : string) :
  (exec true SEARCH_PATTERN content = None /\ searchQueryOf content query = query)
  \/ exists before keyword between phrase after,
      exec true SEARCH_PATTERN content = Some (after, Some phrase)
      /\ searchQueryOf content query = phrase
      /\ content = before ++ keyword ++ between ++ phrase ++ after
      /\ In (toLowerCase keyword) ["retrieve"; "search"; "find"]
      /\ phrase <> EmptyString
      /\ all_units (fun c => negb (phraseStop c)) phrase = true
      /\ (after = EmptyString
          \/ exists c rest, after = String c rest /\ phraseStop c = true).
Proof.
  destruct (searchQueryOf_cases content query)
    as [unmatched|(rest & group1 & found & extracted)]; [now left | right].
  destruct (SEARCH_PATTERN_match content _ found)
    as (before & keyword & between & phrase & after & shape & same & facts).
  injection same as -> ->.
  now exists before, keyword, between, phrase, after.
Qed.

(** ** The document map of the router *)

Section DocumentMap.

Lemma Map_get_set_same (m : JsMap) (key value : string) :
  Map_get (Map_set m key value) key = Some value.
Proof.
  induction m as [|[k v] m IH]; simpl.
  - now rewrite String.eqb_refl.
  - destruct (String.eqb k key) eqn:same; simpl; now rewrite same.
Qed.

Lemma Map_get_set_other (m : JsMap) (key value other : string) :
  other <> key -> Map_get (Map_set m key value) other = Map_get m other.
Proof.
  intros differ. induction m as [|[k v] m IH]; simpl.
  - destruct (String.eqb_spec key other); [congruence | reflexivity].
  - destruct (String.eqb_spec k key) as [->|]; simpl.
    + destruct (String.eqb_spec key other); [congruence | reflexivity].
    + now rewrite IH.
Qed.

Lemma Map_set_keys (m : JsMap) (key value other : string) :
  In other (map fst (Map_set m key value)) <-> other = key \/ In other (map fst m).
Proof.
  induction m as [|[k v] m IH]; simpl.
  - intuition.
  - destruct (String.eqb_spec k key) as [->|]; simpl; [|rewrite IH]; intuition.
Qed.

Lemma Map_set_NoDup (m : JsMap) (key value : string) :
  NoDup (map fst m) -> NoDup (map fst (Map_set m key value)).
Proof.
  induction m as [|[k v] m IH]; simpl; intros unique.
  - repeat constructor. intros [].
  - inversion unique as [|? ? fresh others]; subst.
    destruct (String.eqb_spec k key) as [->|differ]; simpl.
    + now constructor.
    + constructor; [|now apply IH].
      rewrite Map_set_keys. intros [same|old]; congruence.
Qed.

Lemma Map_get_In (m : JsMap) (key value : string) :
  Map_get m key = Some value -> In (key, value) m.
Proof.
  induction m as [|[k v] m IH]; simpl; [discriminate|].
  destruct (String.eqb_spec k key) as [->|].
  - intros found. injection found as ->. now left.
  - intros found. right. now apply IH.
Qed.

(** Setting entries from a map on: the keys stay distinct, a key whose
    last entry is [(key, value)] ends with that value, and a key without
    entry keeps what it had. *)
Lemma fold_set_NoDup (entries : list (string * string)) (m : JsMap) :
  NoDup (map fst m) ->
  NoDup (map fst (fold_left (fun m entry => Map_set m (fst entry) (snd entry)) entries m)).
Proof.
  revert m; induction entries as [|entry entries IH]; intros m unique; simpl; trivial.
  now apply IH, Map_set_NoDup.
Qed.

Lemma fold_set_untouched (entries : list (string * string)) (m : JsMap) (key : string) :
  (forall entry, In entry entries -> fst entry <> key) ->
  Map_get (fold_left (fun m entry => Map_set m (fst entry) (snd entry)) entries m) key
  = Map_get m key.
Proof.
  revert m; induction entries as [|entry entries IH]; intros m others; simpl; trivial.
  rewrite IH by (intros e member; apply others; now right).
  apply Map_get_set_other. intros same. apply (others entry); [now left | congruence].
Qed.

Lemma fold_set_last (before after : list (string * string)) (m : JsMap)
      (key value : string) :
  (forall entry, In entry after -> fst entry <> key) ->
  Map_get (fold_left (fun m entry => Map_set m (fst entry) (snd entry))
                     (before ++ (key, value) :: after) m) key
  = Some value.
Proof.
  intros others. rewrite fold_left_app. cbn [fold_left fst snd].
  rewrite fold_set_untouched by exact others. apply Map_get_set_same.
Qed.

(** Each string of a list is a part of their join. *)
Lemma includes_join (sep x : string) (l : list string) :
  In x l -> includes (join sep l) x = true.
Proof.
  intros member. apply includes_iff.
  induction l as [|y l IH]; [contradiction|].
  destruct l as [|z l].
  - destruct member as [->|[]]. exists EmptyString, EmptyString. simpl.
    clear. induction x; simpl; congruence.
  - rewrite join_cons by discriminate.
    destruct member as [->|later].
    + now exists EmptyString, (sep ++ join sep (z :: l)).
    + destruct (IH later) as (pre & post & shape).
      exists (y ++ sep ++ pre), post. rewrite shape.
      now rewrite !string_app_assoc.
Qed.

(** A document of the map that has the phrase in its content is in the
    output of the Retrieval Tool. *)
Lemma retrieveDocuments_finds (this : ReactRagAgent) (title content phrase : string) :
  In (title, content) (documents this) ->
  includes (toLowerCase content) (toLowerCase phrase) = true ->
  includes (retrieveDocuments this phrase) (excerpt title content) = true.
Proof.
  intros member has. rewrite retrieveDocuments_unfold. unfold Spec.retrieval.
  assert (hit : In (title, content) (filter (Spec.matching phrase) (documents this))).
  { apply filter_In. split; trivial. unfold Spec.matching. cbn [fst snd].
    rewrite <- !includes_toLowerCase, has. apply orb_true_r. }
  destruct (filter (Spec.matching phrase) (documents this)) as [|first hits] eqn:found;
    [contradiction|].
  apply includes_join. now apply (in_map Spec.excerpt_of) in hit.
Qed.

Lemma docMapOf_get_last (before after : list Schema.Document) (d : Schema.Document) :
  (forall d', In d' after -> Schema.title d' <> Schema.title d) ->
  Map_get (docMapOf (before ++ d :: after)) (Schema.title d) = Some (Schema.content d).
Proof.
  intros others. unfold docMapOf, Map_from. rewrite map_app. cbn [map].
  apply fold_set_last. intros entry member.
  apply in_map_iff in member as (d' & <- & member'). now apply others.
Qed.

End DocumentMap.

(** X17.  The map that the router builds from the rows of a user has one
    entry for each title: a title that several rows bear keeps the content
    of the last of these rows, and a title that no row bears is absent. *)
Theorem docMapOf_last_row_wins (rows : list Schema.Document) :
  NoDup (map fst (docMapOf rows))
  /\ (forall before d after,
         rows = (before ++ d :: after)%list ->
         (forall d', In d' after -> Schema.title d' <> Schema.title d) ->
         Map_get (docMapOf rows) (Schema.title d) = Some (Schema.content d))
  /\ (forall title,
         (forall d, In d rows -> Schema.title d <> title) ->
         Map_get (docMapOf rows) title = None).
Proof.
  repeat split.
  - apply fold_set_NoDup. constructor.
  - intros before d after -> others. now apply docMapOf_get_last.
  - intros title others. unfold docMapOf, Map_from.
    rewrite fold_set_untouched; trivial.
    intros entry member. apply in_map_iff in member as (d & <- & member').
    now apply others.
Qed.

(** X18.  A document is searchable as soon as its upload resolves: when the
    rows that the database returns for the user end with the uploaded
    document, the agent that [uploadDocument] leaves holds the map of these
    rows and nothing else, with the uploaded content under the uploaded
    title (also when the title was there before), and the Retrieval Tool
    returns its excerpt for every phrase that its content contains. *)
Theorem uploaded_document_is_searchable
        (make : Construction) (db : option Drizzle) (ragAgent : option ReactRagAgent)
        (userId : Z) (input : Rag.UploadInput)
        (earlier : list Schema.Document) (row : Schema.Document) (phrase : string) :
  saveDocument db
    (Schema.mkInsertDocument userId (Rag.title input) (Rag.content input)
                             (Rag.mimeType input) Schema.completed) = None ->
  getUserDocuments db userId = inr (earlier ++ [row])%list ->
  Schema.title row = Rag.title input ->
  Schema.content row = Rag.content input ->
  (exists agent', getRagAgent make ragAgent = inr agent') ->
  includes (toLowerCase (Rag.content input)) (toLowerCase phrase) = true ->
  exists after,
    Rag.uploadDocument make db ragAgent userId input = (Resolves tt, Some after)
    /\ documents after = docMapOf (earlier ++ [row])
    /\ Map_get (documents after) (Rag.title input) = Some (Rag.content input)
    /\ includes (retrieveDocuments after phrase)
                (excerpt (Rag.title input) (Rag.content input)) = true.
Proof.
  intros saved selected title content [agent' got] has.
  unfold Rag.uploadDocument. rewrite saved, selected, got.
  exists (updateDocuments agent' (docMapOf (earlier ++ [row]))).
  assert (held : Map_get (docMapOf (earlier ++ [row])) (Rag.title input)
                 = Some (Rag.content input)).
  { rewrite <- title, <- content. apply (docMapOf_get_last earlier [] row).
    intros d' []. }
  repeat split; trivial.
  apply retrieveDocuments_finds; trivial. cbn [documents updateDocuments].
  now apply Map_get_In.
Qed.

Lemma uploaded_document_is_searchable_witness :
  exists after,
    Rag.uploadDocument
      (Constructed offline_model)
      (Some {| insert_documents := fun _ => None;
               select_documents_of_user :=
                 fun _ => inr [Schema.mkDocument 1 7 "doc1" "old text" None None None
                                                 Schema.completed 0 0;
                               Schema.mkDocument 2 7 "doc1" python_text None None None
                                                 Schema.completed 5 5];
               insert_ragQueries := fun _ => None |})
      None 7%Z (Rag.mkUploadInput "doc1" python_text None)
    = (Resolves tt, Some after)
    /\ documents after = [("doc1", python_text)].
Proof.
  destruct (uploaded_document_is_searchable
              (Constructed offline_model)
              (Some {| insert_documents := fun _ => None;
                       select_documents_of_user :=
                         fun _ => inr [Schema.mkDocument 1 7 "doc1" "old text" None None None
                                                         Schema.completed 0 0;
                                       Schema.mkDocument 2 7 "doc1" python_text None None
                                                         None Schema.completed 5 5];
                       insert_ragQueries := fun _ => None |})
              None 7%Z (Rag.mkUploadInput "doc1" python_text None)
              [Schema.mkDocument 1 7 "doc1" "old text" None None None Schema.completed 0 0]
              (Schema.mkDocument 2 7 "doc1" python_text None None None Schema.completed 5 5)
              "readability")
    as (after & uploaded & held & _); try reflexivity.
  - now exists (new_ReactRagAgent offline_model []).
  - exists after. split; [exact uploaded|]. rewrite held. reflexivity.
Defined.

(** X19.  A failure of the model never reaches the caller of the router as
    a failure.  With an agent at hand and the query saved, [rag.processQuery]
    resolves with success and the result and steps of the run, and
    [rag.streamQuery] with the same steps and result; when a call of the
    model threw during the run, the result they carry is the fallback
    sentence. *)
Theorem router_reports_success (fuel : nat) (now : Clock) (make : Construction)
        (db : option Drizzle) (this : ReactRagAgent) (userId : Z) (query : string) :
  maxIterations this < fuel ->
  saveRagQuery db (Schema.mkInsertRagQuery userId query Schema.processing) = None ->
  exists r,
    processQuery fuel now this query = Some r
    /\ Rag.processQuery fuel now make db (Some this) userId query
       = Some (Resolves (Rag.Success (result r) (steps r)), Some (agent r))
    /\ Rag.streamQuery fuel now make db (Some this) userId query
       = Some (Resolves (steps r, result r), Some (agent r))
    /\ forall k msgs e,
        nth_error (calls r) k = Some msgs ->
        invoke (model this) k msgs = Throws e ->
        result r = FALLBACK.
Proof.
  intros enough saved.
  destruct (run_of_frame now query fuel this enough)
    as (f & r & left & run & answer & _ & called).
  exists r. unfold Rag.processQuery, Rag.streamQuery.
  rewrite saved. cbn [getRagAgent]. rewrite run. repeat split.
  intros k msgs e found threw. rewrite called in found. rewrite answer.
  destruct (loop_outcome now query fuel this f left)
    as [returned|(before & last & e' & _ & _ & _ & unset & _)].
  - destruct (returned k msgs found) as [c ok]. congruence.
  - now rewrite unset.
Qed.

Lemma router_reports_success_witness :
  exists after steps,
    Rag.processQuery 6 ticking (Constructed offline_model)
      (Some {| insert_documents := fun _ => None;
               select_documents_of_user := fun _ => inr [];
               insert_ragQueries := fun _ => None |})
      (Some python_agent) 7%Z "Tell me about Python"
    = Some (Resolves (Rag.Success FALLBACK steps), Some after).
Proof.
  destruct (router_reports_success 6 ticking (Constructed offline_model)
              (Some {| insert_documents := fun _ => None;
                       select_documents_of_user := fun _ => inr [];
                       insert_ragQueries := fun _ => None |})
              python_agent 7%Z "Tell me about Python")
    as (r & run & response & _ & fallback).
  - cbn. lia.
  - reflexivity.
  - exists (agent r), (steps r). rewrite response.
    assert (first : nth_error (calls r) 0
                    = Some [SystemMessage SYSTEM_PROMPT; HumanMessage "Tell me about Python"]).
    { vm_compute in run. injection run as <-. reflexivity. }
    now rewrite (fallback 0 _ (ErrorObject "fetch failed") first eq_refl).
Defined.

(** ** [upsertUser] *)

Section Upsert.

Variable ownerOpenId : string.
Variable now : nat -> Z.

Lemma NoDup_keys (l : list string) :
  (fix distinct (l : list string) : bool :=
     match l with
     | [] => true
     | k :: rest => negb (existsb (String.eqb k) rest) && distinct rest
     end) l = true ->
  NoDup l.
Proof.
  induction l as [|k l IH]; [constructor|].
  intros ok. apply andb_prop in ok as [fresh rest].
  constructor; [|now apply IH].
  intros member. apply negb_true_iff in fresh.
  assert (found : existsb (String.eqb k) l = true).
  { apply existsb_exists. exists k. split; trivial. apply String.eqb_refl. }
  congruence.
Qed.

(** The statement, whatever the user record. *)
Lemma statement_facts (u : Users.InsertUser) :
  let values := fst (Users.statement ownerOpenId now u) in
  let updateSet := snd (Users.statement ownerOpenId now u) in
  Users.openId values = Users.openId u
  /\ Users.id values = None
  /\ Users.createdAt values = None
  /\ Users.updatedAt values = None
  /\ Users.lastSignedIn values
     = Some (match Users.lastSignedIn u with Some t => t | None => now 0 end)
  /\ updateSet <> []
  /\ NoDup (map fst updateSet)
  /\ (forall field,
         Users.read values field = Users.read u field
         /\ Users.Object_get updateSet (Users.key_of field)
            = Users.to_update (Users.read u field))
  /\ Users.Object_get updateSet "role" = option_map Users.VRole (Users.role values)
  /\ Users.role values
     = match Users.role u with
       | Some r => Some r
       | None => if String.eqb (Users.openId u) ownerOpenId
                 then Some Users.admin else None
       end
  /\ Users.Object_get updateSet "lastSignedIn"
     = match Users.lastSignedIn u with
       | Some t => Some (Users.VDate t)
       | None =>
           match Users.to_update (Users.name u), Users.to_update (Users.email u),
                 Users.to_update (Users.loginMethod u), Users.role values with
           | None, None, None, None => Some (Users.VDate (now 1))
           | _, _, _, _ => None
           end
       end.
Proof.
  destruct u as [id openId name email loginMethod role createdAt updatedAt lastSignedIn].
  unfold Users.statement. cbn [Users.openId Users.lastSignedIn Users.role].
  destruct (String.eqb openId ownerOpenId);
    destruct name, email, loginMethod, role, lastSignedIn; cbn;
    (split; [reflexivity|]); (split; [reflexivity|]); (split; [reflexivity|]);
    (split; [reflexivity|]); (split; [reflexivity|]); (split; [discriminate|]);
    (split; [apply NoDup_keys; reflexivity|]);
    (split; [intros []; split; reflexivity|]); (split; [reflexivity|]);
    split; reflexivity.
Qed.

Lemma issued_statement (db : option (Users.InsertUser * Users.UpdateSet -> option Thrown))
      (u : Users.InsertUser) (upsert : Users.InsertUser * Users.UpdateSet) :
  Users.issued (Users.upsertUser ownerOpenId now db u) = Some upsert ->
  Users.openId u <> EmptyString
  /\ db <> None
  /\ upsert = Users.statement ownerOpenId now u.
Proof.
  unfold Users.upsertUser.
  destruct (Users.openId u) eqn:given; cbn [truthy negb]; [discriminate|].
  destruct db as [run|]; [|discriminate].
  destruct (run (Users.statement ownerOpenId now u)); cbn;
    intros same; injection same as <-; repeat split; discriminate.
Qed.

End Upsert.

(** X20.  Whenever [upsertUser] issues its statement, the open id is not
    empty, the inserted values carry it, the update set is not empty and
    has no key twice, and for each of the columns name, email and
    loginMethod the values and the update set both hold what the caller
    gave: nothing when the column was left out, null or the string
    otherwise.  An id, a creation or an update date given by the caller are
    not inserted. *)
Theorem upsertUser_statement_agrees
        (ownerOpenId : string) (now : nat -> Z)
        (db : option (Users.InsertUser * Users.UpdateSet -> option Thrown))
        (u values : Users.InsertUser) (updateSet : Users.UpdateSet) :
  Users.issued (Users.upsertUser ownerOpenId now db u) = Some (values, updateSet) ->
  Users.openId u <> EmptyString
  /\ Users.openId values = Users.openId u
  /\ Users.id values = None
  /\ Users.createdAt values = None
  /\ Users.updatedAt values = None
  /\ updateSet <> []
  /\ NoDup (map fst updateSet)
  /\ forall field,
      Users.read values field = Users.read u field
      /\ Users.Object_get updateSet (Users.key_of field)
         = Users.to_update (Users.read u field).
Proof.
  intros statement.
  destruct (issued_statement ownerOpenId now db u _ statement) as (given & _ & same).
  pose proof (statement_facts ownerOpenId now u) as facts.
  rewrite <- same in facts. cbn [fst snd] in facts. tauto.
Qed.

Lemma upsertUser_statement_agrees_witness :
  Users.issued
    (Users.upsertUser "owner" (fun k => Z.of_nat k) (Some (fun _ => None))
       (Users.mkInsertUser (Some 9%Z) "alice" (Users.Given "Alice") Users.Null
                           Users.Undefined None None None None))
  = Some (Users.mkInsertUser None "alice" (Users.Given "Alice") Users.Null
                             Users.Undefined None None None (Some 0%Z),
          [("name", Users.VText (Some "Alice")); ("email", Users.VText None)])
  /\ "alice" <> EmptyString.
Proof.
  split; [reflexivity|].
  apply (upsertUser_statement_agrees "owner" (fun k => Z.of_nat k) (Some (fun _ => None))
           (Users.mkInsertUser (Some 9%Z) "alice" (Users.Given "Alice") Users.Null
                               Users.Undefined None None None None)
           (Users.mkInsertUser None "alice" (Users.Given "Alice") Users.Null
                               Users.Undefined None None None (Some 0%Z))
           [("name", Users.VText (Some "Alice")); ("email", Users.VText None)]).
  reflexivity.
Defined.

(** X21.  The role that [upsertUser] writes: the role the caller gives,
    whoever the user is; without one, admin for the owner and no role at
    all for any other user (the database then keeps or defaults the role).
    The update set holds the same role as the inserted values. *)
Theorem upsertUser_role
        (ownerOpenId : string) (now : nat -> Z)
        (db : option (Users.InsertUser * Users.UpdateSet -> option Thrown))
        (u values : Users.InsertUser) (updateSet : Users.UpdateSet) :
  Users.issued (Users.upsertUser ownerOpenId now db u) = Some (values, updateSet) ->
  Users.role values
  = match Users.role u with
    | Some r => Some r
    | None => if String.eqb (Users.openId u) ownerOpenId then Some Users.admin else None
    end
  /\ Users.Object_get updateSet "role" = option_map Users.VRole (Users.role values).
Proof.
  intros statement.
  destruct (issued_statement ownerOpenId now db u _ statement) as (_ & _ & same).
  pose proof (statement_facts ownerOpenId now u) as facts.
  rewrite <- same in facts. cbn [fst snd] in facts. tauto.
Qed.

Lemma upsertUser_role_witness :
  Users.role
    (fst (Users.statement "owner" (fun k => Z.of_nat k)
            (Users.mkInsertUser None "owner" Users.Undefined Users.Undefined
                                Users.Undefined None None None None)))
  = Some Users.admin.
Proof.
  destruct (upsertUser_role "owner" (fun k => Z.of_nat k) (Some (fun _ => None))
              (Users.mkInsertUser None "owner" Users.Undefined Users.Undefined
                                  Users.Undefined None None None None)
              (fst (Users.statement "owner" (fun k => Z.of_nat k)
                      (Users.mkInsertUser None "owner" Users.Undefined Users.Undefined
                                          Users.Undefined None None None None)))
              (snd (Users.statement "owner" (fun k => Z.of_nat k)
                      (Users.mkInsertUser None "owner" Users.Undefined Users.Undefined
                                          Users.Undefined None None None None))))
    as [role _].
  - reflexivity.
  - exact role.
Defined.

(** X22.  The sign-in date that [upsertUser] writes.  The inserted values
    always carry one: the date the caller gives, or else the first reading
    of the clock.  The update set carries the date the caller gives; without
    one it carries a date only when nothing else is to be updated, and that
    date is the second reading of the clock, not the one inserted. *)
Theorem upsertUser_lastSignedIn
        (ownerOpenId : string) (now : nat -> Z)
        (db : option (Users.InsertUser * Users.UpdateSet -> option Thrown))
        (u values : Users.InsertUser) (updateSet : Users.UpdateSet) :
  Users.issued (Users.upsertUser ownerOpenId now db u) = Some (values, updateSet) ->
  Users.lastSignedIn values
  = Some (match Users.lastSignedIn u with Some t => t | None => now 0 end)
  /\ Users.Object_get updateSet "lastSignedIn"
     = match Users.lastSignedIn u with
       | Some t => Some (Users.VDate t)
       | None =>
           match Users.to_update (Users.name u), Users.to_update (Users.email u),
                 Users.to_update (Users.loginMethod u), Users.role values with
           | None, None, None, None => Some (Users.VDate (now 1))
           | _, _, _, _ => None
           end
       end.
Proof.
  intros statement.
  destruct (issued_statement ownerOpenId now db u _ statement) as (_ & _ & same).
  pose proof (statement_facts ownerOpenId now u) as facts.
  rewrite <- same in facts. cbn [fst snd] in facts. tauto.
Qed.

Lemma upsertUser_lastSignedIn_witness :
  Users.issued
    (Users.upsertUser "owner" (fun k => Z.of_nat k) (Some (fun _ => None))
       (Users.mkInsertUser None "bob" Users.Undefined Users.Undefined
                           Users.Undefined None None None None))
  = Some (Users.mkInsertUser None "bob" Users.Undefined Users.Undefined
                             Users.Undefined None None None (Some 0%Z),
          [("lastSignedIn", Users.VDate 1)])
  /\ Users.Object_get [("lastSignedIn", Users.VDate 1)] "lastSignedIn"
     = Some (Users.VDate 1).
Proof.
  split; [reflexivity|].
  apply (upsertUser_lastSignedIn "owner" (fun k => Z.of_nat k) (Some (fun _ => None))
           (Users.mkInsertUser None "bob" Users.Undefined Users.Undefined
                               Users.Undefined None None None None)
           (Users.mkInsertUser None "bob" Users.Undefined Users.Undefined
                               Users.Undefined None None None (Some 0%Z))
           [("lastSignedIn", Users.VDate 1)]).
  reflexivity.
Defined.

